(** * dbx/utils/common.py: deployment configuration, project store and
      execution-context client

    A shallow embedding of the helper layer of [dbx]: the project metadata
    store ([InfoFile], [ContextLockFile]), the JSON deployment
    configuration reader ([JsonDeploymentConfig]), the environment-variable
    interpolation of both readers, the versioned API client
    ([ApiV1Client]) and the helpers of the command line.

    Python values that the module moves around are JSON documents; Python
    [str] is a list of characters (code points below 256); exceptions are an
    explicit sum; the file system and the remote service are explicit
    states threaded through the operations. *)

From Stdlib Require Import ZArith Ascii String List Bool Lia.
From Stdlib Require Import DecimalN DecimalPos DecimalFacts.
From stdpp Require Import base option list gmap strings.

Import ListNotations.
Local Open Scope Z_scope.
Local Open Scope nat_scope.
Local Open Scope list_scope.

(** ** Python values *)

(** A Python [str]. *)
Abbreviation str := (list ascii).

(** A string literal of the source. *)
Definition lit (s : string) : str := list_ascii_of_string s.

(** The documents handled by [json.load] / [json.dump]: [None], [bool],
    [int], [str], [list] and [dict] with [str] keys, in insertion order.
    Floating-point numbers are left out. *)
#[warnings="-register-all"]
Inductive json : Type :=
| JNull
| JBool (b : bool)
| JInt (z : Z)
| JStr (s : str)
| JList (items : list json)
| JDict (entries : list (str * json)).

(** The exceptions the module raises, catches or lets through. *)
Inductive exn : Type :=
| FileNotFoundError
| FileExistsError
| NotADirectoryError
| IsADirectoryError
| JSONDecodeError
| AttributeError
| HTTPError (message : str)          (* requests.exceptions.HTTPError *)
| ConnectionError (message : str)    (* requests.exceptions.ConnectionError *)
| Timeout (message : str)            (* requests.exceptions.Timeout *)
| Exception (message : str).         (* a plain [Exception(message)] *)

Inductive result (A : Type) : Type :=
| Ok (a : A)
| Raise (e : exn).
Arguments Ok {A} a.
Arguments Raise {A} e.

(** [isinstance(e, requests.exceptions.HTTPError)]. *)
Definition is_HTTPError (e : exn) : bool :=
  match e with HTTPError _ => true | _ => false end.

(** ** ApiV1Client *)

Module ApiV1Client.

Inductive http_method := GET | POST.

Record request := Request {
  method : http_method;
  path : str;
  data : json
}.

(** The remote service as the client sees it: the outcome of the n-th
    query, the number of queries made so far, and the delays slept
    between attempts of a retried call (oldest first). *)
Record world := World {
  server : nat -> request -> result json;
  ncalls : nat;
  sleeps : list Z
}.

(** [self.v1_client.perform_query(method=..., path=..., data=...)]. *)
Definition perform_query (rq : request) (w : world) : result json * world :=
  (server w (ncalls w) rq,
   {| server := server w; ncalls := S (ncalls w); sleeps := sleeps w |}).

(** [time.sleep(delay)]. *)
Definition sleep (delay : Z) (w : world) : world :=
  {| server := server w; ncalls := ncalls w; sleeps := sleeps w ++ [delay] |}.

Definition get_command_status (payload : json) (w : world) : result json * world :=
  perform_query (Request GET (lit "/commands/status") payload) w.

Definition cancel_command (payload : json) (w : world) : result json * world :=
  match perform_query (Request POST (lit "/commands/cancel") payload) w with
  | (Ok _, w') => (Ok JNull, w')
  | (Raise e, w') => (Raise e, w')
  end.

Definition execute_command (payload : json) (w : world) : result json * world :=
  perform_query (Request POST (lit "/commands/execute") payload) w.

Definition get_context_status (payload : json) (w : world) : result json * world :=
  match perform_query (Request GET (lit "/contexts/status") payload) w with
  | (Ok result, w') => (Ok result, w')
  | (Raise e, w') =>
      if is_HTTPError e then (Ok JNull, w') else (Raise e, w')
  end.

(** Modelled from the spec: the body of the [retry] decorator, which
    comes from the third-party package [retry] and is not under src/.
    The call is attempted while tries remain; a failure of the last
    attempt is raised again, any earlier failure is followed by a sleep of
    the current delay, and the delay is then multiplied by the backoff.
    With no tries at all the loop body never runs and [None] is
    returned. *)
Fixpoint retry (tries : nat) (delay backoff : Z)
    (f : world -> result json * world) (w : world) : result json * world :=
  match tries with
  | O => (Ok JNull, w)
  | S tries' =>
      match f w with
      | (Ok result, w') => (Ok result, w')
      | (Raise e, w') =>
          match tries' with
          | O => (Raise e, w')
          | S _ => retry tries' (delay * backoff)%Z backoff f (sleep delay w')
          end
      end
  end.

Definition create_context_request (payload : json) : request :=
  Request POST (lit "/contexts/create") payload.

(** [@retry(tries=10, delay=5, backoff=5)]. *)
Definition create_context (payload : json) (w : world) : result json * world :=
  retry 10 5 5 (perform_query (create_context_request payload)) w.

End ApiV1Client.

(** ** Regular expressions (the fragment of [re] the module uses) *)

Module Re.

(** A set of characters: one character, a negated class [[^...]], or the
    dot (any character but a newline). *)
Inductive cset : Type :=
| One (c : ascii)
| NoneOf (cs : list ascii)
| Dot.

Definition ascii_in (c : ascii) (cs : list ascii) : bool :=
  existsb (Ascii.eqb c) cs.

Definition cset_mem (k : cset) (c : ascii) : bool :=
  match k with
  | One c' => Ascii.eqb c c'
  | NoneOf cs => negb (ascii_in c cs)
  | Dot => negb (Ascii.eqb c "010"%char)
  end.

(** Patterns: a character, concatenation, greedy [r?], greedy [k+] and
    lazy [k*?] over a character set, and a numbered capturing group. *)
Inductive re : Type :=
| Chr (k : cset)
| Cat (r1 r2 : re)
| Opt (r : re)
| Plus (k : cset)
| StarLazy (k : cset)
| Group (n : nat) (r : re).

(** The groups that took part in a match, latest first. *)
Definition captures := list (nat * str).

Fixpoint group (n : nat) (caps : captures) : option str :=
  match caps with
  | [] => None
  | (m, s) :: caps' => if Nat.eqb n m then Some s else group n caps'
  end.

(** The text consumed between the input [s] and its suffix [s']. *)
Definition consumed (s s' : str) : str :=
  firstn (length s - length s') s.

(** Greedy [k+]: as many characters as possible first, then fewer. *)
Fixpoint plus_greedy {R} (k : cset) (s : str) (cont : str -> option R) : option R :=
  match s with
  | [] => None
  | a :: s' =>
      if cset_mem k a then
        match plus_greedy k s' cont with
        | Some x => Some x
        | None => cont s'
        end
      else None
  end.

(** Lazy [k*?]: as few characters as possible first, then more. *)
Fixpoint star_lazy {R} (k : cset) (s : str) (cont : str -> option R) : option R :=
  match cont s with
  | Some x => Some x
  | None =>
      match s with
      | [] => None
      | a :: s' => if cset_mem k a then star_lazy k s' cont else None
      end
  end.

(** The backtracking matcher, in continuation-passing style: the first
    way of matching [r] at the head of [s] that the continuation
    accepts. *)
Fixpoint run {R} (r : re) (s : str) (caps : captures)
    (cont : str -> captures -> option R) : option R :=
  match r with
  | Chr k =>
      match s with
      | a :: s' => if cset_mem k a then cont s' caps else None
      | [] => None
      end
  | Cat r1 r2 => run r1 s caps (fun s' caps' => run r2 s' caps' cont)
  | Opt r1 =>
      match run r1 s caps cont with
      | Some x => Some x
      | None => cont s caps
      end
  | Plus k => plus_greedy k s (fun s' => cont s' caps)
  | StarLazy k => star_lazy k s (fun s' => cont s' caps)
  | Group n r1 =>
      run r1 s caps (fun s' caps' => cont s' ((n, consumed s s') :: caps'))
  end.

(** [pattern.match(s)]: a match at the very start of [s]; the result is
    the unmatched rest and the groups. *)
Definition match_ (r : re) (s : str) : option (str * captures) :=
  run r s [] (fun s' caps => Some (s', caps)).

(** The input cut into the non-overlapping matches found from left to
    right and the characters between them. *)
Inductive piece : Type :=
| Keep (c : ascii)
| Hit (whole : str) (caps : captures).

(** [skip] counts the characters still covered by the previous match.
    The patterns of this module never match the empty string, so the
    rules of [re] for empty matches are not needed: an empty match
    counts as none. *)
Fixpoint pieces (r : re) (s : str) (skip : nat) : list piece :=
  match s with
  | [] => []
  | a :: s' =>
      match skip with
      | S n => pieces r s' n
      | O =>
          match match_ r s with
          | Some (rest, caps) =>
              match length s - length rest with
              | O => Keep a :: pieces r s' 0
              | S n => Hit (consumed s rest) caps :: pieces r s' n
              end
          | None => Keep a :: pieces r s' 0
          end
      end
  end.

(** [pattern.finditer(s)], as the groups of every match. *)
Definition finditer (r : re) (s : str) : list captures :=
  flat_map (fun p => match p with Hit _ caps => [caps] | Keep _ => [] end)
           (pieces r s 0).

(** [pattern.sub(repl, s)] with a function [repl] of the match. *)
Definition sub (r : re) (repl : captures -> str) (s : str) : str :=
  concat (map (fun p => match p with
                        | Keep c => [c]
                        | Hit _ caps => repl caps
                        end) (pieces r s 0)).

(** [pattern.findall(s)] for a pattern with two groups: the pair of
    both groups of every match, the empty string standing for a group
    that took no part. *)
Definition findall2 (r : re) (s : str) : list (str * str) :=
  map (fun caps => (default [] (group 1 caps), default [] (group 2 caps)))
      (finditer r s).

End Re.

(** [str.replace(old, new)]: every non-overlapping occurrence of [old],
    from left to right. [skip] counts the characters still covered by the
    occurrence just replaced. *)
Fixpoint starts_with (p s : str) : bool :=
  match p, s with
  | [], _ => true
  | a :: p', b :: s' => Ascii.eqb a b && starts_with p' s'
  | _ :: _, [] => false
  end.

Fixpoint replace_from (old new s : str) (skip : nat) : str :=
  match s with
  | [] => []
  | a :: s' =>
      match skip with
      | S n => replace_from old new s' n
      | O =>
          if starts_with old s
          then new ++ replace_from old new s' (length old - 1)
          else a :: replace_from old new s' 0
      end
  end.

Definition replace (old new s : str) : str :=
  match old with
  | [] => new ++ concat (map (fun c => c :: new) s)
  | _ :: _ => replace_from old new s 0
  end.

(** [os.environ]. *)
Abbreviation environ := (str -> option str).

(** [os.environ.get(name, "")]. *)
Definition environ_get (env : environ) (name : str) : str :=
  default [] (env name).

(** The pattern shared by both readers:
    [\$\{([^}{:]+)(:[^}^{]+)?\}]. *)
Definition TOKEN : Re.re :=
  Re.Cat (Re.Chr (Re.One "$"))
 (Re.Cat (Re.Chr (Re.One "{"))
 (Re.Cat (Re.Group 1 (Re.Plus (Re.NoneOf ["}"; "{"; ":"]%char)))
 (Re.Cat (Re.Opt (Re.Group 2 (Re.Cat (Re.Chr (Re.One ":"))
                                     (Re.Plus (Re.NoneOf ["}"; "^"; "{"]%char)))))
         (Re.Chr (Re.One "}"))))).

(** ** The [json] module of the standard library *)

Module Json.

Definition dquote : ascii := "034"%char.
Definition backslash : ascii := "092"%char.

Definition hex_digit (n : nat) : ascii :=
  nth n (lit "0123456789abcdef") "0"%char.

(** ['\\u{0:04x}'.format(n)] for a code point below 256. *)
Definition escape_u (c : ascii) : str :=
  let n := nat_of_ascii c in
  [backslash; "u"; "0"; "0"; hex_digit (n / 16); hex_digit (n mod 16)]%char.

(** One character under [ESCAPE_ASCII] / [ESCAPE_DCT]: the backslash
    and the double quote get a backslash, five control characters their
    letter, and everything else outside [' '..'~'] the form [\uXXXX]. *)
Definition escape_char (c : ascii) : str :=
  if Ascii.eqb c backslash then [backslash; backslash]
  else if Ascii.eqb c dquote then [backslash; dquote]
  else if Ascii.eqb c "008" then [backslash; "b"]%char
  else if Ascii.eqb c "012" then [backslash; "f"]%char
  else if Ascii.eqb c "010" then [backslash; "n"]%char
  else if Ascii.eqb c "013" then [backslash; "r"]%char
  else if Ascii.eqb c "009" then [backslash; "t"]%char
  else if (nat_of_ascii c <? 32) || (126 <? nat_of_ascii c) then escape_u c
  else [c].

Definition escape (s : str) : str := flat_map escape_char s.

(** [encode_basestring_ascii]. *)
Definition encode_basestring_ascii (s : str) : str :=
  dquote :: escape s ++ [dquote].

Fixpoint uint_digits (d : Decimal.uint) : str :=
  match d with
  | Decimal.Nil => []
  | Decimal.D0 d' => "0"%char :: uint_digits d'
  | Decimal.D1 d' => "1"%char :: uint_digits d'
  | Decimal.D2 d' => "2"%char :: uint_digits d'
  | Decimal.D3 d' => "3"%char :: uint_digits d'
  | Decimal.D4 d' => "4"%char :: uint_digits d'
  | Decimal.D5 d' => "5"%char :: uint_digits d'
  | Decimal.D6 d' => "6"%char :: uint_digits d'
  | Decimal.D7 d' => "7"%char :: uint_digits d'
  | Decimal.D8 d' => "8"%char :: uint_digits d'
  | Decimal.D9 d' => "9"%char :: uint_digits d'
  end.

(** [int.__repr__]. *)
Definition int_repr (z : Z) : str :=
  match z with
  | Zneg p => "-"%char :: uint_digits (Pos.to_uint p)
  | _ => uint_digits (N.to_uint (Z.to_N z))
  end.

Fixpoint join (sep : str) (parts : list str) : str :=
  match parts with
  | [] => []
  | [x] => x
  | x :: parts' => x ++ sep ++ join sep parts'
  end.

(** ['\n' + _indent * level], or nothing without an indent. *)
Definition newline_indent (indent : option nat) (level : nat) : str :=
  match indent with
  | Some n => "010"%char :: repeat " "%char (n * level)
  | None => []
  end.

Definition item_separator (indent : option nat) : str :=
  match indent with
  | Some _ => lit ","
  | None => lit ", "
  end.

Definition key_separator : str := lit ": ".

(** [_iterencode(o, level)], joined. *)
Fixpoint encode (indent : option nat) (level : nat) (o : json) : str :=
  match o with
  | JNull => lit "null"
  | JBool true => lit "true"
  | JBool false => lit "false"
  | JInt z => int_repr z
  | JStr s => encode_basestring_ascii s
  | JList [] => lit "[]"
  | JList items =>
      lit "[" ++ newline_indent indent (S level)
      ++ join (item_separator indent ++ newline_indent indent (S level))
              (map (encode indent (S level)) items)
      ++ newline_indent indent level ++ lit "]"
  | JDict [] => lit "{}"
  | JDict entries =>
      lit "{" ++ newline_indent indent (S level)
      ++ join (item_separator indent ++ newline_indent indent (S level))
              (map (fun kv => match kv with
                              | (k, v) => encode_basestring_ascii k ++ key_separator
                                          ++ encode indent (S level) v
                              end) entries)
      ++ newline_indent indent level ++ lit "}"
  end.

(** [json.dumps(obj)] and the text written by
    [json.dump(obj, f, indent=4)]. *)
Definition dumps (obj : json) : str := encode None 0 obj.
Definition dumps_indent (indent : nat) (obj : json) : str :=
  encode (Some indent) 0 obj.

(** *** Decoding *)

Definition is_ws (c : ascii) : bool :=
  Ascii.eqb c " " || Ascii.eqb c "009" || Ascii.eqb c "010" || Ascii.eqb c "013".

Fixpoint skip_ws (s : str) : str :=
  match s with
  | c :: s' => if is_ws c then skip_ws s' else s
  | [] => []
  end.

Definition hex_value (c : ascii) : option nat :=
  let n := nat_of_ascii c in
  if (48 <=? n) && (n <=? 57) then Some (n - 48)
  else if (97 <=? n) && (n <=? 102) then Some (n - 87)
  else if (65 <=? n) && (n <=? 70) then Some (n - 55)
  else None.

(** The character an escape letter stands for ([BACKSLASH]). *)
Definition unescape (c : ascii) : option ascii :=
  if Ascii.eqb c dquote then Some dquote
  else if Ascii.eqb c backslash then Some backslash
  else if Ascii.eqb c "/" then Some "/"%char
  else if Ascii.eqb c "b" then Some "008"%char
  else if Ascii.eqb c "f" then Some "012"%char
  else if Ascii.eqb c "n" then Some "010"%char
  else if Ascii.eqb c "r" then Some "013"%char
  else if Ascii.eqb c "t" then Some "009"%char
  else None.

(** [scanstring], from just after the opening quote: the decoded string
    and the text after the closing quote. A raw control character, an
    unknown escape or a missing quote is an error; so is, in this model,
    an escape [\uXXXX] of a code point above 255. *)
Fixpoint scanstring (s : str) : option (str * str) :=
  match s with
  | [] => None
  | c :: s' =>
      if Ascii.eqb c dquote then Some ([], s')
      else if Ascii.eqb c backslash then
        match s' with
        | [] => None
        | e :: s'' =>
            if Ascii.eqb e "u" then
              match s'' with
              | h1 :: h2 :: h3 :: h4 :: s3 =>
                  match hex_value h1, hex_value h2, hex_value h3, hex_value h4 with
                  | Some 0, Some 0, Some n3, Some n4 =>
                      match scanstring s3 with
                      | Some (x, rest) => Some (ascii_of_nat (16 * n3 + n4) :: x, rest)
                      | None => None
                      end
                  | _, _, _, _ => None
                  end
              | _ => None
              end
            else
              match unescape e with
              | Some ch =>
                  match scanstring s'' with
                  | Some (x, rest) => Some (ch :: x, rest)
                  | None => None
                  end
              | None => None
              end
        end
      else if nat_of_ascii c <? 32 then None
      else
        match scanstring s' with
        | Some (x, rest) => Some (c :: x, rest)
        | None => None
        end
  end.

(** The decimal digit a character stands for, as the constructor that
    puts it in front of a numeral. *)
Definition digit_of (c : ascii) : option (Decimal.uint -> Decimal.uint) :=
  if Ascii.eqb c "0" then Some Decimal.D0
  else if Ascii.eqb c "1" then Some Decimal.D1
  else if Ascii.eqb c "2" then Some Decimal.D2
  else if Ascii.eqb c "3" then Some Decimal.D3
  else if Ascii.eqb c "4" then Some Decimal.D4
  else if Ascii.eqb c "5" then Some Decimal.D5
  else if Ascii.eqb c "6" then Some Decimal.D6
  else if Ascii.eqb c "7" then Some Decimal.D7
  else if Ascii.eqb c "8" then Some Decimal.D8
  else if Ascii.eqb c "9" then Some Decimal.D9
  else None.

(** The leading digits of a text and what follows them. *)
Fixpoint scan_digits (s : str) : Decimal.uint * str :=
  match s with
  | c :: s' =>
      match digit_of c with
      | Some digit => let (d, rest) := scan_digits s' in (digit d, rest)
      | None => (Decimal.Nil, s)
      end
  | [] => (Decimal.Nil, [])
  end.

(** [NUMBER_RE], integer part: an optional minus sign, then either a
    single zero or a non-zero digit followed by digits; the digits are
    read by [int]. A fraction or an exponent would make a floating-point
    number, which is outside this model, or is an error already. *)
Definition scan_number (s : str) : option (json * str) :=
  let (neg, s1) := match s with
                   | c :: s' => if Ascii.eqb c "-" then (true, s') else (false, s)
                   | [] => (false, s)
                   end in
  match s1 with
  | [] => None
  | c :: s2 =>
      match digit_of c with
      | None => None
      | Some _ =>
          let (d, rest) := if Ascii.eqb c "0" then (Decimal.D0 Decimal.Nil, s2)
                           else scan_digits s1 in
          let n := Z.of_N (N.of_uint d) in
          let number := JInt (if neg then - n else n)%Z in
          match rest with
          | c' :: _ =>
              if Ascii.eqb c' "." || Ascii.eqb c' "e" || Ascii.eqb c' "E" then None
              else Some (number, rest)
          | [] => Some (number, rest)
          end
      end
  end.

(** [d[k] = v]. *)
Fixpoint dict_set (k : str) (v : json) (d : list (str * json)) : list (str * json) :=
  match d with
  | [] => [(k, v)]
  | (k', v') :: d' =>
      if decide (k = k') then (k, v) :: d' else (k', v') :: dict_set k v d'
  end.

(** [d.update(other)] and [dict(pairs)]. *)
Definition dict_update (d other : list (str * json)) : list (str * json) :=
  fold_left (fun acc kv => dict_set (fst kv) (snd kv) acc) other d.

Definition dict_of_pairs (pairs : list (str * json)) : list (str * json) :=
  dict_update [] pairs.

(** [scan_once], [JSONArray] and [JSONObject]. [parse_elements] and
    [parse_members] start at the first character of an element or of a
    key. The fuel bounds the nesting and the number of elements; the
    length of the text is always enough. *)
Fixpoint parse_value (fuel : nat) (s : str) : option (json * str) :=
  match fuel with
  | O => None
  | S fuel' =>
      match s with
      | [] => None
      | c :: s' =>
          if Ascii.eqb c dquote then
            match scanstring s' with
            | Some (x, rest) => Some (JStr x, rest)
            | None => None
            end
          else if Ascii.eqb c "{" then
            match skip_ws s' with
            | [] => None
            | c1 :: rest1 =>
                if Ascii.eqb c1 "}" then Some (JDict [], rest1)
                else
                  match parse_members fuel' (c1 :: rest1) with
                  | Some (pairs, rest) => Some (JDict (dict_of_pairs pairs), rest)
                  | None => None
                  end
            end
          else if Ascii.eqb c "[" then
            match skip_ws s' with
            | [] => None
            | c1 :: rest1 =>
                if Ascii.eqb c1 "]" then Some (JList [], rest1)
                else
                  match parse_elements fuel' (c1 :: rest1) with
                  | Some (values, rest) => Some (JList values, rest)
                  | None => None
                  end
            end
          else if starts_with (lit "null") s then Some (JNull, skipn 4 s)
          else if starts_with (lit "true") s then Some (JBool true, skipn 4 s)
          else if starts_with (lit "false") s then Some (JBool false, skipn 5 s)
          else scan_number s
      end
  end
with parse_elements (fuel : nat) (s : str) : option (list json * str) :=
  match fuel with
  | O => None
  | S fuel' =>
      match parse_value fuel' s with
      | None => None
      | Some (v, s1) =>
          match skip_ws s1 with
          | [] => None
          | c :: s2 =>
              if Ascii.eqb c "]" then Some ([v], s2)
              else if Ascii.eqb c "," then
                match parse_elements fuel' (skip_ws s2) with
                | Some (vs, rest) => Some (v :: vs, rest)
                | None => None
                end
              else None
          end
      end
  end
with parse_members (fuel : nat) (s : str) : option (list (str * json) * str) :=
  match fuel with
  | O => None
  | S fuel' =>
      match s with
      | [] => None
      | q :: s1 =>
          if Ascii.eqb q dquote then
            match scanstring s1 with
            | None => None
            | Some (k, s2) =>
                match skip_ws s2 with
                | [] => None
                | c :: s3 =>
                    if Ascii.eqb c ":" then
                      match parse_value fuel' (skip_ws s3) with
                      | None => None
                      | Some (v, s4) =>
                          match skip_ws s4 with
                          | [] => None
                          | c' :: s5 =>
                              if Ascii.eqb c' "}" then Some ([(k, v)], s5)
                              else if Ascii.eqb c' "," then
                                match parse_members fuel' (skip_ws s5) with
                                | Some (kvs, rest) => Some ((k, v) :: kvs, rest)
                                | None => None
                                end
                              else None
                          end
                      end
                    else None
                end
            end
          else None
      end
  end.

(** [json.loads(s)] on the documents of this model. A result [Some doc]
    is the document [json.loads] returns. [None] stands for
    [JSONDecodeError], and also for a text outside the model: one with a
    float, with [NaN] or [Infinity], or with an escape for a code point
    above 255. *)
Definition loads (s : str) : option json :=
  match parse_value (S (length s)) (skip_ws s) with
  | Some (v, rest) =>
      match skip_ws rest with
      | [] => Some v
      | _ :: _ => None
      end
  | None => None
  end.

(** [d.get(k)]: the value, or [None]. *)
Fixpoint dict_lookup (k : str) (d : list (str * json)) : option json :=
  match d with
  | [] => None
  | (k', v) :: d' => if decide (k = k') then Some v else dict_lookup k d'
  end.

Definition dict_get (k : str) (d : list (str * json)) : json :=
  default JNull (dict_lookup k d).

(** [list(d.keys())]. *)
Definition dict_keys (d : list (str * json)) : list str := map fst d.

End Json.

(** [obj.get(key)] on a value read from a document: only a [dict] has the
    method. *)
Definition py_get (obj : json) (key : str) : result json :=
  match obj with
  | JDict d => Ok (Json.dict_get key d)
  | _ => Raise AttributeError
  end.

(** [list(obj.keys())]. *)
Definition py_keys (obj : json) : result (list str) :=
  match obj with
  | JDict d => Ok (Json.dict_keys d)
  | _ => Raise AttributeError
  end.

(** ** The file system and the console *)

Record os_state := OsState {
  dirs : gset string;          (* the directories *)
  files : gmap string str;     (* the regular files and their text *)
  stdout : list str            (* the messages echoed, oldest first *)
}.

(** Programs that read and change the file system and may raise. *)
Definition io (A : Type) : Type := os_state -> result A * os_state.

Definition ret {A} (a : A) : io A := fun st => (Ok a, st).
Definition raise {A} (e : exn) : io A := fun st => (Raise e, st).
Definition bind {A B} (m : io A) (k : A -> io B) : io B :=
  fun st =>
    match m st with
    | (Ok a, st') => k a st'
    | (Raise e, st') => (Raise e, st')
    end.
Definition lift {A} (r : result A) : io A := fun st => (r, st).

Declare Scope io_scope.
Delimit Scope io_scope with io.
Notation "x <- m ;; k" := (bind m (fun x => k))
  (at level 100, m at next level, right associativity) : io_scope.
Notation "m ;; k" := (bind m (fun _ => k))
  (at level 100, right associativity) : io_scope.
Local Open Scope io_scope.

Definition DBX_PATH : string := ".dbx".
Definition INFO_FILE_PATH : string := DBX_PATH +:+ "/project.json".
Definition LOCK_FILE_PATH : string := DBX_PATH +:+ "/lock.json".
Definition DEFAULT_DEPLOYMENT_FILE_PATH : string := "conf/deployment.json".

Fixpoint after_slash (s : str) : str :=
  match s with
  | [] => []
  | c :: s' => if Ascii.eqb c "/" then s' else after_slash s'
  end.

(** The directory a path lies in; the empty string is the working
    directory. *)
Definition dirname (p : string) : string :=
  string_of_list_ascii (rev (after_slash (rev (list_ascii_of_string p)))).

(** [Path(p).exists()]. *)
Definition path_exists (p : string) (st : os_state) : bool :=
  bool_decide (p ∈ dirs st) || bool_decide (is_Some (files st !! p)).

(** Whether a file can be created or truncated at [p]. *)
Definition check_writable (p : string) (st : os_state) : result unit :=
  if bool_decide (p ∈ dirs st) then Raise IsADirectoryError
  else if bool_decide (dirname p = ""%string) || bool_decide (dirname p ∈ dirs st)
       then Ok tt
  else if bool_decide (is_Some (files st !! dirname p)) then Raise NotADirectoryError
  else Raise FileNotFoundError.

(** [open(p, "r").read()]. *)
Definition read_text (p : string) : io str :=
  fun st =>
    match files st !! p with
    | Some text => (Ok text, st)
    | None =>
        if bool_decide (p ∈ dirs st) then (Raise IsADirectoryError, st)
        else (Raise FileNotFoundError, st)
    end.

(** [open(p, "w").write(text)]. *)
Definition write_text (p : string) (text : str) : io unit :=
  fun st =>
    match check_writable p st with
    | Ok _ =>
        (Ok tt, {| dirs := dirs st; files := <[p := text]> (files st);
                   stdout := stdout st |})
    | Raise e => (Raise e, st)
    end.

(** [os.mkdir(p)]. *)
Definition mkdir (p : string) : io unit :=
  fun st =>
    if path_exists p st then (Raise FileExistsError, st)
    else
      match check_writable p st with
      | Ok _ =>
          (Ok tt, {| dirs := {[p]} ∪ dirs st; files := files st;
                     stdout := stdout st |})
      | Raise e => (Raise e, st)
      end.

(** [dbx_echo(message)]; the time stamp put before the message is left
    out. *)
Definition dbx_echo (message : str) : io unit :=
  fun st =>
    (Ok tt, {| dirs := dirs st; files := files st;
               stdout := stdout st ++ [lit "[dbx] " ++ message] |}).

Definition read_json (file_path : string) : io json :=
  text <- read_text file_path ;;
  match Json.loads text with
  | Some doc => ret doc
  | None => raise JSONDecodeError
  end.

Definition write_json (content : json) (file_path : string) : io unit :=
  write_text file_path (Json.dumps_indent 4 content).

Definition update_json (new_content : list (str * json)) (file_path : string) : io unit :=
  fun st =>
    let content :=
      match read_json file_path st with
      | (Ok content, _) => Ok content
      | (Raise FileNotFoundError, _) => Ok (JDict [])
      | (Raise e, _) => Raise e
      end in
    match content with
    | Ok (JDict d) => write_json (JDict (Json.dict_update d new_content)) file_path st
    | Ok _ => (Raise AttributeError, st)
    | Raise e => (Raise e, st)
    end.

Module ContextLockFile.

Definition set_context (context_id : str) : io unit :=
  update_json [(lit "context_id", JStr context_id)] LOCK_FILE_PATH.

Definition get_context : io json :=
  fun st =>
    if path_exists LOCK_FILE_PATH st
    then (doc <- read_json LOCK_FILE_PATH ;;
          lift (py_get doc (lit "context_id"))) st
    else (Ok JNull, st).

End ContextLockFile.

Module InfoFile.

Definition NOT_CONFIGURED : str :=
  lit "Your project is not yet configured, please configure it via `dbx configure`".

Definition _create_dir : io unit :=
  fun st =>
    if negb (path_exists DBX_PATH st)
    then (dbx_echo (lit "dbx directory is not present, creating it") ;;
          mkdir DBX_PATH) st
    else (Ok tt, st).

Definition _create_lock_file : io unit :=
  fun st =>
    if negb (path_exists LOCK_FILE_PATH st)
    then write_text LOCK_FILE_PATH (lit "{}") st
    else (Ok tt, st).

Definition initialize : io unit :=
  _create_dir ;;
  _create_lock_file ;;
  let init_content := JDict [(lit "environments", JDict [])] in
  write_json init_content INFO_FILE_PATH.

Definition update (content : list (str * json)) : io unit :=
  update_json content INFO_FILE_PATH.

Definition get (item : str) : io json :=
  fun st =>
    if negb (path_exists INFO_FILE_PATH st)
    then (Raise (Exception NOT_CONFIGURED), st)
    else (doc <- read_json INFO_FILE_PATH ;;
          lift (py_get doc item)) st.

End InfoFile.

(** ** Deployment configuration readers *)

(** [if env_val == "" and default_val: env_val = default_val[1:]], on the
    value found in the environment and the text of the second group (empty
    when the group took no part). *)
Definition pick_value (env_val default_val : str) : str :=
  match env_val, default_val with
  | [], _ :: _ => drop 1 default_val
  | _, _ => env_val
  end.

Module YamlDeploymentConfig.

(** [.*?\$\{([^}{:]+)(:[^}^{]+)?\}.*?] *)
Definition PATTERN : Re.re :=
  Re.Cat (Re.StarLazy Re.Dot) (Re.Cat TOKEN (Re.StarLazy Re.Dot)).

Definition YAML_TAG : str := lit "!ENV".

(** The constructor registered for the tag, applied to the text of a
    scalar node ([loader.construct_scalar(node)]). The loader itself, the
    YAML library, is not part of the sources and is not modelled. *)
Definition resolve_env_vars (env : environ) (value : str) : str :=
  let match_ := Re.findall2 PATTERN value in
  fold_left
    (fun full_value var =>
       let '(env_var_name, default_val) := var in
       let env_val := pick_value (environ_get env env_var_name) default_val in
       let val_to_replace := env_var_name ++ default_val in
       replace (lit "${" ++ val_to_replace ++ lit "}") env_val full_value)
    match_ value.

End YamlDeploymentConfig.

Module JsonDeploymentConfig.

(** [\$\{([^}{:]+)(:[^}^{]+)?\}] *)
Definition PATTERN : Re.re := TOKEN.

(** [text[1:-1]]. *)
Definition strip_ends (text : str) : str := removelast (drop 1 text).

Definition _env_resolver (env : environ) (match_ : Re.captures) : str :=
  let env_var_name := default [] (Re.group 1 match_) in
  let default_val := default [] (Re.group 2 match_) in
  let env_val := pick_value (environ_get env env_var_name) default_val in
  strip_ends (Json.dumps (JStr env_val)).

Definition resolve_env_vars (env : environ) (json_obj : json) : result json :=
  let json_str := Json.dumps json_obj in
  match Json.loads (Re.sub PATTERN (_env_resolver env) json_str) with
  | Some doc => Ok doc
  | None => Raise JSONDecodeError
  end.

Definition get_environment (env : environ) (_path : string)
    (environment : str) : io json :=
  doc <- read_json _path ;;
  resolved <- lift (resolve_env_vars env doc) ;;
  lift (py_get resolved environment).

Definition get_all_environment_names (env : environ) (_path : string)
    : io (list str) :=
  doc <- read_json _path ;;
  resolved <- lift (resolve_env_vars env doc) ;;
  lift (py_keys resolved).

End JsonDeploymentConfig.

(** The two readers behind [AbstractDeploymentConfig]. *)
Inductive deployment_config : Type :=
| JsonConfig (_path : string)
| YamlConfig (_path : string).

Fixpoint before_dot (s : str) : str :=
  match s with
  | [] => []
  | c :: s' => if Ascii.eqb c "." then [] else c :: before_dot s'
  end.

(** [path.split(".").pop()]. *)
Definition extension (path : string) : string :=
  string_of_list_ascii (rev (before_dot (rev (list_ascii_of_string path)))).

Definition get_deployment_config (path : string) : result deployment_config :=
  let ext := extension path in
  if String.eqb ext "json" then Ok (JsonConfig path)
  else if String.eqb ext "yml" || String.eqb ext "yaml" then Ok (YamlConfig path)
  else Raise (Exception (lit "Undefined config file handler for extension: "
                         ++ list_ascii_of_string ext)).


(** ** Helpers of the command line *)

(** A cluster as [list_clusters] reports it: the two keys the code reads. *)
Record cluster := Cluster {
  cluster_name : str;
  cluster_id : str
}.

(** What these helpers raise. The messages of the two [NameError]s about
    cluster names are built from the parts kept here. *)
Inductive cli_error : Type :=
| IndexError
| RuntimeError (message : str)
| NameError (message : str)
| NoClusterNamed (name : str) (available : list str)            (* NameError *)
| SeveralClustersNamed (name : str) (matching : list cluster).  (* NameError *)

Inductive outcome (A : Type) : Type :=
| Returns (a : A)
| Raises (e : cli_error).
Arguments Returns {A} a.
Arguments Raises {A} e.

(** [s.split(sep)] for a separator of one character: the pieces between
    the separators, at least one. *)
Fixpoint split_char (sep : ascii) (s : str) : list str :=
  match s with
  | [] => [[]]
  | c :: s' =>
      if Ascii.eqb c sep then [] :: split_char sep s'
      else
        match split_char sep s' with
        | piece :: pieces => (c :: piece) :: pieces
        | [] => [[c]]
        end
  end.

(** [d[k] = v] and [d.get(k)] on a dict of strings. *)
Fixpoint tag_set (k v : str) (d : list (str * str)) : list (str * str) :=
  match d with
  | [] => [(k, v)]
  | (k', v') :: d' =>
      if decide (k = k') then (k, v) :: d' else (k', v') :: tag_set k v d'
  end.

Fixpoint tag_lookup (k : str) (d : list (str * str)) : option str :=
  match d with
  | [] => None
  | (k', v) :: d' => if decide (k = k') then Some v else tag_lookup k d'
  end.

(** [{t[0]: t[1] for t in tags_splitted}], from the dict built so far. *)
Fixpoint tags_dict (tags_splitted : list (list str)) (acc : list (str * str))
    : outcome (list (str * str)) :=
  match tags_splitted with
  | [] => Returns acc
  | t :: rest =>
      match t with
      | t0 :: t1 :: _ => tags_dict rest (tag_set t0 t1 acc)
      | _ => Raises IndexError
      end
  end.

Definition parse_multiple (multiple_argument : list str) : outcome (list (str * str)) :=
  let tags_splitted := map (split_char "=") multiple_argument in
  tags_dict tags_splitted [].

(** [bool(v)] for a value of a document. *)
Definition truthy (v : json) : bool :=
  match v with
  | JNull => false
  | JBool b => b
  | JInt z => negb (Z.eqb z 0)
  | JStr [] => false
  | JStr (_ :: _) => true
  | JList [] => false
  | JList (_ :: _) => true
  | JDict [] => false
  | JDict (_ :: _) => true
  end.

Definition get_environment_data (environment : str) : io json :=
  environments <- InfoFile.get (lit "environments") ;;
  environment_data <- lift (py_get environments environment) ;;
  if truthy environment_data then ret environment_data
  else raise (Exception (lit "No environment " ++ environment
                         ++ lit " provided in the project file")).

(** What [git.Repo(".", search_parent_directories=True)] finds. *)
Inductive git_repo : Type :=
| InvalidGitRepository
| DetachedHead
| ActiveBranch (name : str).

Definition get_current_branch_name (env : environ) (repo : git_repo) : option str :=
  match env (lit "GITHUB_REF") with
  | Some github_ref =>
      let ref := split_char "/" github_ref in
      Some (List.last ref [])
  | None =>
      match repo with
      | InvalidGitRepository => None
      | DetachedHead => None
      | ActiveBranch name => Some name
      end
  end.

(** [bool(x)] for an [Optional[str]]. *)
Definition is_set (x : option str) : bool :=
  match x with
  | Some (_ :: _) => true
  | _ => false
  end.

Definition generate_filter_string (env : str) (os_environ : environ) (repo : git_repo)
    : str :=
  let general_filters :=
    [lit "tags.dbx_environment = '" ++ env ++ lit "'";
     lit "tags.dbx_status = 'SUCCESS'";
     lit "tags.dbx_action_type = 'deploy'"] in
  let branch_name := get_current_branch_name os_environ repo in
  let all_filters :=
    if is_set branch_name
    then general_filters
         ++ [lit "tags.dbx_branch_name = '" ++ default [] branch_name ++ lit "'"]
    else general_filters in
  Json.join (lit " and ") all_filters.

(** [sorted(l, key=key)]: a stable sort, an element goes before the first
    one whose key is not smaller. *)
Fixpoint insert_sorted {A} (key : A -> Z) (x : A) (l : list A) : list A :=
  match l with
  | [] => [x]
  | y :: l' => if (key y <? key x)%Z then y :: insert_sorted key x l' else x :: y :: l'
  end.

Definition sorted {A} (key : A -> Z) (l : list A) : list A :=
  foldr (insert_sorted key) [] l.

(** [get_package_file], on the paths that [pathlib.Path("dist").glob("*.whl")]
    yields and the modification times [os.path.getmtime] gives them (as
    integers). *)
Definition get_package_file (glob : list str) (getmtime : str -> Z) : io (option str) :=
  dbx_echo (lit "Locating package file") ;;
  let file_locator := glob in
  let sorted_locator := sorted getmtime file_locator in
  match sorted_locator with
  | _ :: _ =>
      let file_path := List.last sorted_locator [] in
      dbx_echo (lit "Package file located in: " ++ file_path) ;;
      ret (Some file_path)
  | [] =>
      dbx_echo (lit "Package file was not found") ;;
      ret None
  end.

(** The cluster service of the API client. *)
Record cluster_service := ClusterService {
  list_clusters : list cluster;        (* list_clusters().get("clusters") *)
  get_cluster : str -> json            (* get_cluster(cluster_id) *)
}.

Definition _preprocess_cluster_args (service : cluster_service)
    (name id : option str) : outcome str :=
  if negb (is_set name) && negb (is_set id) then
    Raises (RuntimeError
      (lit "Parameters --cluster-name and --cluster-id couldn't be empty at the same time."))
  else
    match name with
    | Some (c :: n) =>
        let existing_clusters :=
          List.filter (fun c => negb (starts_with (lit "job-") (cluster_name c)))
                 (list_clusters service) in
        let matching_clusters :=
          List.filter (fun cl => bool_decide (cluster_name cl = c :: n)) existing_clusters in
        match matching_clusters with
        | [] => Raises (NoClusterNamed (c :: n) (map cluster_name existing_clusters))
        | [found] => Returns (cluster_id found)
        | _ :: _ :: _ =>
            Raises (SeveralClustersNamed (c :: n) matching_clusters)
        end
    | _ =>
        let id_text := default [] id in
        if truthy (get_cluster service id_text) then Returns id_text
        else Raises (NameError (lit "Cluster with id " ++ id_text ++ lit " not found"))
    end.

(** ** Notions used in the statements and in the proofs *)

Import Json.

Definition name_char (c : ascii) : bool := negb (Re.ascii_in c ["}"; "{"; ":"]%char).

Definition default_char (c : ascii) : bool := negb (Re.ascii_in c ["}"; "^"; "{"]%char).

(** The longest prefix of characters satisfying [f], and the rest. *)
Fixpoint span (f : ascii -> bool) (s : str) : str * str :=
  match s with
  | [] => ([], [])
  | a :: s' => if f a then let (p, rest) := span f s' in (a :: p, rest) else ([], s)
  end.

(** The token at the head of a text, read from left to right without
    backtracking: the name, the text of the second group (empty when there
    is no default) and what follows the token. *)
Definition token_at (s : str) : option (str * str * str) :=
  match s with
  | a :: b :: s1 =>
      if Ascii.eqb a "$" && Ascii.eqb b "{" then
        match span name_char s1 with
        | ([], _) => None
        | (_, []) => None
        | (name, c :: s2) =>
            if Ascii.eqb c "}" then Some (name, [], s2)
            else if Ascii.eqb c ":" then
              match span default_char s2 with
              | ([], _) => None
              | (_, []) => None
              | (d, c' :: rest) =>
                  if Ascii.eqb c' "}" then Some (name, ":"%char :: d, rest) else None
              end
            else None
        end
      else None
  | _ => None
  end.

Definition token_captures (name dflt : str) : Re.captures :=
  match dflt with
  | [] => [(1, name)]
  | _ :: _ => [(2, dflt); (1, name)]
  end.

Definition token_text (name dflt : str) : str :=
  lit "${" ++ name ++ dflt ++ lit "}".

(** The second group is either absent or a colon and a non-empty default. *)
Definition default_group (dflt : str) : Prop :=
  dflt = [] \/ exists d, dflt = ":"%char :: d /\ d <> [] /\ forallb default_char d = true.

(** The first token found from the head of a text without passing a
    newline. *)
Fixpoint first_on_line (s : str) : option (str * str * str) :=
  match token_at s with
  | Some found => Some found
  | None =>
      match s with
      | [] => None
      | a :: s' => if Re.cset_mem Re.Dot a then first_on_line s' else None
      end
  end.

(** Whether a pattern, used as the readers use it, takes the whole of [t]
    for one token. *)
Definition recognizes (pattern : Re.re) (t : str) : bool :=
  match Re.findall2 pattern t with
  | [(name, dflt)] => bool_decide (token_text name dflt = t)
  | _ => false
  end.

(** A token [${NAME}] or [${NAME:default}] with a non-empty name free of
    braces and colons and a non-empty default of characters allowed by
    [default_ok]. *)
Definition token_shape (default_ok : ascii -> bool) (t : str) : Prop :=
  exists name, name <> [] /\ forallb name_char name = true /\
    (t = lit "${" ++ name ++ lit "}"
     \/ exists d, d <> [] /\ forallb default_ok d = true
                  /\ t = lit "${" ++ name ++ lit ":" ++ d ++ lit "}").

(** The default as the specification words it: neither brace. *)
Definition spec_default_char (c : ascii) : bool :=
  negb (Re.ascii_in c ["{"; "}"]%char).

(** A text without the character that starts a token. *)
Definition no_dollar (s : str) : Prop := Forall (fun c => c <> "$"%char) s.

(** A document none of whose strings and keys has a dollar sign. *)
Fixpoint dollar_free (j : json) : bool :=
  match j with
  | JStr s => forallb (fun c => negb (Ascii.eqb c "$")) s
  | JList items => forallb dollar_free items
  | JDict entries =>
      forallb (fun kv => match kv with
                         | (k, v) => forallb (fun c => negb (Ascii.eqb c "$")) k
                                     && dollar_free v
                         end) entries
  | _ => true
  end.

(** What may follow a number. *)
Definition ends_number (rest : str) : Prop :=
  match rest with
  | [] => True
  | c :: _ => digit_of c = None /\
              (Ascii.eqb c "." || Ascii.eqb c "e" || Ascii.eqb c "E") = false
  end.

(** A document of Python: the keys of every dict are distinct. *)
Fixpoint well_formed (j : json) : bool :=
  match j with
  | JList items => forallb well_formed items
  | JDict entries =>
      bool_decide (NoDup (map fst entries))
      && forallb (fun kv => match kv with (_, v) => well_formed v end) entries
  | _ => true
  end.

Fixpoint size (j : json) : nat :=
  match j with
  | JList items => S (list_sum (map (fun x => S (size x)) items))
  | JDict entries =>
      S (list_sum (map (fun kv => match kv with (_, v) => S (size v) end) entries))
  | _ => 1
  end.

(** The first character of an encoded value. *)
Definition value_start (c : ascii) : bool :=
  Ascii.eqb c dquote || Ascii.eqb c "{" || Ascii.eqb c "[" || Ascii.eqb c "n"
  || Ascii.eqb c "t" || Ascii.eqb c "f" || Ascii.eqb c "-"
  || match digit_of c with Some _ => true | None => false end.

Definition value_parses indent level (x : json) : Prop :=
  forall rest fuel, ends_number rest -> size x <= fuel ->
    parse_value fuel (encode indent level x ++ rest) = Some (x, rest).

Definition separator indent level : str :=
  item_separator indent ++ newline_indent indent level.

Definition encode_entry indent level (kv : str * json) : str :=
  match kv with
  | (k, v) => encode_basestring_ascii k ++ key_separator ++ encode indent level v
  end.

(** The delays slept by a retried call before its [n] next attempts. *)
Fixpoint delays (delay backoff : Z) (n : nat) : list Z :=
  match n with
  | O => []
  | S n' => delay :: delays (delay * backoff)%Z backoff n'
  end.

(** A run of [InfoFile.update] calls, one per partial mapping. *)
Fixpoint update_all (partials : list (list (str * json))) : io unit :=
  match partials with
  | [] => ret tt
  | content :: partials' => InfoFile.update content ;; update_all partials'
  end.

(** The document [update_json] starts from: the one in the file, or the
    empty dict when there is no file. *)
Definition holds_dict (p : string) (st : os_state) (d : list (str * json)) : Prop :=
  (files st !! p = None /\ d = [])
  \/ (exists text, files st !! p = Some text /\ loads text = Some (JDict d)).

(** The state [InfoFile.update] keeps: the info file can be written and
    holds the encoding of a dict with the key [environments]. *)
Definition info_invariant (st : os_state) : Prop :=
  check_writable INFO_FILE_PATH st = Ok tt
  /\ exists d, files st !! INFO_FILE_PATH = Some (dumps_indent 4 (JDict d))
               /\ well_formed (JDict d) = true
               /\ is_Some (dict_lookup (lit "environments") d).


(** A text that the encoder writes as it is. *)
Definition plain (s : str) : Prop := Json.escape s = s.

(** A deployment document with one environment and one setting. *)
Definition one_setting (environment key value : str) : json :=
  JDict [(environment, JDict [(key, JStr value)])].

(** *** Example inputs *)

Definition no_env : environ := fun _ => None.

Definition scenario_block : json :=
  JDict [(lit "workspace_dir", JStr (lit "${WS_DIR:/tmp/ws}"))].

(** The document of the specification's scenario. *)
Definition scenario_doc : json :=
  JDict [(lit "environments", JDict [(lit "default", scenario_block)])].

(** A text between double quotes. *)
Definition quoted (s : string) : str := dquote :: lit s ++ [dquote].

(** The text of the scenario's deployment file, character by character
    as the specification writes it. *)
Definition scenario_text : str :=
  lit "{" ++ quoted "environments" ++ lit ":{" ++ quoted "default" ++ lit ":{"
  ++ quoted "workspace_dir" ++ lit ":" ++ quoted "${WS_DIR:/tmp/ws}" ++ lit "}}}".

Definition scenario_json_state : os_state :=
  OsState ∅ {[ DEFAULT_DEPLOYMENT_FILE_PATH := scenario_text ]} [].

(** A service that fails twice and then answers, and one that is down. *)
Definition flaky_world : ApiV1Client.world :=
  ApiV1Client.World
    (fun n _ => if n <? 2 then Raise (HTTPError (lit "503")) else Ok (JStr (lit "ctx")))
    0 [].

Definition dead_world : ApiV1Client.world :=
  ApiV1Client.World (fun n _ => Raise (ConnectionError (lit "refused"))) 0 [].

(** A service that does not answer in time. *)
Definition slow_world : ApiV1Client.world :=
  ApiV1Client.World (fun n _ => Raise (Timeout (lit "read timed out"))) 0 [].

Definition lock_state (text : str) : os_state :=
  OsState {[ DBX_PATH ]} {[ LOCK_FILE_PATH := text ]} [].

Definition info_state (text : str) : os_state :=
  OsState {[ DBX_PATH ]} {[ INFO_FILE_PATH := text ]} [].

Definition empty_project : os_state := OsState {[ DBX_PATH ]} ∅ [].

(** The project directory as [InfoFile.initialize] leaves it when run in
    an empty working directory. *)
Definition initialized_project : os_state :=
  OsState {[ DBX_PATH ]}
    {[ LOCK_FILE_PATH := lit "{}";
       INFO_FILE_PATH := Json.dumps_indent 4 (JDict [(lit "environments", JDict [])]) ]}
    [lit "[dbx] dbx directory is not present, creating it"].

(** A tag as it is given on the command line: [key=value]. *)
Definition tag_argument (kv : str * str) : str := fst kv ++ "="%char :: snd kv.

(** A character is none of those of a literal text. *)
Ltac no_such_char :=
  repeat (apply not_elem_of_cons; split; [discriminate|]); apply not_elem_of_nil.


(** ** The decoder inverts the encoder *)

Lemma scanstring_escape_char (c : ascii) (r : str) :
  scanstring (escape_char c ++ r) =
  match scanstring r with
  | Some (x, rest) => Some (c :: x, rest)
  | None => None
  end.
Proof.
  destruct c as [[] [] [] [] [] [] [] []]; reflexivity.
Qed.

Lemma scanstring_escape (s rest : str) :
  scanstring (escape s ++ dquote :: rest) = Some (s, rest).
Proof.
  induction s as [|c s IH]; [reflexivity|].
  unfold escape in *. cbn [flat_map]. rewrite <- app_assoc.
  rewrite scanstring_escape_char, IH. reflexivity.
Qed.

Lemma scan_digits_uint (d : Decimal.uint) (rest : str) :
  ends_number rest -> scan_digits (uint_digits d ++ rest) = (d, rest).
Proof.
  intros Hrest. induction d; cbn [uint_digits app]; try (cbn; rewrite IHd; reflexivity).
  destruct rest as [|c rest]; [reflexivity|].
  cbn. destruct Hrest as [-> _]. reflexivity.
Qed.

Lemma to_uint_head (p : positive) :
  match Pos.to_uint p with
  | Decimal.Nil | Decimal.D0 _ => False
  | _ => True
  end.
Proof.
  pose proof (DecimalPos.Unsigned.of_to p) as Hof.
  pose proof (DecimalPos.Unsigned.to_of (Pos.to_uint p)) as Hto.
  rewrite Hof in Hto. cbn [N.to_uint] in Hto.
  destruct (Pos.to_uint p) as [|d| | | | | | | | | ] eqn:E; try exact I.
  - discriminate Hof.
  - unfold Decimal.unorm in Hto. cbn [Decimal.nzhead] in Hto.
    destruct (Decimal.nzhead d) eqn:En; try discriminate Hto.
    + injection Hto as Hd. subst d. discriminate Hof.
    + exact (nzhead_nonzero _ _ En).
Qed.

Lemma scan_number_pos (p : positive) (rest : str) :
  ends_number rest ->
  exists c t, uint_digits (Pos.to_uint p) = c :: t /\
    digit_of c <> None /\ Ascii.eqb c "0" = false /\
    scan_digits (c :: t ++ rest) = (Pos.to_uint p, rest).
Proof.
  intros Hrest. pose proof (to_uint_head p) as Hh.
  pose proof (scan_digits_uint (Pos.to_uint p) rest Hrest) as Hs.
  destruct (Pos.to_uint p); try contradiction;
    cbn [uint_digits] in *; eexists _, _; (split; [reflexivity|]);
    (split; [discriminate|]); (split; [reflexivity|]); exact Hs.
Qed.

Lemma scan_number_tail (neg : bool) (n : Z) (rest : str) :
  ends_number rest ->
  match rest with
  | c' :: _ =>
      if Ascii.eqb c' "." || Ascii.eqb c' "e" || Ascii.eqb c' "E" then None
      else Some (JInt n, rest)
  | [] => Some (JInt n, rest)
  end = Some (JInt n, rest).
Proof.
  destruct rest as [|c rest]; [reflexivity|]. intros [_ ->]. reflexivity.
Qed.

Lemma scan_number_repr (z : Z) (rest : str) :
  ends_number rest -> scan_number (int_repr z ++ rest) = Some (JInt z, rest).
Proof.
  intros Hrest. destruct z as [|p|p].
  - cbn. apply (scan_number_tail false 0 rest Hrest).
  - destruct (scan_number_pos p rest Hrest) as (c & t & Hd & Hc & H0 & Hs).
    unfold int_repr. cbn [Z.to_N N.to_uint]. rewrite Hd. cbn [app].
    unfold scan_number.
    assert (Ascii.eqb c "-" = false) as ->.
    { destruct c as [[] [] [] [] [] [] [] []]; try reflexivity. exfalso. apply Hc. reflexivity. }
    destruct (digit_of c); [|congruence].
    rewrite H0, Hs.
    rewrite (DecimalPos.Unsigned.of_to p : N.of_uint (Pos.to_uint p) = Npos p).
    apply (scan_number_tail false (Z.pos p) rest Hrest).
  - destruct (scan_number_pos p rest Hrest) as (c & t & Hd & Hc & H0 & Hs).
    unfold int_repr. rewrite Hd. cbn [app].
    unfold scan_number. cbn [Ascii.eqb Bool.eqb].
    destruct (digit_of c); [|congruence].
    rewrite H0, Hs.
    rewrite (DecimalPos.Unsigned.of_to p : N.of_uint (Pos.to_uint p) = Npos p).
    apply (scan_number_tail true (Z.neg p) rest Hrest).
Qed.

Lemma json_ind' (P : json -> Prop) :
  P JNull -> (forall b, P (JBool b)) -> (forall z, P (JInt z)) ->
  (forall s, P (JStr s)) ->
  (forall items, Forall P items -> P (JList items)) ->
  (forall entries, Forall (fun kv => P (snd kv)) entries -> P (JDict entries)) ->
  forall j, P j.
Proof.
  intros Hnull Hbool Hint Hstr Hlist Hdict.
  fix IH 1. intros [| b | z | s | items | entries].
  - exact Hnull.
  - apply Hbool.
  - apply Hint.
  - apply Hstr.
  - apply Hlist. induction items as [|x items IHl]; constructor; [apply IH | exact IHl].
  - apply Hdict. induction entries as [|[k v] entries IHl]; constructor;
      [apply IH | exact IHl].
Qed.

Lemma uint_digits_head (d : Decimal.uint) :
  d <> Decimal.Nil -> exists c t, uint_digits d = c :: t /\ value_start c = true.
Proof.
  destruct d; try congruence; intros _; cbn [uint_digits]; eexists _, _; split; reflexivity.
Qed.

Lemma encode_head indent level (j : json) :
  exists c t, encode indent level j = c :: t /\ value_start c = true.
Proof.
  destruct j as [| [] | z | s | [|x items] | [|[k v] entries]];
    try (cbn; eexists _, _; split; reflexivity).
  destruct z as [|p|p].
  - cbn. eexists _, _; split; reflexivity.
  - unfold encode, int_repr. cbn [Z.to_N N.to_uint].
    apply uint_digits_head. pose proof (to_uint_head p). destruct (Pos.to_uint p); congruence.
  - cbn. eexists _, _; split; reflexivity.
Qed.

Lemma value_start_facts (c : ascii) :
  value_start c = true ->
  is_ws c = false /\ Ascii.eqb c "]" = false /\ Ascii.eqb c "}" = false
  /\ Ascii.eqb c "," = false.
Proof.
  destruct c as [[] [] [] [] [] [] [] []]; cbn; intros H; try discriminate H; repeat split.
Qed.

Lemma skip_ws_start (c : ascii) (s : str) :
  is_ws c = false -> skip_ws (c :: s) = c :: s.
Proof. intros H. cbn. rewrite H. reflexivity. Qed.

Lemma skip_ws_spaces (n : nat) (s : str) :
  skip_ws (repeat " "%char n ++ s) = skip_ws s.
Proof. induction n; [reflexivity|]. cbn. exact IHn. Qed.

Lemma skip_ws_newline_indent indent level (s : str) :
  skip_ws (newline_indent indent level ++ s) = skip_ws s.
Proof.
  destruct indent as [n|]; [|reflexivity].
  cbn. apply skip_ws_spaces.
Qed.

Lemma skip_ws_item_separator indent level (c : ascii) (s : str) :
  is_ws c = false ->
  exists s', (item_separator indent ++ newline_indent indent level) ++ c :: s = ","%char :: s'
             /\ skip_ws s' = c :: s.
Proof.
  intros Hc. destruct indent as [n|].
  - eexists. split; [reflexivity|].
    rewrite (skip_ws_newline_indent (Some n) level). apply skip_ws_start, Hc.
  - eexists. split; [reflexivity|]. cbn. rewrite Hc. reflexivity.
Qed.

Lemma ends_number_newline_indent indent level (c : ascii) (s : str) :
  ends_number [c] -> ends_number (newline_indent indent level ++ c :: s).
Proof. destruct indent; cbn; auto. Qed.

Lemma parse_value_number (fuel : nat) (c : ascii) (s : str) :
  (Ascii.eqb c "-" || match digit_of c with Some _ => true | None => false end) = true ->
  parse_value (S fuel) (c :: s) = scan_number (c :: s).
Proof.
  destruct c as [[] [] [] [] [] [] [] []]; cbn; intros H; try discriminate H; reflexivity.
Qed.

Lemma int_repr_head (z : Z) :
  exists c t, int_repr z = c :: t /\
    (Ascii.eqb c "-" || match digit_of c with Some _ => true | None => false end) = true.
Proof.
  destruct z as [|p|p].
  - eexists _, _; split; reflexivity.
  - unfold int_repr. cbn [Z.to_N N.to_uint]. pose proof (to_uint_head p).
    destruct (Pos.to_uint p); try contradiction; eexists _, _; split; reflexivity.
  - eexists _, _; split; reflexivity.
Qed.

Lemma separator_head indent level (s : str) :
  exists s', separator indent level ++ s = ","%char :: s' /\ skip_ws s' = skip_ws s.
Proof.
  unfold separator. destruct indent as [n|].
  - eexists. split; [reflexivity|]. apply (skip_ws_newline_indent (Some n)).
  - eexists. split; reflexivity.
Qed.

Lemma join_head indent level sep (x : json) (items : list json) (s : str) :
  exists c t, join sep (map (encode indent level) (x :: items)) ++ s = c :: t
              /\ value_start c = true.
Proof.
  destruct (encode_head indent level x) as (c & t & Hx & Hc).
  cbn [map join]. rewrite Hx. destruct (map _ items); eexists _, _; split; eauto; reflexivity.
Qed.

Lemma parse_elements_join indent level (items : list json) :
  Forall (value_parses indent level) items -> items <> [] ->
  forall lvl0 rest0 fuel,
    list_sum (map (fun x => S (size x)) items) <= fuel ->
    parse_elements fuel
      (join (separator indent level) (map (encode indent level) items)
       ++ newline_indent indent lvl0 ++ "]"%char :: rest0)
    = Some (items, rest0).
Proof.
  induction 1 as [|x items Hx Hitems IH]; [congruence|]. intros _ lvl0 rest0 fuel Hfuel.
  change (S (size x) + list_sum (map (fun x => S (size x)) items) <= fuel) in Hfuel.
  destruct fuel as [|fuel]; [lia|]. cbn [parse_elements].
  destruct items as [|y items].
  - cbn [map join].
    rewrite (Hx (newline_indent indent lvl0 ++ "]"%char :: rest0) fuel);
      [|apply ends_number_newline_indent; cbn; auto | lia].
    rewrite skip_ws_newline_indent. reflexivity.
  - change (join (separator indent level) (map (encode indent level) (x :: y :: items)))
      with (encode indent level x ++ separator indent level
            ++ join (separator indent level) (map (encode indent level) (y :: items))).
    rewrite <- !app_assoc.
    destruct (separator_head indent level
                (join (separator indent level) (map (encode indent level) (y :: items))
                 ++ newline_indent indent lvl0 ++ "]"%char :: rest0)) as (s' & Hs' & Hskip).
    rewrite Hs'.
    rewrite (Hx _ fuel); [|cbn; auto | lia].
    cbn [skip_ws is_ws Ascii.eqb Bool.eqb orb].
    rewrite Hskip.
    destruct (join_head indent level (separator indent level) y items
                (newline_indent indent lvl0 ++ "]"%char :: rest0)) as (c & t & Hj & Hc).
    rewrite Hj. rewrite skip_ws_start by (apply value_start_facts, Hc). rewrite <- Hj.
    rewrite IH; [reflexivity | congruence | lia].
Qed.

Lemma join_entries_head indent level sep (kv : str * json) (entries : list (str * json)) (s : str) :
  exists t, join sep (map (encode_entry indent level) (kv :: entries)) ++ s = dquote :: t.
Proof.
  destruct kv as [k v]. cbn [map join encode_entry encode_basestring_ascii].
  destruct (map _ entries); eexists; reflexivity.
Qed.

Lemma parse_members_join indent level (entries : list (str * json)) :
  Forall (fun kv => value_parses indent level (snd kv)) entries -> entries <> [] ->
  forall lvl0 rest0 fuel,
    list_sum (map (fun kv => match kv with (_, v) => S (size v) end) entries) <= fuel ->
    parse_members fuel
      (join (separator indent level) (map (encode_entry indent level) entries)
       ++ newline_indent indent lvl0 ++ "}"%char :: rest0)
    = Some (entries, rest0).
Proof.
  induction 1 as [|[k v] entries Hv Hentries IH]; [congruence|].
  intros _ lvl0 rest0 fuel Hfuel.
  change (S (size v) + list_sum (map (fun kv => match kv with (_, v) => S (size v) end) entries)
          <= fuel) in Hfuel.
  cbn [snd] in Hv.
  destruct fuel as [|fuel]; [lia|].
  destruct (encode_head indent level v) as (cv & tv & Hev & Hcv).
  assert (forall tail, ends_number tail ->
    parse_members (S fuel) (encode_entry indent level (k, v) ++ tail) =
    match skip_ws tail with
    | [] => None
    | c' :: s5 =>
        if Ascii.eqb c' "}" then Some ([(k, v)], s5)
        else if Ascii.eqb c' "," then
          match parse_members fuel (skip_ws s5) with
          | Some (kvs, rest) => Some ((k, v) :: kvs, rest)
          | None => None
          end
        else None
    end) as Hentry.
  { intros tail Htail. cbn [parse_members encode_entry encode_basestring_ascii app].
    rewrite Ascii.eqb_refl. rewrite <- !app_assoc. cbn [app].
    rewrite scanstring_escape.
    cbn [key_separator lit list_ascii_of_string app skip_ws is_ws Ascii.eqb Bool.eqb orb].
    rewrite Hev. cbn [app]. rewrite skip_ws_start by (apply value_start_facts, Hcv).
    change (cv :: tv ++ tail) with ((cv :: tv) ++ tail). rewrite <- Hev.
    rewrite (Hv tail fuel) by (auto; lia). reflexivity. }
  destruct entries as [|kv entries].
  - cbn [map join]. rewrite Hentry.
    + rewrite skip_ws_newline_indent. reflexivity.
    + apply ends_number_newline_indent; cbn; auto.
  - change (join (separator indent level) (map (encode_entry indent level) ((k, v) :: kv :: entries)))
      with (encode_entry indent level (k, v) ++ separator indent level
            ++ join (separator indent level) (map (encode_entry indent level) (kv :: entries))).
    rewrite <- !app_assoc.
    destruct (separator_head indent level
                (join (separator indent level) (map (encode_entry indent level) (kv :: entries))
                 ++ newline_indent indent lvl0 ++ "}"%char :: rest0)) as (s' & Hs' & Hskip).
    rewrite Hs'. rewrite Hentry by (cbn; auto).
    cbn [skip_ws is_ws Ascii.eqb Bool.eqb orb].
    rewrite Hskip.
    destruct (join_entries_head indent level (separator indent level) kv entries
                (newline_indent indent lvl0 ++ "}"%char :: rest0)) as (t & Hj).
    rewrite Hj. rewrite skip_ws_start by reflexivity. rewrite <- Hj.
    rewrite IH; [reflexivity | congruence | lia].
Qed.

Lemma dict_set_fresh (k : str) (v : json) (d : list (str * json)) :
  k ∉ map fst d -> dict_set k v d = d ++ [(k, v)].
Proof.
  induction d as [|[k' v'] d IH]; [reflexivity|]. cbn [map fst dict_set app].
  intros Hk. rewrite not_elem_of_cons in Hk. destruct Hk as [Hne Hk].
  destruct (decide (k = k')); [contradiction|]. rewrite IH by exact Hk. reflexivity.
Qed.

Lemma dict_update_fresh (d other : list (str * json)) :
  NoDup (map fst (d ++ other)) -> dict_update d other = d ++ other.
Proof.
  revert d. induction other as [|[k v] other IH]; intros d Hnd.
  - cbn. rewrite app_nil_r. reflexivity.
  - unfold dict_update in *. cbn [fold_left fst snd].
    rewrite dict_set_fresh.
    + rewrite IH; rewrite <- app_assoc; [reflexivity | exact Hnd].
    + rewrite map_app in Hnd. cbn [map fst] in Hnd.
      apply NoDup_app in Hnd. destruct Hnd as (_ & Hdisj & _).
      intros Hin. apply (Hdisj k Hin). left.
Qed.

Lemma dict_of_pairs_nodup (d : list (str * json)) :
  NoDup (map fst d) -> dict_of_pairs d = d.
Proof. intros H. unfold dict_of_pairs. apply (dict_update_fresh [] d H). Qed.

Lemma well_formed_list (items : list json) :
  well_formed (JList items) = true -> Forall (fun x => well_formed x = true) items.
Proof.
  cbn [well_formed]. intros H. apply Forall_forall. intros x Hx.
  rewrite forallb_forall in H. apply H, list_elem_of_In, Hx.
Qed.

Lemma well_formed_dict (entries : list (str * json)) :
  well_formed (JDict entries) = true ->
  NoDup (map fst entries) /\ Forall (fun kv => well_formed (snd kv) = true) entries.
Proof.
  cbn [well_formed]. intros H. apply andb_prop in H. destruct H as [Hnd Hall]. split.
  - apply bool_decide_eq_true in Hnd. exact Hnd.
  - apply Forall_forall. intros [k v] Hkv. rewrite forallb_forall in Hall.
    apply (Hall (k, v)), list_elem_of_In, Hkv.
Qed.

Lemma parse_encode indent (j : json) :
  well_formed j = true -> forall level, value_parses indent level j.
Proof.
  induction j as [| b | z | s | items IH | entries IH] using json_ind';
    intros Hwf level rest fuel Hrest Hfuel;
    (destruct fuel as [|fuel]; [cbn in Hfuel; lia|]).
  - reflexivity.
  - destruct b; reflexivity.
  - destruct (int_repr_head z) as (c & t & Hz & Hc).
    cbn [encode]. rewrite Hz. cbn [app]. rewrite parse_value_number by exact Hc.
    change (c :: t ++ rest) with ((c :: t) ++ rest). rewrite <- Hz.
    apply scan_number_repr, Hrest.
  - cbn [encode encode_basestring_ascii app parse_value]. rewrite Ascii.eqb_refl.
    rewrite <- app_assoc. cbn [app]. rewrite scanstring_escape. reflexivity.
  - destruct items as [|x items]; [reflexivity|].
    pose proof (well_formed_list _ Hwf) as Hall.
    assert (Forall (value_parses indent (S level)) (x :: items)) as Hparse.
    { apply Forall_forall. intros y Hy. rewrite Forall_forall in IH, Hall.
      apply IH; [exact Hy | apply Hall, Hy]. }
    change (encode indent level (JList (x :: items)))
      with (lit "[" ++ newline_indent indent (S level)
            ++ join (separator indent (S level)) (map (encode indent (S level)) (x :: items))
            ++ newline_indent indent level ++ lit "]").
    cbn [lit list_ascii_of_string app parse_value Ascii.eqb Bool.eqb].
    rewrite <- !app_assoc. rewrite skip_ws_newline_indent.
    destruct (join_head indent (S level) (separator indent (S level)) x items
                (newline_indent indent level ++ ["]"%char] ++ rest)) as (c & t & Hj & Hc).
    rewrite Hj. rewrite skip_ws_start by (apply value_start_facts, Hc).
    destruct (value_start_facts c Hc) as (_ & -> & _). rewrite <- Hj.
    cbn [app]. rewrite (parse_elements_join indent (S level) (x :: items) Hparse);
      [reflexivity | congruence | ].
    change (size (JList (x :: items)))
      with (S (list_sum (map (fun x => S (size x)) (x :: items)))) in Hfuel. lia.
  - destruct entries as [|kv entries]; [reflexivity|].
    destruct (well_formed_dict _ Hwf) as [Hnd Hall].
    assert (Forall (fun kv => value_parses indent (S level) (snd kv)) (kv :: entries)) as Hparse.
    { apply Forall_forall. intros y Hy. rewrite Forall_forall in IH, Hall.
      apply IH; [exact Hy | apply Hall, Hy]. }
    change (encode indent level (JDict (kv :: entries)))
      with (lit "{" ++ newline_indent indent (S level)
            ++ join (separator indent (S level)) (map (encode_entry indent (S level)) (kv :: entries))
            ++ newline_indent indent level ++ lit "}").
    cbn [lit list_ascii_of_string app parse_value Ascii.eqb Bool.eqb].
    rewrite <- !app_assoc. rewrite skip_ws_newline_indent.
    destruct (join_entries_head indent (S level) (separator indent (S level)) kv entries
                (newline_indent indent level ++ ["}"%char] ++ rest)) as (t & Hj).
    rewrite Hj. rewrite skip_ws_start by reflexivity.
    change (Ascii.eqb dquote "}") with false. cbv iota. rewrite <- Hj.
    cbn [app]. rewrite (parse_members_join indent (S level) (kv :: entries) Hparse);
      [rewrite dict_of_pairs_nodup by exact Hnd; reflexivity | congruence | ].
    change (size (JDict (kv :: entries)))
      with (S (list_sum (map (fun kv => match kv with (_, v) => S (size v) end) (kv :: entries))))
      in Hfuel. lia.
Qed.

Lemma separator_length indent level : 1 <= length (separator indent level).
Proof. unfold separator. rewrite length_app. destruct indent; cbn; lia. Qed.

Lemma join_length {A} (f : A -> str) (g : A -> nat) (sep : str) (l : list A) :
  1 <= length sep -> Forall (fun x => g x <= length (f x)) l ->
  list_sum (map (fun x => S (g x)) l) <= S (length (join sep (map f l))).
Proof.
  intros Hsep. induction 1 as [|x l Hx Hl IH]; [cbn; lia|].
  change (S (g x) + list_sum (map (fun x => S (g x)) l)
          <= S (length (join sep (map f (x :: l))))).
  destruct l as [|y l].
  - cbn. lia.
  - change (join sep (map f (x :: y :: l))) with (f x ++ sep ++ join sep (map f (y :: l))).
    rewrite !length_app. lia.
Qed.

Lemma size_le_length indent (j : json) :
  forall level, size j <= length (encode indent level j).
Proof.
  induction j as [| b | z | s | items IH | entries IH] using json_ind'; intros level.
  - cbn. lia.
  - destruct b; cbn; lia.
  - destruct (int_repr_head z) as (c & t & Hz & _). cbn [encode size]. rewrite Hz. cbn. lia.
  - cbn. lia.
  - destruct items as [|x items]; [cbn; lia|].
    change (encode indent level (JList (x :: items)))
      with (lit "[" ++ newline_indent indent (S level)
            ++ join (separator indent (S level)) (map (encode indent (S level)) (x :: items))
            ++ newline_indent indent level ++ lit "]").
    change (size (JList (x :: items)))
      with (S (list_sum (map (fun x => S (size x)) (x :: items)))).
    pose proof (join_length (encode indent (S level)) size (separator indent (S level))
                  (x :: items) (separator_length _ _)) as Hlen.
    rewrite !length_app. cbn [lit list_ascii_of_string length].
    assert (Forall (fun x => size x <= length (encode indent (S level) x)) (x :: items)) as Hall.
    { eapply Forall_impl; [exact IH|]. intros y Hy. apply Hy. }
    specialize (Hlen Hall). lia.
  - destruct entries as [|kv entries]; [cbn; lia|].
    change (encode indent level (JDict (kv :: entries)))
      with (lit "{" ++ newline_indent indent (S level)
            ++ join (separator indent (S level)) (map (encode_entry indent (S level)) (kv :: entries))
            ++ newline_indent indent level ++ lit "}").
    change (size (JDict (kv :: entries)))
      with (S (list_sum (map (fun kv => match kv with (_, v) => S (size v) end)
                             (kv :: entries)))).
    rewrite (map_ext _ (fun kv => S (size (snd kv)))) by (intros [? ?]; reflexivity).
    pose proof (join_length (encode_entry indent (S level)) (fun kv => size (snd kv))
                  (separator indent (S level)) (kv :: entries) (separator_length _ _)) as Hlen.
    rewrite !length_app. cbn [lit list_ascii_of_string length].
    assert (Forall (fun kv => size (snd kv) <= length (encode_entry indent (S level) kv))
              (kv :: entries)) as Hall.
    { eapply Forall_impl; [exact IH|]. intros [k v] Hy. cbn [snd encode_entry] in *.
      rewrite !length_app. specialize (Hy (S level)). lia. }
    specialize (Hlen Hall). lia.
Qed.

(** Decoding what was encoded, with or without an indent, gives the
    document back. *)
Lemma loads_encode indent (j : json) :
  well_formed j = true -> loads (encode indent 0 j) = Some j.
Proof.
  intros Hwf. unfold loads.
  destruct (encode_head indent 0 j) as (c & t & Hj & Hc).
  rewrite Hj at 2. rewrite skip_ws_start by (apply value_start_facts, Hc). rewrite <- Hj.
  rewrite <- (app_nil_r (encode indent 0 j)) at 2.
  rewrite (parse_encode indent j Hwf 0 [] (S (length (encode indent 0 j))));
    [reflexivity | exact I | ].
  pose proof (size_le_length indent j 0). lia.
Qed.

(** ** The interpolation pattern *)

Lemma span_app (f : ascii -> bool) (s : str) :
  s = (span f s).1 ++ (span f s).2.
Proof.
  induction s as [|a s IH]; [reflexivity|]. cbn [span].
  destruct (f a); [|reflexivity]. destruct (span f s) as [p rest]. cbn in *. congruence.
Qed.

Lemma span_prefix (f : ascii -> bool) (s : str) :
  forallb f (span f s).1 = true.
Proof.
  induction s as [|a s IH]; [reflexivity|]. cbn [span].
  destruct (f a) eqn:E; [|reflexivity]. destruct (span f s) as [p rest]. cbn in *.
  rewrite E. exact IH.
Qed.

Lemma span_rest (f : ascii -> bool) (s : str) :
  match (span f s).2 with [] => True | c :: _ => f c = false end.
Proof.
  induction s as [|a s IH]; [exact I|]. cbn [span].
  destruct (f a) eqn:E; [|exact E]. destruct (span f s) as [p rest]. exact IH.
Qed.

Lemma span_all (f : ascii -> bool) (p rest : str) :
  forallb f p = true -> match rest with [] => True | c :: _ => f c = false end ->
  span f (p ++ rest) = (p, rest).
Proof.
  intros Hp Hrest. induction p as [|a p IH]; cbn [app span].
  - destruct rest as [|c rest]; [reflexivity|]. cbn. rewrite Hrest. reflexivity.
  - cbn in Hp. apply andb_prop in Hp. destruct Hp as [-> Hp]. rewrite (IH Hp). reflexivity.
Qed.

Lemma plus_greedy_span {R} (k : Re.cset) (s : str) (cont : str -> option R) :
  (forall a s', Re.cset_mem k a = true -> cont (a :: s') = None) ->
  Re.plus_greedy k s cont =
  match span (Re.cset_mem k) s with
  | ([], _) => None
  | (_ :: _, rest) => cont rest
  end.
Proof.
  intros Hcont. induction s as [|a s IH]; [reflexivity|].
  cbn [Re.plus_greedy span]. destruct (Re.cset_mem k a) eqn:Ea; [|reflexivity].
  rewrite IH. pose proof (span_app (Re.cset_mem k) s) as Happ.
  pose proof (span_prefix (Re.cset_mem k) s) as Hpre.
  destruct (span (Re.cset_mem k) s) as [[|b p] rest]; cbn [fst snd] in *.
  - subst s. cbn. reflexivity.
  - destruct (cont rest) eqn:Ec; [reflexivity|].
    subst s. cbn in Hpre. apply andb_prop in Hpre. destruct Hpre as [Hb _].
    cbn [app]. apply Hcont, Hb.
Qed.

Lemma consumed_app (x rest : str) : Re.consumed (x ++ rest) rest = x.
Proof.
  unfold Re.consumed. rewrite length_app.
  replace (length x + length rest - length rest) with (length x) by lia.
  rewrite firstn_app, firstn_all. replace (length x - length x) with 0 by lia.
  cbn. apply app_nil_r.
Qed.

Lemma match_TOKEN (s : str) :
  Re.match_ TOKEN s =
  match token_at s with
  | Some (name, dflt, rest) => Some (rest, token_captures name dflt)
  | None => None
  end.
Proof.
  unfold Re.match_, TOKEN, token_at.
  destruct s as [|a [|b s1]]; cbn [Re.run Re.cset_mem].
  - reflexivity.
  - destruct (Ascii.eqb a "$"); reflexivity.
  - destruct (Ascii.eqb a "$"); [|reflexivity]. destruct (Ascii.eqb b "{"); [|reflexivity].
    cbn [andb].
    rewrite plus_greedy_span.
    2:{ intros c s' Hc. cbn [Re.run Re.cset_mem].
        cbn in Hc. apply negb_true_iff in Hc. cbn in Hc.
        apply orb_false_elim in Hc. destruct Hc as [Hc1 Hc]. apply orb_false_elim in Hc.
        destruct Hc as [_ Hc]. apply orb_false_elim in Hc. destruct Hc as [Hc3 _].
        rewrite Hc3, Hc1. reflexivity. }
    change (Re.cset_mem (Re.NoneOf ["}"%char; "{"%char; ":"%char])) with name_char.
    pose proof (span_app name_char s1) as Happ.
    destruct (span name_char s1) as [[|n0 name] s2]; [reflexivity|].
    cbn [fst snd] in Happ.
    assert (Re.consumed s1 s2 = n0 :: name) as -> by (rewrite Happ; apply consumed_app).
    destruct s2 as [|c s2]; [reflexivity|].
    destruct (Ascii.eqb c ":") eqn:Ecolon.
    + apply Ascii.eqb_eq in Ecolon. subst c. cbn [Ascii.eqb Bool.eqb].
      rewrite plus_greedy_span.
      2:{ intros c s' Hc. cbn in Hc. apply negb_true_iff in Hc. cbn in Hc.
          apply orb_false_elim in Hc. destruct Hc as [Hc1 _]. rewrite Hc1. reflexivity. }
      change (Re.cset_mem (Re.NoneOf ["}"%char; "^"%char; "{"%char])) with default_char.
      pose proof (span_app default_char s2) as Happ2.
      destruct (span default_char s2) as [[|d0 d] s3]; [reflexivity|].
      cbn [fst snd] in Happ2.
      destruct s3 as [|c' rest]; [reflexivity|].
      destruct (Ascii.eqb c' "}"); [|reflexivity].
      replace (Re.consumed (":"%char :: s2) (c' :: rest)) with (":"%char :: d0 :: d).
      * reflexivity.
      * rewrite Happ2. symmetry. apply (consumed_app (":"%char :: d0 :: d)).
    + destruct (Ascii.eqb c "}"); reflexivity.
Qed.

Lemma token_at_sound (s name dflt rest : str) :
  token_at s = Some (name, dflt, rest) ->
  s = token_text name dflt ++ rest /\ name <> [] /\ forallb name_char name = true
  /\ default_group dflt.
Proof.
  unfold token_at, token_text. destruct s as [|a [|b s1]]; try discriminate.
  destruct (Ascii.eqb a "$") eqn:Ea; [|discriminate].
  destruct (Ascii.eqb b "{") eqn:Eb; [|discriminate]. cbn [andb].
  apply Ascii.eqb_eq in Ea, Eb. subst a b.
  pose proof (span_app name_char s1) as Happ. pose proof (span_prefix name_char s1) as Hpre.
  destruct (span name_char s1) as [[|n0 n] [|c s2]]; try discriminate. cbn [fst snd] in *.
  destruct (Ascii.eqb c "}") eqn:Ec.
  - intros [= <- <- <-]. apply Ascii.eqb_eq in Ec. subst c s1.
    split; [|split; [discriminate | split; [exact Hpre | left; reflexivity]]].
    cbn. rewrite <- !app_assoc. reflexivity.
  - destruct (Ascii.eqb c ":") eqn:Ecol; [|discriminate].
    apply Ascii.eqb_eq in Ecol. subst c.
    pose proof (span_app default_char s2) as Happ2.
    pose proof (span_prefix default_char s2) as Hpre2.
    destruct (span default_char s2) as [[|d0 d] [|c' s3]]; try discriminate. cbn [fst snd] in *.
    destruct (Ascii.eqb c' "}") eqn:Ec'; [|discriminate].
    intros [= <- <- <-]. apply Ascii.eqb_eq in Ec'. subst c' s1 s2.
    split; [|split; [discriminate | split; [exact Hpre | right]]].
    + cbn. rewrite <- !app_assoc. cbn. rewrite <- !app_assoc. reflexivity.
    + exists (d0 :: d). split; [reflexivity | split; [discriminate | exact Hpre2]].
Qed.

Lemma token_at_complete (name dflt rest : str) :
  name <> [] -> forallb name_char name = true -> default_group dflt ->
  token_at (token_text name dflt ++ rest) = Some (name, dflt, rest).
Proof.
  intros Hne Hname Hd. unfold token_text, token_at.
  cbn [lit list_ascii_of_string app Ascii.eqb Bool.eqb andb].
  destruct Hd as [-> | (d & -> & Hdne & Hd)].
  - cbn [app]. rewrite <- app_assoc. cbn [app].
    rewrite (span_all name_char name ("}"%char :: rest) Hname) by reflexivity.
    destruct name; [congruence|]. reflexivity.
  - rewrite <- !app_assoc. cbn [app].
    rewrite (span_all name_char name (":"%char :: d ++ "}"%char :: rest) Hname) by reflexivity.
    destruct name; [congruence|]. cbn [Ascii.eqb Bool.eqb].
    rewrite (span_all default_char d ("}"%char :: rest) Hd) by reflexivity.
    destruct d; [congruence|]. reflexivity.
Qed.

Lemma pieces_skip (r : Re.re) (x rest : str) :
  Re.pieces r (x ++ rest) (length x) = Re.pieces r rest 0.
Proof.
  induction x as [|a x IH]; cbn [app length Re.pieces].
  - destruct rest; reflexivity.
  - exact IH.
Qed.

Lemma pieces_TOKEN (s : str) :
  Re.pieces TOKEN s 0 =
  match token_at s with
  | Some (name, dflt, rest) =>
      Re.Hit (token_text name dflt) (token_captures name dflt) :: Re.pieces TOKEN rest 0
  | None =>
      match s with
      | [] => []
      | a :: s' => Re.Keep a :: Re.pieces TOKEN s' 0
      end
  end.
Proof.
  destruct s as [|a s'].
  - reflexivity.
  - cbn [Re.pieces]. rewrite match_TOKEN.
    destruct (token_at (a :: s')) as [[[name dflt] rest]|] eqn:Et; [|reflexivity].
    apply token_at_sound in Et. destruct Et as (Hs & _).
    rewrite Hs. rewrite consumed_app. rewrite length_app.
    replace (length (token_text name dflt) + length rest - length rest)
      with (length (token_text name dflt)) by lia.
    unfold token_text in *. cbn [lit list_ascii_of_string app length] in *.
    injection Hs as _ ->. cbn [app].
    f_equal. apply (pieces_skip TOKEN ("{"%char :: name ++ dflt ++ ["}"%char]) rest).
Qed.

Lemma group_token_captures (name dflt : str) :
  default [] (Re.group 1 (token_captures name dflt)) = name
  /\ default [] (Re.group 2 (token_captures name dflt)) = dflt.
Proof. destruct dflt; split; reflexivity. Qed.

Lemma findall2_TOKEN (s : str) :
  Re.findall2 TOKEN s =
  match token_at s with
  | Some (name, dflt, rest) => (name, dflt) :: Re.findall2 TOKEN rest
  | None =>
      match s with
      | [] => []
      | _ :: s' => Re.findall2 TOKEN s'
      end
  end.
Proof.
  unfold Re.findall2, Re.finditer. rewrite pieces_TOKEN.
  destruct (token_at s) as [[[name dflt] rest]|].
  - cbn [flat_map app map]. destruct (group_token_captures name dflt) as [-> ->]. reflexivity.
  - destruct s; reflexivity.
Qed.

Lemma sub_TOKEN (repl : Re.captures -> str) (s : str) :
  Re.sub TOKEN repl s =
  match token_at s with
  | Some (name, dflt, rest) => repl (token_captures name dflt) ++ Re.sub TOKEN repl rest
  | None =>
      match s with
      | [] => []
      | a :: s' => a :: Re.sub TOKEN repl s'
      end
  end.
Proof.
  unfold Re.sub. rewrite pieces_TOKEN.
  destruct (token_at s) as [[[name dflt] rest]|]; [reflexivity|].
  destruct s; reflexivity.
Qed.

Lemma plus_greedy_ext {R} (k : Re.cset) (s : str) (c1 c2 : str -> option R) :
  (forall s', c1 s' = c2 s') -> Re.plus_greedy k s c1 = Re.plus_greedy k s c2.
Proof.
  intros H. induction s as [|a s IH]; [reflexivity|]. cbn. rewrite IH, H. reflexivity.
Qed.

Lemma star_lazy_ext {R} (k : Re.cset) (s : str) (c1 c2 : str -> option R) :
  (forall s', c1 s' = c2 s') -> Re.star_lazy k s c1 = Re.star_lazy k s c2.
Proof.
  intros H. induction s as [|a s IH]; cbn; rewrite H; [reflexivity|]. rewrite IH. reflexivity.
Qed.

Lemma run_ext {R} (r : Re.re) :
  forall (s : str) (caps : Re.captures) (c1 c2 : str -> Re.captures -> option R),
    (forall s' caps', c1 s' caps' = c2 s' caps') ->
    Re.run r s caps c1 = Re.run r s caps c2.
Proof.
  induction r as [k | r1 IH1 r2 IH2 | r1 IH1 | k | k | n r1 IH1]; intros s caps c1 c2 H;
    cbn [Re.run].
  - destruct s as [|a s]; [reflexivity|]. rewrite H. reflexivity.
  - apply IH1. intros s' caps'. apply IH2, H.
  - rewrite (IH1 s caps c1 c2 H), H. reflexivity.
  - apply plus_greedy_ext. intros s'. apply H.
  - apply star_lazy_ext. intros s'. apply H.
  - apply IH1. intros s' caps'. apply H.
Qed.

Lemma star_lazy_now {R} (k : Re.cset) (s : str) (cont : str -> option R) (x : R) :
  cont s = Some x -> Re.star_lazy k s cont = Some x.
Proof. intros H. destruct s; cbn; rewrite H; reflexivity. Qed.

Lemma match_YAML (s : str) :
  Re.match_ YamlDeploymentConfig.PATTERN s =
  match first_on_line s with
  | Some (name, dflt, rest) => Some (rest, token_captures name dflt)
  | None => None
  end.
Proof.
  unfold Re.match_, YamlDeploymentConfig.PATTERN. cbn [Re.run].
  rewrite (star_lazy_ext _ _ _ (fun s' => Re.match_ TOKEN s')).
  2:{ intros s'. unfold Re.match_. apply run_ext. intros s2 caps2.
      apply star_lazy_now. reflexivity. }
  induction s as [|a s IH].
  - reflexivity.
  - cbn [Re.star_lazy first_on_line]. rewrite match_TOKEN.
    destruct (token_at (a :: s)) as [[[name dflt] rest]|]; [reflexivity|].
    destruct (Re.cset_mem Re.Dot a); [exact IH | reflexivity].
Qed.

Lemma first_on_line_sound (s name dflt rest : str) :
  first_on_line s = Some (name, dflt, rest) ->
  exists pre, s = pre ++ token_text name dflt ++ rest /\ name <> []
              /\ forallb name_char name = true /\ default_group dflt.
Proof.
  induction s as [|a s IH]; cbn [first_on_line].
  - discriminate.
  - destruct (token_at (a :: s)) as [found|] eqn:Et.
    + intros [= ->]. apply token_at_sound in Et. exists []. exact Et.
    + destruct (Re.cset_mem Re.Dot a); [|discriminate].
      intros H. destruct (IH H) as (pre & -> & Hrest). exists (a :: pre). auto.
Qed.

Lemma pieces_YAML (s : str) :
  Re.pieces YamlDeploymentConfig.PATTERN s 0 =
  match first_on_line s with
  | Some (name, dflt, rest) =>
      Re.Hit (Re.consumed s rest) (token_captures name dflt)
      :: Re.pieces YamlDeploymentConfig.PATTERN rest 0
  | None =>
      match s with
      | [] => []
      | a :: s' => Re.Keep a :: Re.pieces YamlDeploymentConfig.PATTERN s' 0
      end
  end.
Proof.
  destruct s as [|a s'].
  - reflexivity.
  - cbn [Re.pieces]. rewrite match_YAML.
    destruct (first_on_line (a :: s')) as [[[name dflt] rest]|] eqn:Ef; [|reflexivity].
    apply first_on_line_sound in Ef. destruct Ef as (pre & Hs & _).
    assert (exists x, a :: s' = (a :: x) ++ rest) as (x & Hx).
    { rewrite Hs. destruct pre as [|p pre].
      - exists ("{"%char :: name ++ dflt ++ ["}"%char]).
        injection Hs as -> _. reflexivity.
      - exists (pre ++ token_text name dflt).
        injection Hs as -> _. cbn [app]. rewrite <- app_assoc. reflexivity. }
    rewrite Hx. rewrite length_app.
    replace (length (a :: x) + length rest - length rest) with (S (length x)) by (cbn; lia).
    f_equal. injection Hx as ->. apply pieces_skip.
Qed.

Lemma findall2_YAML (s : str) :
  Re.findall2 YamlDeploymentConfig.PATTERN s =
  match first_on_line s with
  | Some (name, dflt, rest) => (name, dflt) :: Re.findall2 YamlDeploymentConfig.PATTERN rest
  | None =>
      match s with
      | [] => []
      | _ :: s' => Re.findall2 YamlDeploymentConfig.PATTERN s'
      end
  end.
Proof.
  unfold Re.findall2, Re.finditer. rewrite pieces_YAML.
  destruct (first_on_line s) as [[[name dflt] rest]|].
  - cbn [flat_map app map]. destruct (group_token_captures name dflt) as [-> ->]. reflexivity.
  - destruct s; reflexivity.
Qed.

Lemma first_on_line_findall2 (s name dflt rest : str) :
  first_on_line s = Some (name, dflt, rest) ->
  Re.findall2 TOKEN s = (name, dflt) :: Re.findall2 TOKEN rest.
Proof.
  induction s as [|a s IH]; cbn [first_on_line].
  - discriminate.
  - rewrite (findall2_TOKEN (a :: s)).
    destruct (token_at (a :: s)) as [found|] eqn:Et.
    + intros [= ->]. reflexivity.
    + destruct (Re.cset_mem Re.Dot a); [exact IH | discriminate].
Qed.

Lemma first_on_line_none (s : str) :
  first_on_line s = None -> token_at s = None.
Proof. destruct s; cbn [first_on_line]; destruct (token_at _); congruence. Qed.

(** Both patterns find the same tokens in every text. *)
Lemma findall2_same (s : str) :
  Re.findall2 YamlDeploymentConfig.PATTERN s = Re.findall2 JsonDeploymentConfig.PATTERN s.
Proof.
  unfold JsonDeploymentConfig.PATTERN.
  remember (length s) as n eqn:Hn. revert s Hn.
  induction n as [n IH] using lt_wf_ind. intros s ->.
  rewrite findall2_YAML.
  destruct (first_on_line s) as [[[name dflt] rest]|] eqn:Ef.
  - rewrite (first_on_line_findall2 _ _ _ _ Ef). f_equal.
    apply first_on_line_sound in Ef. destruct Ef as (pre & -> & _).
    apply (IH (length rest)); [|reflexivity].
    rewrite !length_app. unfold token_text. cbn. lia.
  - rewrite findall2_TOKEN, (first_on_line_none _ Ef).
    destruct s as [|a s]; [reflexivity|]. apply (IH (length s)); [cbn; lia | reflexivity].
Qed.

Lemma token_shape_text (t : str) :
  token_shape default_char t <->
  exists name dflt, t = token_text name dflt /\ name <> []
                    /\ forallb name_char name = true /\ default_group dflt.
Proof.
  unfold token_shape, token_text, default_group. split.
  - intros (name & Hne & Hname & [-> | (d & Hd & Hdc & ->)]).
    + exists name, []. auto.
    + exists name, (":"%char :: d). repeat split; eauto.
  - intros (name & dflt & -> & Hne & Hname & [-> | (d & -> & Hd & Hdc)]); exists name;
      (split; [exact Hne|]); (split; [exact Hname|]).
    + left. reflexivity.
    + right. exists d. auto.
Qed.

Lemma findall2_valid (s name dflt : str) :
  (name, dflt) ∈ Re.findall2 TOKEN s ->
  name <> [] /\ forallb name_char name = true /\ default_group dflt.
Proof.
  remember (length s) as n eqn:Hn. revert s Hn.
  induction n as [n IH] using lt_wf_ind. intros s -> Hin.
  rewrite findall2_TOKEN in Hin.
  destruct (token_at s) as [[[name' dflt'] rest]|] eqn:Et.
  - apply token_at_sound in Et. destruct Et as (-> & Hvalid).
    apply elem_of_cons in Hin. destruct Hin as [[= -> ->] | Hin]; [exact Hvalid|].
    apply (IH (length rest)) with (s := rest); [|reflexivity | exact Hin].
    rewrite length_app. unfold token_text. cbn. lia.
  - destruct s as [|a s]; [inversion Hin|].
    apply (IH (length s)) with (s := s); [cbn; lia | reflexivity | exact Hin].
Qed.

Lemma recognizes_TOKEN (t : str) :
  recognizes TOKEN t = true <-> token_shape default_char t.
Proof.
  rewrite token_shape_text. unfold recognizes. split.
  - destruct (Re.findall2 TOKEN t) as [|[name dflt] [|? ?]] eqn:Ef; try discriminate.
    intros Ht. apply bool_decide_eq_true in Ht. exists name, dflt. split; [congruence|].
    apply (findall2_valid t). rewrite Ef. left.
  - intros (name & dflt & -> & Hne & Hname & Hd).
    rewrite findall2_TOKEN. rewrite <- (app_nil_r (token_text name dflt)) at 1.
    rewrite (token_at_complete name dflt [] Hne Hname Hd).
    cbn. apply bool_decide_eq_true. reflexivity.
Qed.

Lemma token_at_other (a : ascii) (s : str) : a <> "$"%char -> token_at (a :: s) = None.
Proof.
  intros Ha. unfold token_at. destruct s as [|b s]; [reflexivity|].
  destruct (Ascii.eqb a "$") eqn:E; [|reflexivity]. apply Ascii.eqb_eq in E. contradiction.
Qed.

Lemma sub_no_dollar (repl : Re.captures -> str) (s : str) :
  no_dollar s -> Re.sub TOKEN repl s = s.
Proof.
  induction 1 as [|a s Ha Hs IH]; rewrite sub_TOKEN; [reflexivity|].
  rewrite (token_at_other a s Ha), IH. reflexivity.
Qed.

Lemma sub_one_token (repl : Re.captures -> str) (pre name dflt post : str) :
  no_dollar pre -> no_dollar post ->
  name <> [] -> forallb name_char name = true -> default_group dflt ->
  Re.sub TOKEN repl (pre ++ token_text name dflt ++ post)
  = pre ++ repl (token_captures name dflt) ++ post.
Proof.
  intros Hpre Hpost Hne Hname Hd. induction Hpre as [|a pre Ha Hpre IH].
  - cbn [app]. rewrite sub_TOKEN, (token_at_complete name dflt post Hne Hname Hd).
    rewrite (sub_no_dollar repl post Hpost). reflexivity.
  - cbn [app]. rewrite sub_TOKEN, (token_at_other a _ Ha), IH. reflexivity.
Qed.

Lemma strip_ends_dumps (v : str) :
  JsonDeploymentConfig.strip_ends (Json.dumps (JStr v)) = Json.escape v.
Proof.
  unfold JsonDeploymentConfig.strip_ends, Json.dumps. cbn [Json.encode Json.encode_basestring_ascii].
  cbn [drop]. apply removelast_last.
Qed.

Lemma env_resolver_token (env : environ) (name dflt : str) :
  JsonDeploymentConfig._env_resolver env (token_captures name dflt)
  = Json.escape (pick_value (environ_get env name) dflt).
Proof.
  unfold JsonDeploymentConfig._env_resolver.
  destruct (group_token_captures name dflt) as [-> ->]. apply strip_ends_dumps.
Qed.

(** The serialized text with one token between token-free texts: the token
    is replaced by the escaped value that the rule picks. *)
Lemma json_sub_one_token (env : environ) (pre name dflt post : str) :
  no_dollar pre -> no_dollar post ->
  name <> [] -> forallb name_char name = true -> default_group dflt ->
  Re.sub JsonDeploymentConfig.PATTERN (JsonDeploymentConfig._env_resolver env)
         (pre ++ token_text name dflt ++ post)
  = pre ++ Json.escape (pick_value (environ_get env name) dflt) ++ post.
Proof.
  intros. unfold JsonDeploymentConfig.PATTERN.
  rewrite sub_one_token by assumption. rewrite env_resolver_token. reflexivity.
Qed.

Lemma starts_with_app (p s : str) : starts_with p (p ++ s) = true.
Proof. induction p as [|a p IH]; [reflexivity|]. cbn. rewrite Ascii.eqb_refl. exact IH. Qed.

Lemma starts_with_other (a b : ascii) (p s : str) :
  b <> a -> starts_with (a :: p) (b :: s) = false.
Proof.
  intros Hne. cbn. destruct (Ascii.eqb a b) eqn:E; [|reflexivity].
  apply Ascii.eqb_eq in E. congruence.
Qed.

Lemma replace_from_skip (old new x rest : str) :
  replace_from old new (x ++ rest) (length x) = replace_from old new rest 0.
Proof.
  induction x as [|a x IH]; cbn [app length replace_from].
  - destruct rest; reflexivity.
  - exact IH.
Qed.

Lemma replace_from_no_dollar (p new s : str) :
  no_dollar s -> replace_from ("$"%char :: p) new s 0 = s.
Proof.
  induction 1 as [|a s Ha Hs IH]; [reflexivity|]. cbn [replace_from].
  rewrite (starts_with_other "$" a p s Ha), IH. reflexivity.
Qed.

Lemma replace_from_hit (old new rest : str) :
  old <> [] ->
  replace_from old new (old ++ rest) 0 = new ++ replace_from old new rest 0.
Proof.
  destruct old as [|a old]; [congruence|]. intros _.
  change ((a :: old) ++ rest) with (a :: (old ++ rest)).
  cbn [replace_from].
  change (starts_with (a :: old) (a :: old ++ rest))
    with (starts_with (a :: old) ((a :: old) ++ rest)).
  rewrite starts_with_app. f_equal.
  replace (length (a :: old) - 1) with (length old) by (cbn [length]; lia).
  apply replace_from_skip.
Qed.

Lemma replace_from_miss (a b : ascii) (old new s : str) :
  b <> a ->
  replace_from (a :: old) new (b :: s) 0 = b :: replace_from (a :: old) new s 0.
Proof.
  intros Hne. cbn [replace_from]. rewrite (starts_with_other a b old s Hne). reflexivity.
Qed.

Lemma token_text_cons (name dflt : str) :
  token_text name dflt = "$"%char :: "{"%char :: name ++ dflt ++ ["}"%char].
Proof. reflexivity. Qed.

Lemma replace_one_token (name dflt new pre post : str) :
  no_dollar pre -> no_dollar post ->
  replace (token_text name dflt) new (pre ++ token_text name dflt ++ post)
  = pre ++ new ++ post.
Proof.
  intros Hpre Hpost.
  assert (replace (token_text name dflt) new (pre ++ token_text name dflt ++ post)
          = replace_from (token_text name dflt) new
              (pre ++ token_text name dflt ++ post) 0) as ->.
  { rewrite (token_text_cons name dflt) at 1. reflexivity. }
  induction Hpre as [|a pre Ha Hpre IH].
  - cbn [app]. rewrite replace_from_hit by (rewrite token_text_cons; discriminate).
    f_equal. rewrite token_text_cons. apply replace_from_no_dollar, Hpost.
  - cbn [app]. rewrite token_text_cons at 1.
    rewrite (replace_from_miss "$" a _ _ _ Ha). rewrite <- token_text_cons.
    f_equal. exact IH.
Qed.

Lemma findall2_one_token (pre name dflt post : str) :
  no_dollar pre -> no_dollar post ->
  name <> [] -> forallb name_char name = true -> default_group dflt ->
  Re.findall2 TOKEN (pre ++ token_text name dflt ++ post) = [(name, dflt)].
Proof.
  intros Hpre Hpost Hne Hname Hd. induction Hpre as [|a pre Ha Hpre IH].
  - cbn [app]. rewrite findall2_TOKEN, (token_at_complete name dflt post Hne Hname Hd).
    f_equal. induction Hpost as [|b post Hb Hpost IH]; [reflexivity|].
    rewrite findall2_TOKEN, (token_at_other b post Hb). exact IH.
  - cbn [app]. rewrite findall2_TOKEN, (token_at_other a _ Ha). exact IH.
Qed.

(** A scalar with one token between token-free texts: the token is
    replaced by the value that the rule picks. *)
Lemma yaml_resolve_one_token (env : environ) (pre name dflt post : str) :
  no_dollar pre -> no_dollar post ->
  name <> [] -> forallb name_char name = true -> default_group dflt ->
  YamlDeploymentConfig.resolve_env_vars env (pre ++ token_text name dflt ++ post)
  = pre ++ pick_value (environ_get env name) dflt ++ post.
Proof.
  intros Hpre Hpost Hne Hname Hd. unfold YamlDeploymentConfig.resolve_env_vars.
  rewrite findall2_same. unfold JsonDeploymentConfig.PATTERN.
  rewrite (findall2_one_token pre name dflt post Hpre Hpost Hne Hname Hd).
  cbn [fold_left]. rewrite <- app_assoc.
  change (lit "${" ++ name ++ dflt ++ lit "}") with (token_text name dflt).
  apply replace_one_token; assumption.
Qed.

(** ** The API client *)

Lemma retry_step (tries : nat) (delay backoff : Z)
    (f : ApiV1Client.world -> result json * ApiV1Client.world) (w : ApiV1Client.world) :
  ApiV1Client.retry (S tries) delay backoff f w =
  match f w with
  | (Ok r, w') => (Ok r, w')
  | (Raise e, w') =>
      match tries with
      | O => (Raise e, w')
      | S _ => ApiV1Client.retry tries (delay * backoff)%Z backoff f (ApiV1Client.sleep delay w')
      end
  end.
Proof. reflexivity. Qed.

Lemma perform_query_eq (rq : ApiV1Client.request) (w : ApiV1Client.world) :
  ApiV1Client.perform_query rq w
  = (ApiV1Client.server w (ApiV1Client.ncalls w) rq,
     ApiV1Client.World (ApiV1Client.server w) (S (ApiV1Client.ncalls w))
       (ApiV1Client.sleeps w)).
Proof. reflexivity. Qed.

Lemma retry_exhausted (rq : ApiV1Client.request) (e : nat -> exn) (tries : nat) :
  forall (delay backoff : Z) (w : ApiV1Client.world),
    (forall i, i <= tries ->
       ApiV1Client.server w (ApiV1Client.ncalls w + i) rq = Raise (e i)) ->
    ApiV1Client.retry (S tries) delay backoff (ApiV1Client.perform_query rq) w
    = (Raise (e tries),
       ApiV1Client.World (ApiV1Client.server w) (ApiV1Client.ncalls w + S tries)
         (ApiV1Client.sleeps w ++ delays delay backoff tries)).
Proof.
  revert e. induction tries as [|tries IH]; intros e delay backoff w Hfail.
  - rewrite retry_step, perform_query_eq.
    pose proof (Hfail 0 ltac:(lia)) as H0. rewrite Nat.add_0_r in H0. rewrite H0.
    cbn [delays]. rewrite app_nil_r. f_equal. f_equal; lia.
  - rewrite retry_step, perform_query_eq.
    pose proof (Hfail 0 ltac:(lia)) as H0. rewrite Nat.add_0_r in H0. rewrite H0.
    rewrite (IH (fun i => e (S i))).
    + cbn [ApiV1Client.sleep ApiV1Client.server ApiV1Client.ncalls ApiV1Client.sleeps delays].
      rewrite <- app_assoc. cbn [app]. f_equal. f_equal; lia.
    + intros i Hi. cbn [ApiV1Client.sleep ApiV1Client.server ApiV1Client.ncalls].
      rewrite <- (Hfail (S i)) by lia. f_equal. lia.
Qed.

Lemma retry_succeeds (rq : ApiV1Client.request) (r : json) (k : nat) :
  forall (e : nat -> exn) (tries : nat) (delay backoff : Z) (w : ApiV1Client.world),
    k < tries ->
    (forall i, i < k ->
       ApiV1Client.server w (ApiV1Client.ncalls w + i) rq = Raise (e i)) ->
    ApiV1Client.server w (ApiV1Client.ncalls w + k) rq = Ok r ->
    ApiV1Client.retry tries delay backoff (ApiV1Client.perform_query rq) w
    = (Ok r,
       ApiV1Client.World (ApiV1Client.server w) (ApiV1Client.ncalls w + S k)
         (ApiV1Client.sleeps w ++ delays delay backoff k)).
Proof.
  induction k as [|k IH]; intros e tries delay backoff w Hk Hfail Hok.
  - destruct tries as [|tries]; [lia|].
    rewrite retry_step, perform_query_eq.
    rewrite Nat.add_0_r in Hok. rewrite Hok.
    cbn [delays]. rewrite app_nil_r. f_equal. f_equal; lia.
  - destruct tries as [|[|tries]]; [lia | lia |].
    rewrite retry_step, perform_query_eq.
    pose proof (Hfail 0 ltac:(lia)) as H0. rewrite Nat.add_0_r in H0. rewrite H0.
    rewrite (IH (fun i => e (S i))).
    + cbn [ApiV1Client.sleep ApiV1Client.server ApiV1Client.ncalls ApiV1Client.sleeps delays].
      rewrite <- app_assoc. cbn [app]. f_equal. f_equal; lia.
    + lia.
    + intros i Hi. cbn [ApiV1Client.sleep ApiV1Client.server ApiV1Client.ncalls].
      rewrite <- (Hfail (S i)) by lia. f_equal. lia.
    + cbn [ApiV1Client.sleep ApiV1Client.server ApiV1Client.ncalls].
      rewrite <- Hok. f_equal. lia.
Qed.

(** ** Dicts *)

Lemma dict_lookup_set_eq (k : str) (v : json) (d : list (str * json)) :
  dict_lookup k (dict_set k v d) = Some v.
Proof.
  induction d as [|[k' v'] d IH]; cbn [dict_set dict_lookup].
  - destruct (decide (k = k)); congruence.
  - destruct (decide (k = k')) as [->|Hne]; cbn [dict_lookup].
    + destruct (decide (k' = k')); congruence.
    + destruct (decide (k = k')); [contradiction | exact IH].
Qed.

Lemma dict_lookup_set_ne (k k' : str) (v : json) (d : list (str * json)) :
  k' <> k -> dict_lookup k' (dict_set k v d) = dict_lookup k' d.
Proof.
  intros Hne. induction d as [|[k0 v0] d IH]; cbn [dict_set dict_lookup].
  - destruct (decide (k' = k)); [contradiction | reflexivity].
  - destruct (decide (k = k0)) as [->|Hk]; cbn [dict_lookup].
    + destruct (decide (k' = k0)); [contradiction | reflexivity].
    + destruct (decide (k' = k0)); [reflexivity | exact IH].
Qed.

Lemma dict_lookup_update_other (k : str) (d other : list (str * json)) :
  k ∉ map fst other -> dict_lookup k (dict_update d other) = dict_lookup k d.
Proof.
  revert d. induction other as [|[k' v'] other IH]; intros d Hk; [reflexivity|].
  cbn [map fst] in Hk. apply not_elem_of_cons in Hk. destruct Hk as [Hne Hk].
  unfold dict_update in *. cbn [fold_left fst snd].
  rewrite IH by exact Hk. apply dict_lookup_set_ne, Hne.
Qed.

Lemma dict_lookup_update_some (k : str) (d other : list (str * json)) :
  is_Some (dict_lookup k d) -> is_Some (dict_lookup k (dict_update d other)).
Proof.
  revert d. induction other as [|[k' v'] other IH]; intros d Hk; [exact Hk|].
  unfold dict_update in *. cbn [fold_left fst snd]. apply IH.
  destruct (decide (k = k')) as [->|Hne].
  - rewrite dict_lookup_set_eq. eauto.
  - rewrite dict_lookup_set_ne by exact Hne. exact Hk.
Qed.

Lemma dict_set_keys (k : str) (v : json) (d : list (str * json)) :
  map fst (dict_set k v d)
  = if bool_decide (k ∈ map fst d) then map fst d else map fst d ++ [k].
Proof.
  induction d as [|[k' v'] d IH]; [reflexivity|]. cbn [dict_set map fst].
  destruct (decide (k = k')) as [->|Hne].
  - rewrite bool_decide_eq_true_2 by left. reflexivity.
  - cbn [map fst]. rewrite IH. destruct (bool_decide (k ∈ map fst d)) eqn:E.
    + apply bool_decide_eq_true in E. rewrite bool_decide_eq_true_2 by (right; exact E).
      reflexivity.
    + apply bool_decide_eq_false in E. rewrite bool_decide_eq_false_2; [reflexivity|].
      intros Hin. apply elem_of_cons in Hin. destruct Hin; [contradiction|contradiction].
Qed.

Lemma dict_set_nodup (k : str) (v : json) (d : list (str * json)) :
  NoDup (map fst d) -> NoDup (map fst (dict_set k v d)).
Proof.
  intros Hnd. rewrite dict_set_keys. destruct (bool_decide (k ∈ map fst d)) eqn:E; [exact Hnd|].
  apply bool_decide_eq_false in E. apply NoDup_app. split; [exact Hnd|]. split.
  - intros x Hx Hx'. apply list_elem_of_singleton in Hx'. subst x. contradiction.
  - apply NoDup_singleton.
Qed.

Lemma dict_set_values (P : json -> bool) (k : str) (v : json) (d : list (str * json)) :
  P v = true ->
  forallb (fun kv => match kv with (_, x) => P x end) d = true ->
  forallb (fun kv => match kv with (_, x) => P x end) (dict_set k v d) = true.
Proof.
  intros Hv. induction d as [|[k' v'] d IH]; cbn [dict_set forallb].
  - intros _. rewrite Hv. reflexivity.
  - intros H. apply andb_prop in H. destruct H as [Hv' Hd].
    destruct (decide (k = k')); cbn [forallb].
    + rewrite Hv, Hd. reflexivity.
    + rewrite Hv', (IH Hd). reflexivity.
Qed.

Lemma well_formed_dict_set (k : str) (v : json) (d : list (str * json)) :
  well_formed v = true -> well_formed (JDict d) = true ->
  well_formed (JDict (dict_set k v d)) = true.
Proof.
  intros Hv Hd. cbn [well_formed] in *. apply andb_prop in Hd. destruct Hd as [Hnd Hall].
  apply bool_decide_eq_true in Hnd. apply andb_true_intro. split.
  - apply bool_decide_eq_true, dict_set_nodup, Hnd.
  - apply dict_set_values; assumption.
Qed.

Lemma well_formed_dict_update (d other : list (str * json)) :
  well_formed (JDict d) = true -> well_formed (JDict other) = true ->
  well_formed (JDict (dict_update d other)) = true.
Proof.
  intros Hd Hother. apply well_formed_dict in Hother. destruct Hother as [_ Hall].
  revert d Hd. induction Hall as [|[k v] other Hv Hall IH]; intros d Hd; [exact Hd|].
  unfold dict_update in *. cbn [fold_left fst snd]. apply IH.
  apply well_formed_dict_set; [exact Hv | exact Hd].
Qed.

(** ** What the decoder returns is a document of Python *)

Lemma scan_number_well_formed (s : str) (j : json) (rest : str) :
  scan_number s = Some (j, rest) -> well_formed j = true.
Proof.
  unfold scan_number.
  destruct (match s with
            | [] => (false, s)
            | c :: s' => if Ascii.eqb c "-" then (true, s') else (false, s)
            end) as [neg s1].
  destruct s1 as [|c s2]; [discriminate|]. destruct (digit_of c); [|discriminate].
  destruct (if Ascii.eqb c "0" then _ else _) as [d r].
  destruct r as [|c' r'].
  - intros [= <- _]. reflexivity.
  - destruct (_ || _); [discriminate|]. intros [= <- _]. reflexivity.
Qed.

Lemma parse_well_formed (fuel : nat) :
  (forall s j rest, parse_value fuel s = Some (j, rest) -> well_formed j = true)
  /\ (forall s l rest, parse_elements fuel s = Some (l, rest) ->
        forallb well_formed l = true)
  /\ (forall s l rest, parse_members fuel s = Some (l, rest) ->
        forallb (fun kv => match kv with (_, v) => well_formed v end) l = true).
Proof.
  induction fuel as [|fuel (IHv & IHe & IHm)]; [repeat split; discriminate|].
  split; [|split].
  - intros s j rest. cbn [parse_value]. destruct s as [|c s']; [discriminate|].
    destruct (Ascii.eqb c dquote).
    { destruct (scanstring s') as [[x r]|]; [|discriminate]. intros [= <- _]. reflexivity. }
    destruct (Ascii.eqb c "{").
    { destruct (skip_ws s') as [|c1 rest1]; [discriminate|].
      destruct (Ascii.eqb c1 "}"); [intros [= <- _]; reflexivity|].
      destruct (parse_members fuel (c1 :: rest1)) as [[pairs r]|] eqn:Em; [|discriminate].
      intros [= <- _]. apply IHm in Em. clear -Em.
      unfold dict_of_pairs.
      assert (well_formed (JDict []) = true) as Hacc by reflexivity.
      revert Hacc. generalize (@nil (str * json)) as acc.
      induction pairs as [|[k v] pairs IH]; intros acc Hacc; [exact Hacc|].
      cbn [forallb] in Em. apply andb_prop in Em. destruct Em as [Hv Hrest].
      unfold dict_update in *. cbn [fold_left fst snd]. apply (IH Hrest).
      apply well_formed_dict_set; assumption. }
    destruct (Ascii.eqb c "[").
    { destruct (skip_ws s') as [|c1 rest1]; [discriminate|].
      destruct (Ascii.eqb c1 "]"); [intros [= <- _]; reflexivity|].
      destruct (parse_elements fuel (c1 :: rest1)) as [[values r]|] eqn:Ee; [|discriminate].
      intros [= <- _]. apply IHe in Ee. exact Ee. }
    destruct (starts_with (lit "null") (c :: s')); [intros [= <- _]; reflexivity|].
    destruct (starts_with (lit "true") (c :: s')); [intros [= <- _]; reflexivity|].
    destruct (starts_with (lit "false") (c :: s')); [intros [= <- _]; reflexivity|].
    apply scan_number_well_formed.
  - intros s l rest. cbn [parse_elements].
    destruct (parse_value fuel s) as [[v s1]|] eqn:Ev; [|discriminate].
    apply IHv in Ev. destruct (skip_ws s1) as [|c s2]; [discriminate|].
    destruct (Ascii.eqb c "]"); [intros [= <- _]; cbn; rewrite Ev; reflexivity|].
    destruct (Ascii.eqb c ","); [|discriminate].
    destruct (parse_elements fuel (skip_ws s2)) as [[vs r]|] eqn:Ee; [|discriminate].
    intros [= <- _]. cbn [forallb]. rewrite Ev. apply (IHe _ _ _ Ee).
  - intros s l rest. cbn [parse_members]. destruct s as [|q s1]; [discriminate|].
    destruct (Ascii.eqb q dquote); [|discriminate].
    destruct (scanstring s1) as [[k s2]|]; [|discriminate].
    destruct (skip_ws s2) as [|c s3]; [discriminate|].
    destruct (Ascii.eqb c ":"); [|discriminate].
    destruct (parse_value fuel (skip_ws s3)) as [[v s4]|] eqn:Ev; [|discriminate].
    apply IHv in Ev. destruct (skip_ws s4) as [|c' s5]; [discriminate|].
    destruct (Ascii.eqb c' "}"); [intros [= <- _]; cbn; rewrite Ev; reflexivity|].
    destruct (Ascii.eqb c' ","); [|discriminate].
    destruct (parse_members fuel (skip_ws s5)) as [[kvs r]|] eqn:Em; [|discriminate].
    intros [= <- _]. cbn [forallb]. rewrite Ev. apply (IHm _ _ _ Em).
Qed.

Lemma loads_well_formed (text : str) (j : json) :
  loads text = Some j -> well_formed j = true.
Proof.
  unfold loads.
  destruct (parse_value (S (length text)) (skip_ws text)) as [[v rest]|] eqn:Ev; [|discriminate].
  destruct (skip_ws rest); [|discriminate]. intros [= <-].
  apply (proj1 (parse_well_formed _) _ _ _ Ev).
Qed.

(** ** The file system *)

Lemma read_json_file (p : string) (st : os_state) (text : str) (j : json) :
  files st !! p = Some text -> loads text = Some j -> read_json p st = (Ok j, st).
Proof.
  intros Hf Hl. unfold read_json, bind, read_text. rewrite Hf, Hl. reflexivity.
Qed.

Lemma path_exists_file (p : string) (st : os_state) (text : str) :
  files st !! p = Some text -> path_exists p st = true.
Proof.
  intros Hf. unfold path_exists. rewrite (bool_decide_eq_true_2 (is_Some (files st !! p))).
  - apply orb_true_r.
  - rewrite Hf. eauto.
Qed.

Lemma path_exists_false (p : string) (st : os_state) :
  path_exists p st = false -> files st !! p = None /\ p ∉ dirs st.
Proof.
  unfold path_exists. intros H. apply orb_false_elim in H. destruct H as [Hd Hf].
  apply bool_decide_eq_false in Hd, Hf. split; [|exact Hd].
  destruct (files st !! p) eqn:E; [|reflexivity]. exfalso. apply Hf. eauto.
Qed.

Lemma check_writable_dirs (p : string) (st1 st2 : os_state) :
  dirs st1 = dirs st2 -> check_writable p st1 = Ok tt -> check_writable p st2 = Ok tt.
Proof.
  unfold check_writable. intros <-.
  destruct (bool_decide (p ∈ dirs st1)); [discriminate|].
  destruct (bool_decide (dirname p = ""%string) || bool_decide (dirname p ∈ dirs st1));
    [reflexivity|].
  destruct (bool_decide (is_Some (files st1 !! dirname p))); discriminate.
Qed.

Lemma check_writable_not_dir (p : string) (st : os_state) :
  check_writable p st = Ok tt -> p ∉ dirs st.
Proof.
  unfold check_writable. destruct (bool_decide (p ∈ dirs st)) eqn:E; [discriminate|].
  intros _. apply bool_decide_eq_false in E. exact E.
Qed.

Lemma write_text_ok (p : string) (text : str) (st : os_state) :
  check_writable p st = Ok tt ->
  write_text p text st = (Ok tt, OsState (dirs st) (<[p := text]> (files st)) (stdout st)).
Proof. intros H. unfold write_text. rewrite H. reflexivity. Qed.

Lemma write_text_inv (p : string) (text : str) (st st' : os_state) :
  write_text p text st = (Ok tt, st') ->
  check_writable p st = Ok tt
  /\ st' = OsState (dirs st) (<[p := text]> (files st)) (stdout st).
Proof.
  unfold write_text. destruct (check_writable p st) as [[]|e]; [|discriminate].
  intros [= <-]. split; reflexivity.
Qed.

Lemma read_json_written (p : string) (ds : gset string) (fs : gmap string str)
    (out : list str) (j : json) :
  well_formed j = true ->
  read_json p (OsState ds (<[p := dumps_indent 4 j]> fs) out)
  = (Ok j, OsState ds (<[p := dumps_indent 4 j]> fs) out).
Proof.
  intros Hwf. apply (read_json_file p _ (dumps_indent 4 j)).
  - cbn [files]. apply lookup_insert_eq.
  - apply (loads_encode (Some 4) j Hwf).
Qed.

Lemma update_json_ok (new_content : list (str * json)) (p : string) (st : os_state)
    (d : list (str * json)) :
  check_writable p st = Ok tt -> holds_dict p st d ->
  update_json new_content p st
  = (Ok tt, OsState (dirs st)
              (<[p := dumps_indent 4 (JDict (dict_update d new_content))]> (files st))
              (stdout st)).
Proof.
  intros Hw Hd. unfold update_json.
  assert (match read_json p st with
          | (Ok content, _) => Ok content
          | (Raise FileNotFoundError, _) => Ok (JDict [])
          | (Raise e, _) => Raise e
          end = Ok (JDict d)) as ->.
  { destruct Hd as [[Hf ->] | (text & Hf & Hl)].
    - unfold read_json, bind, read_text. rewrite Hf.
      rewrite bool_decide_eq_false_2 by (apply check_writable_not_dir, Hw). reflexivity.
    - rewrite (read_json_file p st text (JDict d) Hf Hl). reflexivity. }
  unfold write_json. apply write_text_ok, Hw.
Qed.

Lemma holds_dict_well_formed (p : string) (st : os_state) (d : list (str * json)) :
  holds_dict p st d -> well_formed (JDict d) = true.
Proof.
  intros [[_ ->] | (text & _ & Hl)]; [reflexivity|]. apply (loads_well_formed text), Hl.
Qed.

(** ** The project store *)

Lemma initialize_inv (st st1 : os_state) :
  InfoFile.initialize st = (Ok tt, st1) ->
  check_writable INFO_FILE_PATH st1 = Ok tt
  /\ files st1 !! INFO_FILE_PATH
     = Some (dumps_indent 4 (JDict [(lit "environments", JDict [])])).
Proof.
  unfold InfoFile.initialize, bind.
  destruct (InfoFile._create_dir st) as [[[]|e1] s1]; [|discriminate].
  destruct (InfoFile._create_lock_file s1) as [[[]|e2] s2]; [|discriminate].
  unfold write_json. intros H. apply write_text_inv in H. destruct H as [Hw ->]. split.
  - apply (check_writable_dirs _ s2); [reflexivity | exact Hw].
  - cbn [files]. apply lookup_insert_eq.
Qed.

Lemma update_inv (content : list (str * json)) (st : os_state) :
  info_invariant st -> well_formed (JDict content) = true ->
  exists st', InfoFile.update content st = (Ok tt, st') /\ info_invariant st'.
Proof.
  intros (Hw & d & Hf & Hwf & Henv) Hc. unfold InfoFile.update.
  rewrite (update_json_ok content INFO_FILE_PATH st d Hw).
  2:{ right. exists (dumps_indent 4 (JDict d)). split; [exact Hf|].
      apply (loads_encode (Some 4) (JDict d) Hwf). }
  eexists. split; [reflexivity|]. split.
  - apply (check_writable_dirs _ st); [reflexivity | exact Hw].
  - exists (dict_update d content). split; [cbn [files]; apply lookup_insert_eq|].
    split; [apply well_formed_dict_update; assumption|].
    apply dict_lookup_update_some, Henv.
Qed.

Lemma update_all_inv (partials : list (list (str * json))) :
  Forall (fun content => well_formed (JDict content) = true) partials ->
  forall st, info_invariant st ->
    exists st', update_all partials st = (Ok tt, st') /\ info_invariant st'.
Proof.
  induction 1 as [|content partials Hc Hall IH]; intros st Hinv.
  - exists st. split; [reflexivity | exact Hinv].
  - destruct (update_inv content st Hinv Hc) as (st1 & Hup & Hinv1).
    destruct (IH st1 Hinv1) as (st2 & Hall2 & Hinv2).
    exists st2. split; [|exact Hinv2].
    cbn [update_all]. unfold bind. rewrite Hup. exact Hall2.
Qed.

Lemma info_invariant_read (st : os_state) :
  info_invariant st ->
  exists d, read_json INFO_FILE_PATH st = (Ok (JDict d), st)
            /\ is_Some (dict_lookup (lit "environments") d).
Proof.
  intros (_ & d & Hf & Hwf & Henv). exists d. split; [|exact Henv].
  apply (read_json_file _ _ _ _ Hf), (loads_encode (Some 4) (JDict d) Hwf).
Qed.

(** ** The JSON reader *)

Lemma escape_char_no_dollar (c : ascii) :
  c <> "$"%char -> no_dollar (escape_char c).
Proof.
  intros Hc. destruct c as [[] [] [] [] [] [] [] []];
    try (exfalso; apply Hc; reflexivity);
    cbv; repeat constructor; discriminate.
Qed.

Lemma no_dollar_app (a b : str) : no_dollar a -> no_dollar b -> no_dollar (a ++ b).
Proof. intros Ha Hb. apply Forall_app. split; assumption. Qed.

Lemma escape_no_dollar (s : str) :
  forallb (fun c => negb (Ascii.eqb c "$")) s = true -> no_dollar (escape s).
Proof.
  induction s as [|c s IH]; cbn [forallb escape flat_map]; [constructor|].
  intros H. apply andb_prop in H. destruct H as [Hc Hs].
  apply no_dollar_app; [|apply IH, Hs]. apply escape_char_no_dollar.
  intros ->. discriminate Hc.
Qed.

Lemma encode_basestring_no_dollar (s : str) :
  forallb (fun c => negb (Ascii.eqb c "$")) s = true ->
  no_dollar (encode_basestring_ascii s).
Proof.
  intros H. unfold encode_basestring_ascii. constructor; [discriminate|].
  apply no_dollar_app; [apply escape_no_dollar, H | repeat constructor; discriminate].
Qed.

Lemma uint_digits_no_dollar (d : Decimal.uint) : no_dollar (uint_digits d).
Proof. induction d; cbn [uint_digits]; constructor; (discriminate || assumption). Qed.

Lemma int_repr_no_dollar (z : Z) : no_dollar (int_repr z).
Proof.
  destruct z; unfold int_repr; try apply uint_digits_no_dollar.
  constructor; [discriminate | apply uint_digits_no_dollar].
Qed.

Lemma newline_indent_no_dollar indent level : no_dollar (newline_indent indent level).
Proof.
  destruct indent as [n|]; [|constructor]. cbn [newline_indent].
  constructor; [discriminate|]. induction (n * level); constructor; (discriminate || assumption).
Qed.

Lemma separator_no_dollar indent level : no_dollar (separator indent level).
Proof.
  unfold separator. apply no_dollar_app; [|apply newline_indent_no_dollar].
  destruct indent; repeat constructor; discriminate.
Qed.

Lemma join_no_dollar (sep : str) (parts : list str) :
  no_dollar sep -> Forall no_dollar parts -> no_dollar (join sep parts).
Proof.
  intros Hsep. induction 1 as [|x parts Hx Hparts IH]; [constructor|].
  destruct parts as [|y parts]; [exact Hx|].
  change (join sep (x :: y :: parts)) with (x ++ sep ++ join sep (y :: parts)).
  repeat apply no_dollar_app; assumption.
Qed.

Lemma encode_no_dollar indent (j : json) :
  dollar_free j = true -> forall level, no_dollar (encode indent level j).
Proof.
  induction j as [| b | z | s | items IH | entries IH] using json_ind'; intros Hfree level.
  - repeat constructor; discriminate.
  - destruct b; repeat constructor; discriminate.
  - apply int_repr_no_dollar.
  - apply encode_basestring_no_dollar, Hfree.
  - destruct items as [|x items]; [repeat constructor; discriminate|].
    change (encode indent level (JList (x :: items)))
      with (lit "[" ++ newline_indent indent (S level)
            ++ join (separator indent (S level)) (map (encode indent (S level)) (x :: items))
            ++ newline_indent indent level ++ lit "]").
    repeat apply no_dollar_app; try apply newline_indent_no_dollar;
      try (repeat constructor; discriminate).
    apply join_no_dollar; [apply separator_no_dollar|].
    apply Forall_map. cbn [dollar_free] in Hfree. rewrite forallb_forall in Hfree.
    rewrite Forall_forall in IH. apply Forall_forall. intros y Hy.
    apply IH; [exact Hy | apply Hfree, list_elem_of_In, Hy].
  - destruct entries as [|kv entries]; [repeat constructor; discriminate|].
    change (encode indent level (JDict (kv :: entries)))
      with (lit "{" ++ newline_indent indent (S level)
            ++ join (separator indent (S level)) (map (encode_entry indent (S level)) (kv :: entries))
            ++ newline_indent indent level ++ lit "}").
    repeat apply no_dollar_app; try apply newline_indent_no_dollar;
      try (repeat constructor; discriminate).
    apply join_no_dollar; [apply separator_no_dollar|].
    apply Forall_map. cbn [dollar_free] in Hfree. rewrite forallb_forall in Hfree.
    rewrite Forall_forall in IH. apply Forall_forall. intros [k v] Hy.
    specialize (Hfree (k, v) (proj1 (list_elem_of_In _ _) Hy)). cbn beta iota in Hfree.
    apply andb_prop in Hfree. destruct Hfree as [Hk Hv].
    cbn [encode_entry]. repeat apply no_dollar_app.
    + apply encode_basestring_no_dollar, Hk.
    + repeat constructor; discriminate.
    + apply (IH (k, v) Hy Hv).
Qed.

(** A well-formed document without dollar signs comes back unchanged. *)
Lemma resolve_env_vars_token_free (env : environ) (doc : json) :
  well_formed doc = true -> dollar_free doc = true ->
  JsonDeploymentConfig.resolve_env_vars env doc = Ok doc.
Proof.
  intros Hwf Hfree. unfold JsonDeploymentConfig.resolve_env_vars, JsonDeploymentConfig.PATTERN.
  rewrite sub_no_dollar by (apply (encode_no_dollar None doc Hfree 0)).
  unfold dumps. rewrite (loads_encode None doc Hwf). reflexivity.
Qed.

Lemma escape_app (a b : str) : escape (a ++ b) = escape a ++ escape b.
Proof. unfold escape. apply flat_map_app. Qed.

Lemma escape_token_text (name dflt : str) :
  plain name -> plain dflt -> escape (token_text name dflt) = token_text name dflt.
Proof.
  unfold plain, token_text. intros Hn Hd. rewrite !escape_app, Hn, Hd. reflexivity.
Qed.

Lemma dumps_one_setting (environment key value : str) :
  dumps (one_setting environment key value)
  = (lit "{" ++ encode_basestring_ascii environment ++ lit ": {"
     ++ encode_basestring_ascii key ++ lit ": " ++ [dquote])
    ++ escape value ++ (dquote :: lit "}}").
Proof.
  unfold dumps, one_setting. cbn [encode map join newline_indent item_separator].
  unfold key_separator, encode_basestring_ascii.
  cbn [lit list_ascii_of_string app]. repeat rewrite <- app_assoc. cbn [app].
  repeat (f_equal; try rewrite <- app_assoc; cbn [app]).
Qed.

(** One setting whose value is a token: the token is replaced by the
    value the rule picks, whatever characters that value has. *)
Lemma resolve_env_vars_setting (env : environ) (environment key name dflt : str) :
  forallb (fun c => negb (Ascii.eqb c "$")) environment = true ->
  forallb (fun c => negb (Ascii.eqb c "$")) key = true ->
  name <> [] -> forallb name_char name = true -> default_group dflt ->
  plain name -> plain dflt ->
  JsonDeploymentConfig.resolve_env_vars env
    (one_setting environment key (token_text name dflt))
  = Ok (one_setting environment key (pick_value (environ_get env name) dflt)).
Proof.
  intros He Hk Hne Hname Hd Hpn Hpd. unfold JsonDeploymentConfig.resolve_env_vars.
  cbv zeta.
  rewrite dumps_one_setting, (escape_token_text name dflt Hpn Hpd).
  rewrite (json_sub_one_token env _ name dflt _); try assumption.
  - rewrite <- dumps_one_setting. unfold dumps.
    rewrite (loads_encode None); [reflexivity|].
    unfold one_setting. cbn [well_formed forallb map fst].
    rewrite !bool_decide_eq_true_2 by apply NoDup_singleton. reflexivity.
  - repeat apply no_dollar_app; try (repeat constructor; discriminate);
      apply encode_basestring_no_dollar; assumption.
  - repeat constructor; discriminate.
Qed.

(** ** More on dicts and on the stored documents *)

Lemma dict_lookup_not_in (k : str) (d : list (str * json)) :
  k ∉ map fst d -> dict_lookup k d = None.
Proof.
  induction d as [|[k' v'] d IH]; [reflexivity|]. cbn [map fst dict_lookup].
  intros H. apply not_elem_of_cons in H. destruct H as [Hne H].
  destruct (decide (k = k')); [contradiction | apply IH, H].
Qed.

Lemma dict_lookup_in (k : str) (v : json) (d : list (str * json)) :
  NoDup (map fst d) -> In (k, v) d -> dict_lookup k d = Some v.
Proof.
  induction d as [|[k' v'] d IH]; [intros _ []|]. cbn [map fst dict_lookup].
  intros Hnd [[= -> ->] | Hin].
  - destruct (decide (k = k)); congruence.
  - apply NoDup_cons in Hnd. destruct Hnd as [Hk' Hnd].
    destruct (decide (k = k')) as [->|Hne]; [|apply IH; assumption].
    exfalso. apply Hk'. apply list_elem_of_In. apply (in_map fst d (k', v) Hin).
Qed.

(** [d.update(other)]: the keys of [other] get its values, the other keys
    keep theirs. *)
Lemma dict_lookup_update (k : str) (d other : list (str * json)) :
  NoDup (map fst other) ->
  dict_lookup k (dict_update d other)
  = match dict_lookup k other with
    | Some v => Some v
    | None => dict_lookup k d
    end.
Proof.
  revert d. induction other as [|[k0 v0] other IH]; intros d Hnd; [reflexivity|].
  cbn [map fst] in Hnd. apply NoDup_cons in Hnd. destruct Hnd as [Hk0 Hnd].
  unfold dict_update in *. cbn [fold_left fst snd dict_lookup]. rewrite (IH _ Hnd).
  destruct (decide (k = k0)) as [->|Hne].
  - rewrite (dict_lookup_not_in k0 other Hk0). apply dict_lookup_set_eq.
  - rewrite (dict_lookup_set_ne k0 k v0 d Hne). reflexivity.
Qed.

Lemma dict_set_same (k : str) (v : json) (d : list (str * json)) :
  dict_lookup k d = Some v -> dict_set k v d = d.
Proof.
  induction d as [|[k' v'] d IH]; [discriminate|]. cbn [dict_lookup dict_set].
  destruct (decide (k = k')) as [->|Hne].
  - intros [= ->]. reflexivity.
  - intros H. rewrite (IH H). reflexivity.
Qed.

Lemma dict_set_set (k : str) (v v' : json) (d : list (str * json)) :
  dict_set k v' (dict_set k v d) = dict_set k v' d.
Proof.
  induction d as [|[k0 v0] d IH]; cbn [dict_set].
  - destruct (decide (k = k)); congruence.
  - destruct (decide (k = k0)) as [->|Hne]; cbn [dict_set].
    + destruct (decide (k0 = k0)); congruence.
    + destruct (decide (k = k0)); [contradiction|]. rewrite IH. reflexivity.
Qed.

Lemma dict_update_absorb (d other : list (str * json)) :
  (forall k v, In (k, v) other -> dict_lookup k d = Some v) ->
  dict_update d other = d.
Proof.
  induction other as [|[k0 v0] other IH]; intros H; [reflexivity|].
  unfold dict_update in *. cbn [fold_left fst snd].
  rewrite (dict_set_same k0 v0 d) by (apply H; left; reflexivity).
  apply IH. intros k v Hin. apply H. right. exact Hin.
Qed.

Lemma dict_update_twice (d other : list (str * json)) :
  NoDup (map fst other) ->
  dict_update (dict_update d other) other = dict_update d other.
Proof.
  intros Hnd. apply dict_update_absorb. intros k v Hin.
  rewrite (dict_lookup_update k d other Hnd), (dict_lookup_in k v other Hnd Hin). reflexivity.
Qed.

Lemma holds_dict_written (p : string) (ds : gset string) (fs : gmap string str)
    (out : list str) (d : list (str * json)) :
  well_formed (JDict d) = true ->
  holds_dict p (OsState ds (<[p := dumps_indent 4 (JDict d)]> fs) out) d.
Proof.
  intros Hwf. right. exists (dumps_indent 4 (JDict d)). split.
  - cbn [files]. apply lookup_insert_eq.
  - apply (loads_encode (Some 4) (JDict d) Hwf).
Qed.

Lemma dirname_lock : dirname LOCK_FILE_PATH = DBX_PATH.
Proof. reflexivity. Qed.

Lemma dirname_info : dirname INFO_FILE_PATH = DBX_PATH.
Proof. reflexivity. Qed.

Lemma dirname_dbx : dirname DBX_PATH = ""%string.
Proof. reflexivity. Qed.

Lemma create_dir_files (st st1 : os_state) (r : result unit) :
  InfoFile._create_dir st = (r, st1) -> files st1 = files st.
Proof.
  unfold InfoFile._create_dir. destruct (negb (path_exists DBX_PATH st)); [|intros [= _ <-]; reflexivity].
  unfold bind, dbx_echo, mkdir. cbn [files dirs].
  destruct (path_exists DBX_PATH _); [intros [= _ <-]; reflexivity|].
  destruct (check_writable DBX_PATH _); intros [= _ <-]; reflexivity.
Qed.

(** ** More on the API client *)

(** What a retried call does, whatever the service answers: it makes
    between one and [tries] queries, sleeping before each but the first; it
    returns the first result, or raises the failure of the last of [tries]
    failed queries. *)
Lemma retry_outcome (rq : ApiV1Client.request) (tries : nat) :
  forall (delay backoff : Z) (w : ApiV1Client.world),
    exists n,
      n < S tries
      /\ snd (ApiV1Client.retry (S tries) delay backoff (ApiV1Client.perform_query rq) w)
         = ApiV1Client.World (ApiV1Client.server w) (ApiV1Client.ncalls w + S n)
             (ApiV1Client.sleeps w ++ delays delay backoff n)
      /\ (forall i, i < n ->
            exists e, ApiV1Client.server w (ApiV1Client.ncalls w + i) rq = Raise e)
      /\ ApiV1Client.server w (ApiV1Client.ncalls w + n) rq
         = fst (ApiV1Client.retry (S tries) delay backoff (ApiV1Client.perform_query rq) w)
      /\ (forall e,
            fst (ApiV1Client.retry (S tries) delay backoff (ApiV1Client.perform_query rq) w)
            = Raise e -> n = tries).
Proof.
  induction tries as [|tries IH]; intros delay backoff w.
  - exists 0. rewrite retry_step, perform_query_eq. rewrite Nat.add_0_r.
    destruct (ApiV1Client.server w (ApiV1Client.ncalls w) rq) as [r|e]; cbn [fst snd delays];
      rewrite app_nil_r; (split; [lia|]); (split; [f_equal; lia|]);
      (split; [intros i Hi; lia|]); (split; [reflexivity|]); intros; reflexivity.
  - rewrite retry_step, perform_query_eq.
    destruct (ApiV1Client.server w (ApiV1Client.ncalls w) rq) as [r|e] eqn:E0.
    + exists 0. rewrite Nat.add_0_r, E0. cbn [fst snd delays]. rewrite app_nil_r.
      split; [lia|]. split; [f_equal; lia|]. split; [intros i Hi; lia|].
      split; [reflexivity|]. intros e. discriminate.
    + destruct (IH (delay * backoff)%Z backoff
                  (ApiV1Client.sleep delay
                     (ApiV1Client.World (ApiV1Client.server w) (S (ApiV1Client.ncalls w))
                        (ApiV1Client.sleeps w)))) as (n & Hn & Hw & Hfail & Hlast & Hraise).
      cbn [ApiV1Client.sleep ApiV1Client.server ApiV1Client.ncalls ApiV1Client.sleeps] in *.
      exists (S n). split; [lia|]. split.
      { rewrite Hw. cbn [delays]. rewrite <- app_assoc. cbn [app]. f_equal. lia. }
      split.
      { intros i Hi. destruct i as [|i].
        - exists e. rewrite Nat.add_0_r. exact E0.
        - destruct (Hfail i ltac:(lia)) as (e' & He'). exists e'. rewrite <- He'. f_equal. lia. }
      split.
      { rewrite <- Hlast. f_equal. lia. }
      intros e' He'. rewrite (Hraise e' He'). reflexivity.
Qed.

(** ** File extensions *)

Lemma list_ascii_of_string_app (a b : string) :
  list_ascii_of_string (a +:+ b) = list_ascii_of_string a ++ list_ascii_of_string b.
Proof.
  induction a as [|c a IH]; [reflexivity|].
  change (String c a +:+ b) with (String c (a +:+ b)).
  cbn [list_ascii_of_string app]. f_equal. exact IH.
Qed.

Lemma before_dot_stop (s rest : str) :
  "."%char ∉ s -> before_dot (s ++ "."%char :: rest) = s.
Proof.
  induction s as [|c s IH]; intros H; [reflexivity|]. cbn [app before_dot].
  apply not_elem_of_cons in H. destruct H as [Hc H].
  destruct (Ascii.eqb c ".") eqn:E; [apply Ascii.eqb_eq in E; congruence|].
  rewrite (IH H). reflexivity.
Qed.

Lemma before_dot_all (s : str) : "."%char ∉ s -> before_dot s = s.
Proof.
  induction s as [|c s IH]; intros H; [reflexivity|]. cbn [before_dot].
  apply not_elem_of_cons in H. destruct H as [Hc H].
  destruct (Ascii.eqb c ".") eqn:E; [apply Ascii.eqb_eq in E; congruence|].
  rewrite (IH H). reflexivity.
Qed.

Lemma extension_of (base ext : string) :
  "."%char ∉ list_ascii_of_string ext ->
  extension (base +:+ "." +:+ ext) = ext.
Proof.
  intros H. unfold extension. rewrite !list_ascii_of_string_app.
  cbn [list_ascii_of_string app]. rewrite rev_app_distr. cbn [rev].
  rewrite <- app_assoc. cbn [app].
  rewrite before_dot_stop.
  - rewrite rev_involutive. apply string_of_list_ascii_of_string.
  - intros Hin. apply H. apply list_elem_of_In. apply in_rev. apply list_elem_of_In, Hin.
Qed.

Lemma extension_no_dot (path : string) :
  "."%char ∉ list_ascii_of_string path -> extension path = path.
Proof.
  intros H. unfold extension. rewrite before_dot_all.
  - rewrite rev_involutive. apply string_of_list_ascii_of_string.
  - intros Hin. apply H. apply list_elem_of_In. apply in_rev. apply list_elem_of_In, Hin.
Qed.

(** ** More on the JSON reader *)

Lemma dumps_one_entry (key : str) (block : json) :
  dumps (JDict [(key, block)])
  = [("{"%char); dquote] ++ escape key
    ++ (dquote :: lit ": " ++ encode None 1 block ++ lit "}").
Proof.
  unfold dumps. cbn [encode map join newline_indent item_separator].
  unfold key_separator, encode_basestring_ascii.
  cbn [lit list_ascii_of_string app]. repeat rewrite <- app_assoc. cbn [app]. reflexivity.
Qed.

(** A document with one key that is a token: the key is interpolated. *)
Lemma resolve_env_vars_key (env : environ) (name dflt : str) (block : json) :
  name <> [] -> forallb name_char name = true -> default_group dflt ->
  plain name -> plain dflt ->
  well_formed block = true -> dollar_free block = true ->
  JsonDeploymentConfig.resolve_env_vars env (JDict [(token_text name dflt, block)])
  = Ok (JDict [(pick_value (environ_get env name) dflt, block)]).
Proof.
  intros Hne Hname Hd Hpn Hpd Hwf Hfree. unfold JsonDeploymentConfig.resolve_env_vars.
  cbv zeta. rewrite dumps_one_entry, (escape_token_text name dflt Hpn Hpd).
  rewrite (json_sub_one_token env _ name dflt _); try assumption.
  - rewrite <- dumps_one_entry. unfold dumps. rewrite (loads_encode None); [reflexivity|].
    cbn [well_formed forallb map fst]. rewrite Hwf.
    rewrite bool_decide_eq_true_2 by apply NoDup_singleton. reflexivity.
  - repeat constructor; discriminate.
  - constructor; [discriminate|]. repeat apply no_dollar_app;
      try (repeat constructor; discriminate). apply (encode_no_dollar None block Hfree).
Qed.

Lemma scanstring_unterminated (v : str) : scanstring (escape v ++ ["}"%char]) = None.
Proof.
  induction v as [|c v IH]; [reflexivity|]. unfold escape in *. cbn [flat_map].
  rewrite <- app_assoc, scanstring_escape_char, IH. reflexivity.
Qed.

Lemma parse_value_object_key (fuel : nat) (s : str) :
  parse_value (S fuel) ("{"%char :: dquote :: s)
  = match parse_members fuel (dquote :: s) with
    | Some (pairs, rest) => Some (JDict (dict_of_pairs pairs), rest)
    | None => None
    end.
Proof. reflexivity. Qed.

Lemma parse_value_string (fuel : nat) (s : str) :
  parse_value (S fuel) (dquote :: s)
  = match scanstring s with
    | Some (x, rest) => Some (JStr x, rest)
    | None => None
    end.
Proof. reflexivity. Qed.

Lemma parse_members_none (fuel : nat) (k : str) (c : ascii) (s : str) :
  is_ws c = false ->
  parse_value fuel (c :: s) = None ->
  parse_members (S fuel) (dquote :: escape k ++ dquote :: ":"%char :: " "%char :: c :: s)
  = None.
Proof.
  intros Hc Hv. cbn [parse_members].
  change (Ascii.eqb dquote dquote) with true. cbv iota.
  rewrite scanstring_escape.
  change (skip_ws (":"%char :: " "%char :: c :: s)) with (":"%char :: " "%char :: c :: s).
  change (Ascii.eqb ":" ":") with true. cbv iota.
  change (skip_ws (" "%char :: c :: s)) with (skip_ws (c :: s)).
  rewrite (skip_ws_start c s Hc), Hv. reflexivity.
Qed.

Lemma parse_unterminated (environment key tail : str) (fuel : nat) :
  scanstring tail = None ->
  parse_value fuel
    (lit "{" ++ encode_basestring_ascii environment ++ lit ": {"
     ++ encode_basestring_ascii key ++ lit ": " ++ dquote :: tail) = None.
Proof.
  intros Htail. unfold encode_basestring_ascii.
  cbn [lit list_ascii_of_string app]. rewrite <- !app_assoc. cbn [app].
  destruct fuel as [|fuel]; [reflexivity|]. rewrite parse_value_object_key.
  destruct fuel as [|fuel]; [reflexivity|].
  rewrite parse_members_none; [reflexivity | reflexivity |].
  destruct fuel as [|fuel]; [reflexivity|]. rewrite parse_value_object_key.
  destruct fuel as [|fuel]; [reflexivity|].
  rewrite parse_members_none; [reflexivity | reflexivity |].
  destruct fuel as [|fuel]; [reflexivity|].
  rewrite parse_value_string, Htail. reflexivity.
Qed.

(** A setting that opens a token and does not close it: the token runs
    over the closing quote of the value up to the brace of the inner dict,
    and what is left is not JSON. *)
Lemma resolve_env_vars_unclosed (env : environ) (environment key name : str) :
  forallb (fun c => negb (Ascii.eqb c "$")) environment = true ->
  forallb (fun c => negb (Ascii.eqb c "$")) key = true ->
  name <> [] -> forallb name_char name = true -> plain name ->
  JsonDeploymentConfig.resolve_env_vars env
    (one_setting environment key (lit "${" ++ name))
  = Raise JSONDecodeError.
Proof.
  intros He Hk Hne Hname Hpn. unfold JsonDeploymentConfig.resolve_env_vars. cbv zeta.
  rewrite dumps_one_setting.
  assert (escape (lit "${" ++ name) ++ dquote :: lit "}}"
          = token_text (name ++ [dquote]) [] ++ lit "}") as ->.
  { rewrite escape_app, Hpn. unfold token_text.
    cbn [lit list_ascii_of_string app]. rewrite <- !app_assoc. reflexivity. }
  rewrite (json_sub_one_token env _ (name ++ [dquote]) [] _).
  - set (v := pick_value _ _).
    assert ((lit "{" ++ encode_basestring_ascii environment ++ lit ": {"
             ++ encode_basestring_ascii key ++ lit ": " ++ [dquote]) ++ escape v ++ lit "}"
            = lit "{" ++ encode_basestring_ascii environment ++ lit ": {"
              ++ encode_basestring_ascii key ++ lit ": " ++ dquote :: escape v ++ ["}"%char])
      as -> by (rewrite <- !app_assoc; reflexivity).
    unfold loads.
    change (skip_ws (lit "{" ++ ?x)) with (lit "{" ++ x).
    rewrite (parse_unterminated environment key _ _ (scanstring_unterminated v)).
    reflexivity.
  - repeat apply no_dollar_app; try (repeat constructor; discriminate);
      apply encode_basestring_no_dollar; assumption.
  - repeat constructor; discriminate.
  - destruct name; discriminate.
  - rewrite forallb_app, Hname. reflexivity.
  - left. reflexivity.
Qed.

(** ** Splitting *)

Lemma split_char_none (sep : ascii) (s : str) :
  sep ∉ s -> split_char sep s = [s].
Proof.
  induction s as [|c s IH]; intros H; [reflexivity|]. cbn [split_char].
  apply not_elem_of_cons in H. destruct H as [Hc H].
  destruct (Ascii.eqb c sep) eqn:E; [apply Ascii.eqb_eq in E; congruence|].
  rewrite (IH H). reflexivity.
Qed.

Lemma split_char_app (sep : ascii) (a b : str) :
  sep ∉ a -> split_char sep (a ++ sep :: b) = a :: split_char sep b.
Proof.
  induction a as [|c a IH]; intros H; cbn [app split_char].
  - rewrite Ascii.eqb_refl. reflexivity.
  - apply not_elem_of_cons in H. destruct H as [Hc H].
    destruct (Ascii.eqb c sep) eqn:E; [apply Ascii.eqb_eq in E; congruence|].
    rewrite (IH H). reflexivity.
Qed.

Lemma split_char_last (sep : ascii) (pre name : str) :
  sep ∉ name ->
  exists first init, split_char sep (pre ++ sep :: name) = (first :: init) ++ [name].
Proof.
  intros Hname. induction pre as [|c pre (first & init & IH)]; cbn [app split_char].
  - rewrite Ascii.eqb_refl, (split_char_none sep name Hname). exists [], []. reflexivity.
  - rewrite IH. destruct (Ascii.eqb c sep).
    + exists [], (first :: init). reflexivity.
    + exists (c :: first), init. reflexivity.
Qed.

Lemma tag_lookup_snoc (k : str) (d : list (str * str)) (k' v' : str) :
  tag_lookup k (d ++ [(k', v')])
  = match tag_lookup k d with
    | Some v => Some v
    | None => if decide (k = k') then Some v' else None
    end.
Proof.
  induction d as [|[k0 v0] d IH]; cbn [app tag_lookup]; [reflexivity|].
  destruct (decide (k = k0)); [reflexivity | exact IH].
Qed.

Lemma tag_lookup_set (k k' v' : str) (d : list (str * str)) :
  tag_lookup k (tag_set k' v' d)
  = if decide (k = k') then Some v' else tag_lookup k d.
Proof.
  induction d as [|[k0 v0] d IH]; cbn [tag_set tag_lookup].
  - destruct (decide (k = k')); reflexivity.
  - destruct (decide (k' = k0)) as [->|Hne]; cbn [tag_lookup].
    + destruct (decide (k = k0)); reflexivity.
    + destruct (decide (k = k0)) as [->|Hk].
      * destruct (decide (k0 = k')); [congruence | reflexivity].
      * exact IH.
Qed.

Lemma tags_dict_pairs (pairs : list (str * str)) :
  Forall (fun kv => ("="%char ∉ fst kv) /\ ("="%char ∉ snd kv)) pairs ->
  forall acc, exists d,
    tags_dict (map (split_char "=") (map tag_argument pairs)) acc = Returns d
    /\ forall k, tag_lookup k d
                 = match tag_lookup k (rev pairs) with
                   | Some v => Some v
                   | None => tag_lookup k acc
                   end.
Proof.
  induction 1 as [|[k0 v0] pairs [Hk Hv] Hall IH]; intros acc.
  - exists acc. split; reflexivity.
  - cbn [fst snd] in Hk, Hv. cbn [map]. unfold tag_argument at 1. cbn [fst snd].
    rewrite (split_char_app "=" k0 v0 Hk), (split_char_none "=" v0 Hv).
    cbn [tags_dict].
    destruct (IH (tag_set k0 v0 acc)) as (d & Hd & Hlookup).
    exists d. split; [exact Hd|]. intros k. rewrite Hlookup. cbn [rev].
    rewrite tag_lookup_snoc, tag_lookup_set.
    destruct (tag_lookup k (rev pairs)); [reflexivity|].
    destruct (decide (k = k0)); reflexivity.
Qed.

Lemma tags_dict_index_error (args : list str) (arg : str) :
  In arg args -> "="%char ∉ arg ->
  forall acc, tags_dict (map (split_char "=") args) acc = Raises IndexError.
Proof.
  intros Hin Harg. induction args as [|a args IH]; [destruct Hin|]. intros acc.
  cbn [map tags_dict]. destruct Hin as [-> | Hin].
  - rewrite (split_char_none "=" arg Harg). reflexivity.
  - destruct (split_char "=" a) as [|t0 [|t1 ts]]; try reflexivity. apply IH, Hin.
Qed.

(** ** The branch name *)

Lemma get_current_branch_name_ref (env : environ) (repo : git_repo) (pre name : str) :
  env (lit "GITHUB_REF") = Some (pre ++ "/"%char :: name) -> "/"%char ∉ name ->
  get_current_branch_name env repo = Some name.
Proof.
  intros Href Hname. unfold get_current_branch_name. rewrite Href.
  destruct (split_char_last "/" pre name Hname) as (first & init & ->).
  rewrite List.last_last. reflexivity.
Qed.

(** ** Clusters *)

Lemma filter_filter_nil {A} (p q : A -> bool) (l : list A) :
  (forall x, q x = true -> p x = false) -> List.filter p (List.filter q l) = [].
Proof.
  intros H. induction l as [|x l IH]; [reflexivity|]. cbn [List.filter].
  destruct (q x) eqn:E; [|exact IH]. cbn [List.filter]. rewrite (H x E). exact IH.
Qed.

Lemma filter_none {A} (p : A -> bool) (l : list A) :
  Forall (fun x => p x = false) l -> List.filter p l = [].
Proof.
  induction 1 as [|x l Hx Hl IH]; [reflexivity|]. cbn [List.filter]. rewrite Hx. exact IH.
Qed.

Lemma filter_filter_absent {A} (p q : A -> bool) (l : list A) :
  (forall x, In x l -> p x = false) -> List.filter p (List.filter q l) = [].
Proof.
  intros H. induction l as [|x l IH]; [reflexivity|]. cbn [List.filter].
  assert (List.filter p (List.filter q l) = []) as IH'
    by (apply IH; intros y Hy; apply H; right; exact Hy).
  destruct (q x); [|exact IH']. cbn [List.filter].
  rewrite (H x (or_introl eq_refl)). exact IH'.
Qed.

Lemma filter_unique {A B} `{EqDecision B} (f : A -> B) (q : A -> bool) (l : list A) (x : A) :
  List.NoDup (map f l) -> In x l -> q x = true ->
  List.filter (fun y => bool_decide (f y = f x)) (List.filter q l) = [x].
Proof.
  intros Hnd Hin Hq. induction l as [|a l IH]; [destruct Hin|].
  cbn [map] in Hnd. apply List.NoDup_cons_iff in Hnd. destruct Hnd as [Ha Hnd].
  cbn [List.filter]. destruct Hin as [-> | Hin].
  - rewrite Hq. cbn [List.filter]. rewrite bool_decide_eq_true_2 by reflexivity.
    f_equal. apply filter_filter_absent. intros y Hy.
    apply bool_decide_eq_false_2. intros E. apply Ha. rewrite <- E. apply in_map, Hy.
  - assert (f a <> f x) as Hne by (intros E; apply Ha; rewrite E; apply in_map, Hin).
    destruct (q a); [cbn [List.filter]; rewrite (bool_decide_eq_false_2 _ Hne)|];
      apply (IH Hnd Hin).
Qed.

(** ** Sorting *)

Lemma insert_sorted_In {A} (key : A -> Z) (x y : A) (l : list A) :
  In y (insert_sorted key x l) <-> y = x \/ In y l.
Proof.
  induction l as [|a l IH]; cbn [insert_sorted In]; [intuition|].
  destruct (key a <? key x)%Z; cbn [In]; [rewrite IH|]; intuition.
Qed.

Lemma sorted_In {A} (key : A -> Z) (y : A) (l : list A) :
  In y (sorted key l) <-> In y l.
Proof.
  induction l as [|a l IH]; [reflexivity|]. unfold sorted. cbn [foldr].
  rewrite insert_sorted_In. fold (sorted key l). rewrite IH. cbn [In]. intuition.
Qed.

Lemma insert_sorted_last {A} (key : A -> Z) (x d : A) (l : list A) :
  List.last (insert_sorted key x l) d
  = if forallb (fun y => (key y <? key x)%Z) l then x else List.last l d.
Proof.
  induction l as [|a l IH]; [reflexivity|]. cbn [insert_sorted forallb].
  destruct (key a <? key x)%Z; cbn [andb]; [|reflexivity].
  change (List.last (a :: insert_sorted key x l) d)
    with (match insert_sorted key x l with
          | [] => a
          | _ :: _ => List.last (insert_sorted key x l) d
          end).
  destruct (insert_sorted key x l) eqn:E.
  - destruct l as [|b l]; [discriminate|]. cbn [insert_sorted] in E.
    destruct (key b <? key x)%Z; discriminate.
  - rewrite IH. destruct (forallb _ l) eqn:F; [reflexivity|].
    destruct l as [|b l']; [discriminate|]. reflexivity.
Qed.

Lemma sorted_last_max {A} (key : A -> Z) (d : A) (l : list A) :
  l <> [] ->
  In (List.last (sorted key l) d) l
  /\ forall y, In y l -> (key y <= key (List.last (sorted key l) d))%Z.
Proof.
  induction l as [|a l IH]; [congruence|]. intros _. unfold sorted. cbn [foldr].
  fold (sorted key l). rewrite insert_sorted_last.
  destruct (forallb (fun y => (key y <? key a)%Z) (sorted key l)) eqn:F.
  - split; [left; reflexivity|]. intros y [<- | Hy]; [lia|].
    rewrite forallb_forall in F. apply (sorted_In key) in Hy.
    apply F, Z.ltb_lt in Hy. lia.
  - destruct l as [|b l']; [discriminate|].
    destruct IH as [Hin Hmax]; [discriminate|]. split; [right; exact Hin|].
    intros y [<- | Hy]; [|apply Hmax, Hy].
    assert (exists z, In z (sorted key (b :: l')) /\ (key z <? key a)%Z = false)
      as (z & Hz & Hk).
    { clear -F. induction (sorted key (b :: l')) as [|z s IHs]; [discriminate|].
      cbn [forallb] in F. destruct (key z <? key a)%Z eqn:E.
      - destruct (IHs F) as (z' & Hz' & Hk'). exists z'. split; [right|]; assumption.
      - exists z. split; [left; reflexivity | exact E]. }
    apply Z.ltb_ge in Hk. apply sorted_In in Hz. specialize (Hmax z Hz). lia.
Qed.

Lemma sorted_nil {A} (key : A -> Z) (l : list A) : sorted key l = [] -> l = [].
Proof.
  destruct l as [|a l]; [reflexivity|]. intros H.
  assert (In a (sorted key (a :: l))) as Hin by (apply sorted_In; left; reflexivity).
  rewrite H in Hin. destruct Hin.
Qed.

(** ** Blank files *)

Lemma skip_ws_blank (s : str) : forallb is_ws s = true -> skip_ws s = [].
Proof.
  induction s as [|c s IH]; [reflexivity|]. cbn [forallb skip_ws]. intros H.
  apply andb_prop in H. destruct H as [-> H]. apply IH, H.
Qed.

Lemma loads_blank (s : str) : forallb is_ws s = true -> loads s = None.
Proof. intros H. unfold loads. rewrite (skip_ws_blank s H). reflexivity. Qed.

(** ** The claims *)

(** C1 (the code departs from the claim). On the JSON deployment file
    of the scenario, with [WS_DIR] unset, the reader interpolates the
    document and the block the claim describes is there under
    [environments] and [default]; but [get_environment] looks the name up
    among the top-level keys of the document, so [get_environment("default")]
    is [None], and the whole mapping of the environments comes back under
    the name [environments]. *)
Theorem json_get_environment_scenario :
  loads scenario_text = Some scenario_doc
  /\ JsonDeploymentConfig.resolve_env_vars no_env scenario_doc
     = Ok (JDict [(lit "environments",
                   JDict [(lit "default",
                           JDict [(lit "workspace_dir", JStr (lit "/tmp/ws"))])])])
  /\ JsonDeploymentConfig.get_environment no_env DEFAULT_DEPLOYMENT_FILE_PATH
       (lit "default") scenario_json_state
     = (Ok JNull, scenario_json_state)
  /\ JsonDeploymentConfig.get_environment no_env DEFAULT_DEPLOYMENT_FILE_PATH
       (lit "environments") scenario_json_state
     = (Ok (JDict [(lit "default", JDict [(lit "workspace_dir", JStr (lit "/tmp/ws"))])]),
        scenario_json_state).
Proof. repeat split; vm_compute; reflexivity. Qed.

(** C2 (the code departs from the claim). On the JSON deployment file of
    the scenario, whose mapping under [environments] has the one key
    [default], [get_all_environment_names] returns the top-level keys of
    the document, here the single name [environments]. *)
Theorem json_names_scenario :
  loads scenario_text = Some scenario_doc
  /\ (exists envs,
        py_get scenario_doc (lit "environments") = Ok (JDict envs)
        /\ dict_keys envs = [lit "default"])
  /\ JsonDeploymentConfig.get_all_environment_names no_env DEFAULT_DEPLOYMENT_FILE_PATH
       scenario_json_state
     = (Ok [lit "environments"], scenario_json_state).
Proof.
  split; [vm_compute; reflexivity|]. split; [|vm_compute; reflexivity].
  eexists. split; reflexivity.
Qed.

(** C3 (as amended). [get_context_status] makes one query. When the
    query raises the HTTP error it returns [None] instead of raising; any
    other exception of the query (a refused connection, a timeout) reaches
    the caller; when the query succeeds it returns the result of the
    query. *)
Theorem get_context_status_swallows_http_error (payload : json) (w : ApiV1Client.world) :
  let rq := ApiV1Client.Request ApiV1Client.GET (lit "/contexts/status") payload in
  let after := ApiV1Client.World (ApiV1Client.server w) (S (ApiV1Client.ncalls w))
                 (ApiV1Client.sleeps w) in
  (forall message,
      ApiV1Client.server w (ApiV1Client.ncalls w) rq = Raise (HTTPError message) ->
      ApiV1Client.get_context_status payload w = (Ok JNull, after))
  /\ (forall e,
        ApiV1Client.server w (ApiV1Client.ncalls w) rq = Raise e ->
        (forall message, e <> HTTPError message) ->
        ApiV1Client.get_context_status payload w = (Raise e, after))
  /\ (forall r,
        ApiV1Client.server w (ApiV1Client.ncalls w) rq = Ok r ->
        ApiV1Client.get_context_status payload w = (Ok r, after)).
Proof.
  cbv zeta. split; [|split].
  - intros message Hq. unfold ApiV1Client.get_context_status.
    rewrite perform_query_eq, Hq. reflexivity.
  - intros e Hq He. unfold ApiV1Client.get_context_status.
    rewrite perform_query_eq, Hq.
    destruct e; try reflexivity. exfalso. eapply He. reflexivity.
  - intros r Hq. unfold ApiV1Client.get_context_status.
    rewrite perform_query_eq, Hq. reflexivity.
Qed.

(** C3, witness: a first query answered by an HTTP error, a query to a
    service that refuses the connection, and a third query answered with a
    result. *)
Lemma get_context_status_swallows_http_error_witness :
  ApiV1Client.get_context_status JNull flaky_world
  = (Ok JNull, ApiV1Client.World (ApiV1Client.server flaky_world) 1 [])
  /\ ApiV1Client.get_context_status JNull dead_world
     = (Raise (ConnectionError (lit "refused")),
        ApiV1Client.World (ApiV1Client.server dead_world) 1 [])
  /\ ApiV1Client.get_context_status JNull
       (ApiV1Client.World (ApiV1Client.server flaky_world) 2 [])
     = (Ok (JStr (lit "ctx")), ApiV1Client.World (ApiV1Client.server flaky_world) 3 []).
Proof.
  split; [|split].
  - apply (proj1 (get_context_status_swallows_http_error JNull flaky_world) (lit "503")).
    reflexivity.
  - apply (proj1 (proj2 (get_context_status_swallows_http_error JNull dead_world))
             (ConnectionError (lit "refused"))).
    + reflexivity.
    + discriminate.
  - apply (proj2 (proj2 (get_context_status_swallows_http_error JNull
                           (ApiV1Client.World (ApiV1Client.server flaky_world) 2 [])))
             (JStr (lit "ctx"))).
    reflexivity.
Defined.

(** C3, counterexample: a time-out of the query is an error of the
    transport, and [get_context_status] does not return [None] on it: the
    time-out is raised to the caller. *)
Lemma timeout_reaches_caller :
  ApiV1Client.get_context_status JNull slow_world
  = (Raise (Timeout (lit "read timed out")),
     ApiV1Client.World (ApiV1Client.server slow_world) 1 [])
  /\ fst (ApiV1Client.get_context_status JNull slow_world) <> Ok JNull.
Proof. split; [vm_compute; reflexivity | vm_compute; discriminate]. Qed.

(** C4 (the code departs from the claim). With [DIR] unset, the token
    [${DIR:C:\data}] in a value of a JSON deployment document is replaced
    by the default with its backslash doubled, because the default is taken
    from the serialized text, where it is already escaped, and is escaped
    again; the YAML constructor replaces the same token by the default as
    it is written. *)
Theorem json_default_escaped_twice :
  JsonDeploymentConfig.resolve_env_vars no_env
    (JDict [(lit "k", JStr (lit "${DIR:C:\data}"))])
  = Ok (JDict [(lit "k", JStr (lit "C:\\data"))])
  /\ YamlDeploymentConfig.resolve_env_vars no_env (lit "${DIR:C:\data}") = lit "C:\data".
Proof. split; vm_compute; reflexivity. Qed.

(** C5. [create_context] attempts the query up to ten times, sleeping 5
    seconds after the first failure and five times longer after each next
    one: when all ten attempts fail, the tenth failure is raised after nine
    sleeps; when the attempt after [k] failures ([k] below ten) succeeds,
    its result is returned and no further query is made. *)
Theorem create_context_retries (payload : json) (w : ApiV1Client.world) :
  let rq := ApiV1Client.create_context_request payload in
  (forall e : nat -> exn,
      (forall i, i < 10 ->
         ApiV1Client.server w (ApiV1Client.ncalls w + i) rq = Raise (e i)) ->
      ApiV1Client.create_context payload w
      = (Raise (e 9),
         ApiV1Client.World (ApiV1Client.server w) (ApiV1Client.ncalls w + 10)
           (ApiV1Client.sleeps w
            ++ [5; 25; 125; 625; 3125; 15625; 78125; 390625; 1953125]%Z)))
  /\ (forall (k : nat) (r : json) (e : nat -> exn),
        k < 10 ->
        (forall i, i < k ->
           ApiV1Client.server w (ApiV1Client.ncalls w + i) rq = Raise (e i)) ->
        ApiV1Client.server w (ApiV1Client.ncalls w + k) rq = Ok r ->
        ApiV1Client.create_context payload w
        = (Ok r,
           ApiV1Client.World (ApiV1Client.server w) (ApiV1Client.ncalls w + S k)
             (ApiV1Client.sleeps w ++ delays 5 5 k))).
Proof.
  cbv zeta. split.
  - intros e Hfail. unfold ApiV1Client.create_context.
    rewrite (retry_exhausted _ e 9); [reflexivity|]. intros i Hi. apply Hfail. lia.
  - intros k r e Hk Hfail Hok. unfold ApiV1Client.create_context.
    apply (retry_succeeds _ r k e); assumption.
Qed.

(** C5, witness: a service that is down for all ten attempts, and one
    that answers the third attempt. *)
Lemma create_context_retries_witness :
  ApiV1Client.create_context JNull dead_world
  = (Raise (ConnectionError (lit "refused")),
     ApiV1Client.World (ApiV1Client.server dead_world) 10
       [5; 25; 125; 625; 3125; 15625; 78125; 390625; 1953125]%Z)
  /\ ApiV1Client.create_context JNull flaky_world
     = (Ok (JStr (lit "ctx")),
        ApiV1Client.World (ApiV1Client.server flaky_world) 3 [5; 25]%Z).
Proof.
  split.
  - apply (proj1 (create_context_retries JNull dead_world)
             (fun _ => ConnectionError (lit "refused"))).
    intros i Hi. reflexivity.
  - apply (proj2 (create_context_retries JNull flaky_world) 2 (JStr (lit "ctx"))
             (fun _ => HTTPError (lit "503"))).
    + lia.
    + intros i Hi. destruct i as [|[|i]]; [reflexivity | reflexivity | lia].
    + reflexivity.
Defined.

(** C6 (as amended). In both readers the pattern takes a text for one
    token exactly when the text is [${NAME}] or [${NAME:default}] with a
    non-empty NAME free of the two braces and the colon and a non-empty
    default free of the two braces and of the caret. *)
Theorem pattern_recognizes_tokens (t : str) :
  (recognizes JsonDeploymentConfig.PATTERN t = true <-> token_shape default_char t)
  /\ (recognizes YamlDeploymentConfig.PATTERN t = true <-> token_shape default_char t).
Proof.
  split.
  - apply recognizes_TOKEN.
  - unfold recognizes. rewrite findall2_same. apply recognizes_TOKEN.
Qed.

(** C6, counterexample: a default with a caret has the shape the claim
    describes, and neither pattern takes the text for a token. *)
Lemma caret_default_not_recognized :
  token_shape spec_default_char (lit "${A:b^c}")
  /\ recognizes JsonDeploymentConfig.PATTERN (lit "${A:b^c}") = false
  /\ recognizes YamlDeploymentConfig.PATTERN (lit "${A:b^c}") = false.
Proof.
  split; [|split; vm_compute; reflexivity].
  exists (lit "A"). split; [discriminate|]. split; [reflexivity|].
  right. exists (lit "b^c"). split; [discriminate|]. split; reflexivity.
Qed.

(** C7. [InfoFile.get] raises the not-configured exception when nothing
    exists at the path of the info file. When the file holds a document
    that is a dict, it returns the value the dict stores under the key, and
    [None] when the key is not among the keys of the dict. When something
    exists at the path, whatever it is, the not-configured exception is not
    raised. *)
Theorem info_file_get (item : str) (st : os_state) :
  (path_exists INFO_FILE_PATH st = false ->
   InfoFile.get item st = (Raise (Exception InfoFile.NOT_CONFIGURED), st))
  /\ (forall text d,
        files st !! INFO_FILE_PATH = Some text -> loads text = Some (JDict d) ->
        (forall v, In (item, v) d -> InfoFile.get item st = (Ok v, st))
        /\ (item ∉ map fst d -> InfoFile.get item st = (Ok JNull, st)))
  /\ (path_exists INFO_FILE_PATH st = true ->
      forall message, fst (InfoFile.get item st) <> Raise (Exception message)).
Proof.
  split; [|split].
  - intros H. unfold InfoFile.get. rewrite H. reflexivity.
  - intros text d Hf Hl.
    assert (InfoFile.get item st = (Ok (dict_get item d), st)) as Hget.
    { unfold InfoFile.get. rewrite (path_exists_file _ _ _ Hf). cbn [negb]. unfold bind.
      rewrite (read_json_file _ _ _ _ Hf Hl). reflexivity. }
    rewrite Hget. unfold dict_get.
    destruct (well_formed_dict d (loads_well_formed _ _ Hl)) as [Hnd _]. split.
    + intros v Hin. rewrite (dict_lookup_in item v d Hnd Hin). reflexivity.
    + intros Hout. rewrite (dict_lookup_not_in item d Hout). reflexivity.
  - intros H message. unfold InfoFile.get. rewrite H. cbn [negb].
    unfold bind, read_json, bind, read_text.
    destruct (files st !! INFO_FILE_PATH) as [text|].
    + destruct (loads text) as [[]|]; cbn; discriminate.
    + destruct (bool_decide (INFO_FILE_PATH ∈ dirs st)); cbn; discriminate.
Qed.

(** C7, witness: a project without an info file, and an info file with
    two keys, asked for the second key and for a key it does not have. *)
Lemma info_file_get_witness :
  InfoFile.get (lit "environments") empty_project
  = (Raise (Exception InfoFile.NOT_CONFIGURED), empty_project)
  /\ InfoFile.get (lit "profile")
       (info_state (dumps_indent 4 (JDict [(lit "environments", JDict []);
                                           (lit "profile", JStr (lit "DEFAULT"))])))
     = (Ok (JStr (lit "DEFAULT")),
        info_state (dumps_indent 4 (JDict [(lit "environments", JDict []);
                                           (lit "profile", JStr (lit "DEFAULT"))])))
  /\ InfoFile.get (lit "workspace_dir")
       (info_state (dumps_indent 4 (JDict [(lit "environments", JDict []);
                                           (lit "profile", JStr (lit "DEFAULT"))])))
     = (Ok JNull,
        info_state (dumps_indent 4 (JDict [(lit "environments", JDict []);
                                           (lit "profile", JStr (lit "DEFAULT"))])))
  /\ fst (InfoFile.get (lit "profile")
            (info_state (dumps_indent 4 (JDict [(lit "environments", JDict []);
                                                (lit "profile", JStr (lit "DEFAULT"))]))))
     <> Raise (Exception InfoFile.NOT_CONFIGURED).
Proof.
  assert (files (info_state (dumps_indent 4 (JDict [(lit "environments", JDict []);
                                                    (lit "profile", JStr (lit "DEFAULT"))])))
            !! INFO_FILE_PATH
          = Some (dumps_indent 4 (JDict [(lit "environments", JDict []);
                                         (lit "profile", JStr (lit "DEFAULT"))]))) as Hf
    by (vm_compute; reflexivity).
  assert (loads (dumps_indent 4 (JDict [(lit "environments", JDict []);
                                        (lit "profile", JStr (lit "DEFAULT"))]))
          = Some (JDict [(lit "environments", JDict []);
                         (lit "profile", JStr (lit "DEFAULT"))])) as Hl
    by (vm_compute; reflexivity).
  split; [|split; [|split]].
  - apply (proj1 (info_file_get (lit "environments") empty_project)).
    vm_compute. reflexivity.
  - apply (proj1 (proj1 (proj2 (info_file_get (lit "profile") _)) _ _ Hf Hl)).
    right. left. reflexivity.
  - apply (proj2 (proj1 (proj2 (info_file_get (lit "workspace_dir") _)) _ _ Hf Hl)).
    vm_compute. no_such_char.
  - apply (proj2 (proj2 (info_file_get (lit "profile") _))).
    vm_compute. reflexivity.
Defined.

(** C8. [get_context] returns [None], and does not raise, both when
    nothing exists at the path of the lock file and when the lock file
    holds a dict without the key [context_id]. *)
Theorem get_context_none (st : os_state) :
  (path_exists LOCK_FILE_PATH st = false ->
   ContextLockFile.get_context st = (Ok JNull, st))
  /\ (forall text d,
        files st !! LOCK_FILE_PATH = Some text -> loads text = Some (JDict d) ->
        dict_lookup (lit "context_id") d = None ->
        ContextLockFile.get_context st = (Ok JNull, st)).
Proof.
  split.
  - intros H. unfold ContextLockFile.get_context. rewrite H. reflexivity.
  - intros text d Hf Hl Hk. unfold ContextLockFile.get_context.
    rewrite (path_exists_file _ _ _ Hf). unfold bind.
    rewrite (read_json_file _ _ _ _ Hf Hl). unfold lift, py_get, dict_get.
    rewrite Hk. reflexivity.
Qed.

(** C8, witness: no lock file, and the lock file as [initialize] creates
    it. *)
Lemma get_context_none_witness :
  ContextLockFile.get_context empty_project = (Ok JNull, empty_project)
  /\ ContextLockFile.get_context (lock_state (lit "{}")) = (Ok JNull, lock_state (lit "{}")).
Proof.
  split.
  - apply (proj1 (get_context_none empty_project)). vm_compute. reflexivity.
  - apply (proj2 (get_context_none (lock_state (lit "{}"))) (lit "{}") []);
      vm_compute; reflexivity.
Defined.

(** C9. After a run of [initialize] the info file holds exactly
    [{"environments": {}}], and after any further run of [update] calls,
    each with a dict, every call has succeeded and the info file still
    holds a dict with the key [environments]. *)
Theorem initialize_then_updates_keep_environments (st st1 : os_state) :
  InfoFile.initialize st = (Ok tt, st1) ->
  read_json INFO_FILE_PATH st1 = (Ok (JDict [(lit "environments", JDict [])]), st1)
  /\ (forall partials,
        Forall (fun content => well_formed (JDict content) = true) partials ->
        exists st2 d,
          update_all partials st1 = (Ok tt, st2)
          /\ read_json INFO_FILE_PATH st2 = (Ok (JDict d), st2)
          /\ is_Some (dict_lookup (lit "environments") d)).
Proof.
  intros Hinit. destruct (initialize_inv st st1 Hinit) as [Hw Hf].
  assert (info_invariant st1) as Hinv.
  { split; [exact Hw|]. exists [(lit "environments", JDict [])].
    split; [exact Hf|]. split; [reflexivity|]. cbn. eauto. }
  split.
  - apply (read_json_file _ _ _ _ Hf). apply (loads_encode (Some 4)). reflexivity.
  - intros partials Hall.
    destruct (update_all_inv partials Hall st1 Hinv) as (st2 & Hup & Hinv2).
    destruct (info_invariant_read st2 Hinv2) as (d & Hread & Henv).
    exists st2, d. auto.
Qed.

(** C9, witness: [initialize] in a directory without a project, then an
    update that adds a key and one that replaces [environments]. *)
Lemma initialize_then_updates_keep_environments_witness :
  exists st2 d,
    update_all [[(lit "profile", JStr (lit "DEFAULT"))];
                [(lit "environments", JDict [(lit "default", JDict [])])]]
      initialized_project = (Ok tt, st2)
    /\ read_json INFO_FILE_PATH st2 = (Ok (JDict d), st2)
    /\ is_Some (dict_lookup (lit "environments") d).
Proof.
  assert (InfoFile.initialize (OsState ∅ ∅ []) = (Ok tt, initialized_project)) as Hinit
    by (vm_compute; reflexivity).
  apply (proj2 (initialize_then_updates_keep_environments _ _ Hinit)).
  repeat constructor.
Defined.

(** C10. When the lock file can be written and either does not exist or
    holds a dict, [set_context(id)] succeeds, a following [get_context]
    returns [id], and every other top-level key of the lock document has
    the value it had. *)
Theorem set_context_then_get_context (context_id : str) (st : os_state)
    (d : list (str * json)) :
  check_writable LOCK_FILE_PATH st = Ok tt ->
  holds_dict LOCK_FILE_PATH st d ->
  exists st' d',
    ContextLockFile.set_context context_id st = (Ok tt, st')
    /\ ContextLockFile.get_context st' = (Ok (JStr context_id), st')
    /\ read_json LOCK_FILE_PATH st' = (Ok (JDict d'), st')
    /\ forall k, k <> lit "context_id" -> dict_lookup k d' = dict_lookup k d.
Proof.
  intros Hw Hd. unfold ContextLockFile.set_context.
  rewrite (update_json_ok _ _ _ d Hw Hd).
  set (d' := dict_update d [(lit "context_id", JStr context_id)]).
  assert (well_formed (JDict d') = true) as Hwf.
  { apply well_formed_dict_update; [apply (holds_dict_well_formed _ _ _ Hd) | reflexivity]. }
  pose proof (read_json_written LOCK_FILE_PATH (dirs st) (files st) (stdout st) (JDict d') Hwf)
    as Hread.
  eexists _, d'. split; [reflexivity|]. split; [|split; [exact Hread|]].
  - unfold ContextLockFile.get_context.
    rewrite (path_exists_file _ _ (dumps_indent 4 (JDict d')))
      by (cbn [files]; apply lookup_insert_eq).
    unfold bind. rewrite Hread. unfold lift, py_get, dict_get.
    unfold d', dict_update. cbn [fold_left fst snd]. rewrite dict_lookup_set_eq. reflexivity.
  - intros k Hk. unfold d', dict_update. cbn [fold_left fst snd].
    apply dict_lookup_set_ne, Hk.
Qed.

(** C10, witness: a lock file that already holds another key. *)
Lemma set_context_then_get_context_witness :
  exists st' d',
    ContextLockFile.set_context (lit "ctx-1")
      (lock_state (dumps_indent 4 (JDict [(lit "owner", JStr (lit "me"))]))) = (Ok tt, st')
    /\ ContextLockFile.get_context st' = (Ok (JStr (lit "ctx-1")), st')
    /\ read_json LOCK_FILE_PATH st' = (Ok (JDict d'), st')
    /\ forall k, k <> lit "context_id" ->
         dict_lookup k d' = dict_lookup k [(lit "owner", JStr (lit "me"))].
Proof.
  apply (set_context_then_get_context (lit "ctx-1")
           (lock_state (dumps_indent 4 (JDict [(lit "owner", JStr (lit "me"))])))
           [(lit "owner", JStr (lit "me"))]).
  - vm_compute. reflexivity.
  - right. exists (dumps_indent 4 (JDict [(lit "owner", JStr (lit "me"))])).
    split; vm_compute; reflexivity.
Defined.

(** ** Further properties of the code *)

(** X1. A document written by [write_json] is read back by [read_json]
    unchanged; the write touches no other file and no directory. *)
Theorem write_json_then_read_json (content : json) (p : string) (st : os_state) :
  well_formed content = true -> check_writable p st = Ok tt ->
  exists st',
    write_json content p st = (Ok tt, st')
    /\ read_json p st' = (Ok content, st')
    /\ dirs st' = dirs st
    /\ forall q, q <> p -> files st' !! q = files st !! q.
Proof.
  intros Hwf Hw. unfold write_json. rewrite (write_text_ok _ _ _ Hw).
  eexists. split; [reflexivity|]. split; [apply read_json_written, Hwf|].
  split; [reflexivity|]. intros q Hq. cbn [files]. apply lookup_insert_ne. congruence.
Qed.

Lemma write_json_then_read_json_witness :
  exists st',
    write_json scenario_doc INFO_FILE_PATH empty_project = (Ok tt, st')
    /\ read_json INFO_FILE_PATH st' = (Ok scenario_doc, st')
    /\ dirs st' = dirs empty_project
    /\ forall q, q <> INFO_FILE_PATH -> files st' !! q = files empty_project !! q.
Proof.
  apply (write_json_then_read_json scenario_doc INFO_FILE_PATH empty_project);
    vm_compute; reflexivity.
Defined.

(** X2. [update_json] merges at the top level: afterwards the file holds
    a dict in which every key of the new content has the new value and
    every other key has the value it had (none, if the file was absent). *)
Theorem update_json_merges (new_content : list (str * json)) (p : string)
    (st : os_state) (d : list (str * json)) :
  well_formed (JDict new_content) = true ->
  check_writable p st = Ok tt -> holds_dict p st d ->
  exists st' d',
    update_json new_content p st = (Ok tt, st')
    /\ read_json p st' = (Ok (JDict d'), st')
    /\ forall k, dict_lookup k d'
                 = match dict_lookup k new_content with
                   | Some v => Some v
                   | None => dict_lookup k d
                   end.
Proof.
  intros Hnew Hw Hd. rewrite (update_json_ok _ _ _ d Hw Hd).
  eexists _, (dict_update d new_content). split; [reflexivity|]. split.
  - apply read_json_written, well_formed_dict_update; [|exact Hnew].
    apply (holds_dict_well_formed _ _ _ Hd).
  - intros k. apply dict_lookup_update. apply well_formed_dict in Hnew. apply Hnew.
Qed.

Lemma update_json_merges_witness :
  exists st' d',
    update_json [(lit "a", JInt 1)] INFO_FILE_PATH
      (info_state (dumps_indent 4 (JDict [(lit "b", JInt 2)]))) = (Ok tt, st')
    /\ read_json INFO_FILE_PATH st' = (Ok (JDict d'), st')
    /\ forall k, dict_lookup k d'
                 = match dict_lookup k [(lit "a", JInt 1)] with
                   | Some v => Some v
                   | None => dict_lookup k [(lit "b", JInt 2)]
                   end.
Proof.
  apply (update_json_merges [(lit "a", JInt 1)] INFO_FILE_PATH
           (info_state (dumps_indent 4 (JDict [(lit "b", JInt 2)]))) [(lit "b", JInt 2)]).
  - vm_compute. reflexivity.
  - vm_compute. reflexivity.
  - right. exists (dumps_indent 4 (JDict [(lit "b", JInt 2)])). split; vm_compute; reflexivity.
Defined.

(** X3. [update_json] is idempotent: a second call with the same content
    succeeds and leaves the file system as the first call left it. *)
Theorem update_json_idempotent (new_content : list (str * json)) (p : string)
    (st : os_state) (d : list (str * json)) :
  well_formed (JDict new_content) = true ->
  check_writable p st = Ok tt -> holds_dict p st d ->
  exists st',
    update_json new_content p st = (Ok tt, st')
    /\ update_json new_content p st' = (Ok tt, st').
Proof.
  intros Hnew Hw Hd. rewrite (update_json_ok _ _ _ d Hw Hd).
  eexists. split; [reflexivity|].
  assert (well_formed (JDict (dict_update d new_content)) = true) as Hwf.
  { apply well_formed_dict_update; [apply (holds_dict_well_formed _ _ _ Hd) | exact Hnew]. }
  rewrite (update_json_ok new_content p _ (dict_update d new_content)).
  - cbn [dirs files stdout]. rewrite insert_insert_eq.
    rewrite dict_update_twice by (apply well_formed_dict in Hnew; apply Hnew). reflexivity.
  - apply (check_writable_dirs _ st); [reflexivity | exact Hw].
  - apply holds_dict_written, Hwf.
Qed.

Lemma update_json_idempotent_witness :
  exists st',
    update_json [(lit "a", JInt 1)] INFO_FILE_PATH empty_project = (Ok tt, st')
    /\ update_json [(lit "a", JInt 1)] INFO_FILE_PATH st' = (Ok tt, st').
Proof.
  apply (update_json_idempotent [(lit "a", JInt 1)] INFO_FILE_PATH empty_project []).
  - vm_compute. reflexivity.
  - vm_compute. reflexivity.
  - left. split; vm_compute; reflexivity.
Defined.

(** X4. Only a missing file is tolerated by [update_json]: on a file
    that is empty or holds only white space it raises the decoding error,
    on a file whose document is not a dict it raises [AttributeError], and
    in both cases nothing is written. *)
Theorem update_json_rejects_other_files (new_content : list (str * json)) (p : string)
    (st : os_state) (text : str) :
  files st !! p = Some text ->
  (forallb is_ws text = true ->
   update_json new_content p st = (Raise JSONDecodeError, st))
  /\ (forall j, loads text = Some j -> (forall d, j <> JDict d) ->
        update_json new_content p st = (Raise AttributeError, st)).
Proof.
  intros Hf. split.
  - intros Hblank. unfold update_json, read_json, bind, read_text.
    rewrite Hf, (loads_blank text Hblank). reflexivity.
  - intros j Hl Hj. unfold update_json. rewrite (read_json_file p st text j Hf Hl).
    destruct j; try reflexivity. exfalso. eapply Hj. reflexivity.
Qed.

Lemma update_json_rejects_other_files_witness :
  update_json [] LOCK_FILE_PATH (lock_state []) = (Raise JSONDecodeError, lock_state [])
  /\ update_json [] LOCK_FILE_PATH (lock_state (lit "[]"))
     = (Raise AttributeError, lock_state (lit "[]")).
Proof.
  split.
  - apply (proj1 (update_json_rejects_other_files [] LOCK_FILE_PATH (lock_state [])
                    [] ltac:(vm_compute; reflexivity))).
    reflexivity.
  - apply (proj2 (update_json_rejects_other_files [] LOCK_FILE_PATH (lock_state (lit "[]"))
                    (lit "[]") ltac:(vm_compute; reflexivity)) (JList [])).
    + vm_compute. reflexivity.
    + discriminate.
Defined.

(** X5. Without the [.dbx] directory [set_context] cannot create the lock
    file: it raises [FileNotFoundError] and changes nothing. *)
Theorem set_context_without_directory (context_id : str) (st : os_state) :
  path_exists DBX_PATH st = false ->
  path_exists LOCK_FILE_PATH st = false ->
  ContextLockFile.set_context context_id st = (Raise FileNotFoundError, st).
Proof.
  intros Hdbx Hlock.
  apply path_exists_false in Hdbx, Hlock.
  destruct Hdbx as [Hdbx_f Hdbx_d]. destruct Hlock as [Hlock_f Hlock_d].
  unfold ContextLockFile.set_context, update_json, read_json, bind, read_text.
  rewrite Hlock_f. rewrite (bool_decide_eq_false_2 _ Hlock_d).
  unfold write_json, write_text, check_writable.
  rewrite (bool_decide_eq_false_2 _ Hlock_d), dirname_lock.
  rewrite (bool_decide_eq_false_2 (DBX_PATH = ""%string)) by discriminate.
  rewrite (bool_decide_eq_false_2 _ Hdbx_d). cbn [orb].
  rewrite Hdbx_f. rewrite bool_decide_eq_false_2; [reflexivity|].
  intros [x Hx]. discriminate Hx.
Qed.

Lemma set_context_without_directory_witness :
  ContextLockFile.set_context (lit "ctx") (OsState ∅ ∅ [])
  = (Raise FileNotFoundError, OsState ∅ ∅ []).
Proof.
  apply (set_context_without_directory (lit "ctx") (OsState ∅ ∅ [])); vm_compute; reflexivity.
Defined.

(** X6. [get_context_status] swallows the HTTP error only: any other
    exception of the query (a refused connection, a timeout) reaches the
    caller. *)
Theorem get_context_status_propagates_other (payload : json) (w : ApiV1Client.world)
    (e : exn) :
  is_HTTPError e = false ->
  ApiV1Client.server w (ApiV1Client.ncalls w)
    (ApiV1Client.Request ApiV1Client.GET (lit "/contexts/status") payload) = Raise e ->
  ApiV1Client.get_context_status payload w
  = (Raise e, ApiV1Client.World (ApiV1Client.server w) (S (ApiV1Client.ncalls w))
                (ApiV1Client.sleeps w)).
Proof.
  intros He Hq. unfold ApiV1Client.get_context_status. rewrite perform_query_eq, Hq, He.
  reflexivity.
Qed.

Lemma get_context_status_propagates_other_witness :
  ApiV1Client.get_context_status JNull dead_world
  = (Raise (ConnectionError (lit "refused")),
     ApiV1Client.World (ApiV1Client.server dead_world) 1 []).
Proof.
  apply (get_context_status_propagates_other JNull dead_world
           (ConnectionError (lit "refused"))); reflexivity.
Defined.

(** X7. Whatever the service answers, [create_context] makes at least one
    and at most ten queries, sleeps before each query but the first with
    delays 5, 25, 125, ..., returns the answer of its last query, and raises
    only when that query was the tenth; every earlier query had failed. *)
Theorem create_context_outcome (payload : json) (w : ApiV1Client.world) :
  exists n,
    n < 10
    /\ snd (ApiV1Client.create_context payload w)
       = ApiV1Client.World (ApiV1Client.server w) (ApiV1Client.ncalls w + S n)
           (ApiV1Client.sleeps w ++ delays 5 5 n)
    /\ (forall i, i < n ->
          exists e, ApiV1Client.server w (ApiV1Client.ncalls w + i)
                      (ApiV1Client.create_context_request payload) = Raise e)
    /\ ApiV1Client.server w (ApiV1Client.ncalls w + n)
         (ApiV1Client.create_context_request payload)
       = fst (ApiV1Client.create_context payload w)
    /\ (forall e, fst (ApiV1Client.create_context payload w) = Raise e -> n = 9).
Proof.
  unfold ApiV1Client.create_context.
  apply (retry_outcome (ApiV1Client.create_context_request payload) 9 5 5 w).
Qed.

(** X8. [InfoFile.initialize] in a directory without a project creates
    the [.dbx] directory, an empty lock document and the info document
    [{"environments": {}}], and echoes one message. *)
Theorem initialize_fresh (st : os_state) :
  path_exists DBX_PATH st = false ->
  path_exists LOCK_FILE_PATH st = false ->
  INFO_FILE_PATH ∉ dirs st ->
  InfoFile.initialize st
  = (Ok tt,
     OsState ({[ DBX_PATH ]} ∪ dirs st)
       (<[INFO_FILE_PATH := dumps_indent 4 (JDict [(lit "environments", JDict [])])]>
          (<[LOCK_FILE_PATH := lit "{}"]> (files st)))
       (stdout st ++ [lit "[dbx] dbx directory is not present, creating it"])).
Proof.
  intros Hdbx Hlock Hinfo.
  pose proof (path_exists_false _ _ Hdbx) as [Hdbx_f Hdbx_d].
  pose proof (path_exists_false _ _ Hlock) as [Hlock_f Hlock_d].
  unfold InfoFile.initialize, bind.
  assert (InfoFile._create_dir st
          = (Ok tt, OsState ({[ DBX_PATH ]} ∪ dirs st) (files st)
                      (stdout st ++ [lit "[dbx] dbx directory is not present, creating it"])))
    as ->.
  { unfold InfoFile._create_dir. rewrite Hdbx. cbn [negb]. unfold bind, dbx_echo, mkdir.
    unfold path_exists in *. cbn [dirs files]. rewrite Hdbx.
    unfold check_writable. cbn [dirs files].
    rewrite (bool_decide_eq_false_2 _ Hdbx_d), dirname_dbx.
    rewrite (bool_decide_eq_true_2 (""%string = ""%string)) by reflexivity. reflexivity. }
  assert (forall p text fs out,
             dirname p = DBX_PATH -> p ∉ ({[ DBX_PATH ]} ∪ dirs st : gset string) ->
             write_text p text (OsState ({[ DBX_PATH ]} ∪ dirs st) fs out)
             = (Ok tt, OsState ({[ DBX_PATH ]} ∪ dirs st) (<[p := text]> fs) out)) as Hwrite.
  { intros p text fs out Hdir Hp. apply write_text_ok. unfold check_writable. cbn [dirs].
    rewrite (bool_decide_eq_false_2 _ Hp), Hdir.
    rewrite (bool_decide_eq_true_2 (DBX_PATH ∈ ({[ DBX_PATH ]} ∪ dirs st : gset string)))
      by set_solver.
    rewrite orb_true_r. reflexivity. }
  assert (LOCK_FILE_PATH ∉ ({[ DBX_PATH ]} ∪ dirs st : gset string)) as Hlock_d'.
  { intros Hin. apply elem_of_union in Hin. destruct Hin as [Hin|Hin]; [|contradiction].
    apply elem_of_singleton in Hin. discriminate Hin. }
  assert (INFO_FILE_PATH ∉ ({[ DBX_PATH ]} ∪ dirs st : gset string)) as Hinfo_d'.
  { intros Hin. apply elem_of_union in Hin. destruct Hin as [Hin|Hin]; [|contradiction].
    apply elem_of_singleton in Hin. discriminate Hin. }
  unfold InfoFile._create_lock_file, path_exists. cbn [dirs files].
  rewrite (bool_decide_eq_false_2 _ Hlock_d'), Hlock_f.
  rewrite (bool_decide_eq_false_2 (is_Some None)) by (intros [x Hx]; discriminate Hx).
  cbn [orb negb]. rewrite (Hwrite _ _ _ _ dirname_lock Hlock_d').
  unfold write_json. rewrite (Hwrite _ _ _ _ dirname_info Hinfo_d'). reflexivity.
Qed.

Lemma initialize_fresh_witness :
  InfoFile.initialize (OsState ∅ ∅ []) = (Ok tt, initialized_project).
Proof.
  assert (path_exists DBX_PATH (OsState ∅ ∅ []) = false) as H1 by (vm_compute; reflexivity).
  assert (path_exists LOCK_FILE_PATH (OsState ∅ ∅ []) = false) as H2
    by (vm_compute; reflexivity).
  assert (INFO_FILE_PATH ∉ dirs (OsState ∅ ∅ [])) as H3 by apply not_elem_of_empty.
  rewrite (initialize_fresh (OsState ∅ ∅ []) H1 H2 H3).
  vm_compute. reflexivity.
Defined.

(** X9. A run of [initialize] keeps a lock document that is already
    there: the context bound to the working copy survives it. *)
Theorem initialize_keeps_lock_file (st st1 : os_state) (text : str) :
  files st !! LOCK_FILE_PATH = Some text ->
  InfoFile.initialize st = (Ok tt, st1) ->
  files st1 !! LOCK_FILE_PATH = Some text.
Proof.
  intros Hlock. unfold InfoFile.initialize, bind.
  destruct (InfoFile._create_dir st) as [[[]|e1] s1] eqn:Hdir; [|discriminate].
  apply create_dir_files in Hdir.
  unfold InfoFile._create_lock_file.
  rewrite (path_exists_file LOCK_FILE_PATH s1 text) by (rewrite Hdir; exact Hlock).
  cbn [negb]. unfold write_json. intros H. apply write_text_inv in H.
  destruct H as [_ ->]. cbn [files]. rewrite lookup_insert_ne by discriminate.
  rewrite Hdir. exact Hlock.
Qed.

Lemma initialize_keeps_lock_file_witness :
  files (snd (InfoFile.initialize (lock_state (lit "{}")))) !! LOCK_FILE_PATH
  = Some (lit "{}").
Proof.
  apply (initialize_keeps_lock_file (lock_state (lit "{}")) _ (lit "{}"));
    vm_compute; reflexivity.
Defined.

(** X10. When [.dbx] exists as a regular file, [initialize] neither
    creates the directory nor the documents: it raises
    [NotADirectoryError] and changes nothing. *)
Theorem initialize_not_a_directory (st : os_state) (text : str) :
  files st !! DBX_PATH = Some text -> DBX_PATH ∉ dirs st ->
  path_exists LOCK_FILE_PATH st = false ->
  InfoFile.initialize st = (Raise NotADirectoryError, st).
Proof.
  intros Hdbx Hdbx_d Hlock.
  pose proof (path_exists_false _ _ Hlock) as [Hlock_f Hlock_d].
  unfold InfoFile.initialize, bind, InfoFile._create_dir.
  rewrite (path_exists_file _ _ _ Hdbx). cbn [negb].
  unfold InfoFile._create_lock_file. rewrite Hlock. cbn [negb].
  unfold write_text, check_writable.
  rewrite (bool_decide_eq_false_2 _ Hlock_d), dirname_lock.
  rewrite (bool_decide_eq_false_2 (DBX_PATH = ""%string)) by discriminate.
  rewrite (bool_decide_eq_false_2 _ Hdbx_d). cbn [orb].
  rewrite bool_decide_eq_true_2 by (rewrite Hdbx; eauto). reflexivity.
Qed.

Lemma initialize_not_a_directory_witness :
  InfoFile.initialize (OsState ∅ {[ DBX_PATH := lit "notes" ]} [])
  = (Raise NotADirectoryError, OsState ∅ {[ DBX_PATH := lit "notes" ]} []).
Proof.
  apply (initialize_not_a_directory (OsState ∅ {[ DBX_PATH := lit "notes" ]} []) (lit "notes")).
  - vm_compute. reflexivity.
  - apply not_elem_of_empty.
  - vm_compute. reflexivity.
Defined.

(** X11. After [InfoFile.update(content)], [InfoFile.get(key)] returns
    the value [content] has for the key and, for a key [content] does not
    have, the value it returned before (or [None]): the merge is shallow, a
    nested mapping is replaced as a whole. *)
Theorem update_then_get (content : list (str * json)) (st : os_state)
    (d : list (str * json)) :
  well_formed (JDict content) = true ->
  check_writable INFO_FILE_PATH st = Ok tt -> holds_dict INFO_FILE_PATH st d ->
  exists st',
    InfoFile.update content st = (Ok tt, st')
    /\ forall item,
         InfoFile.get item st'
         = (Ok (match dict_lookup item content with
                | Some v => v
                | None => dict_get item d
                end), st').
Proof.
  intros Hc Hw Hd. unfold InfoFile.update. rewrite (update_json_ok _ _ _ d Hw Hd).
  eexists. split; [reflexivity|]. intros item.
  assert (well_formed (JDict (dict_update d content)) = true) as Hwf.
  { apply well_formed_dict_update; [apply (holds_dict_well_formed _ _ _ Hd) | exact Hc]. }
  unfold InfoFile.get.
  rewrite (path_exists_file _ _ (dumps_indent 4 (JDict (dict_update d content))))
    by (cbn [files]; apply lookup_insert_eq).
  cbn [negb]. unfold bind. rewrite (read_json_written _ _ _ _ _ Hwf).
  unfold lift, py_get, dict_get.
  rewrite dict_lookup_update by (apply well_formed_dict in Hc; apply Hc).
  destruct (dict_lookup item content); reflexivity.
Qed.

Lemma update_then_get_witness :
  exists st',
    InfoFile.update [(lit "environments", JDict [(lit "default", JDict [])])]
      initialized_project = (Ok tt, st')
    /\ forall item,
         InfoFile.get item st'
         = (Ok (match dict_lookup item
                        [(lit "environments", JDict [(lit "default", JDict [])])] with
                | Some v => v
                | None => dict_get item [(lit "environments", JDict [])]
                end), st').
Proof.
  apply (update_then_get [(lit "environments", JDict [(lit "default", JDict [])])]
           initialized_project [(lit "environments", JDict [])]).
  - vm_compute. reflexivity.
  - vm_compute. reflexivity.
  - right. exists (dumps_indent 4 (JDict [(lit "environments", JDict [])])).
    split; vm_compute; reflexivity.
Defined.

(** X12. Of two [set_context] calls the later wins: the lock file ends up
    exactly as if only the second call had been made. *)
Theorem set_context_twice (first second : str) (st : os_state) (d : list (str * json)) :
  check_writable LOCK_FILE_PATH st = Ok tt -> holds_dict LOCK_FILE_PATH st d ->
  exists st1 st2,
    ContextLockFile.set_context first st = (Ok tt, st1)
    /\ ContextLockFile.set_context second st1 = (Ok tt, st2)
    /\ ContextLockFile.set_context second st = (Ok tt, st2)
    /\ ContextLockFile.get_context st2 = (Ok (JStr second), st2).
Proof.
  intros Hw Hd. unfold ContextLockFile.set_context.
  rewrite !(update_json_ok _ _ st d Hw Hd).
  assert (forall v, well_formed (JDict (dict_update d [(lit "context_id", JStr v)])) = true)
    as Hwf.
  { intros v. apply well_formed_dict_update;
      [apply (holds_dict_well_formed _ _ _ Hd) | reflexivity]. }
  eexists _, _. split; [reflexivity|]. split; [|split; [reflexivity|]].
  - rewrite (update_json_ok _ LOCK_FILE_PATH _
               (dict_update d [(lit "context_id", JStr first)])).
    + cbn [dirs files stdout]. rewrite insert_insert_eq.
      unfold dict_update. cbn [fold_left fst snd]. rewrite dict_set_set. reflexivity.
    + apply (check_writable_dirs _ st); [reflexivity | exact Hw].
    + apply holds_dict_written, Hwf.
  - unfold ContextLockFile.get_context.
    rewrite (path_exists_file _ _
               (dumps_indent 4 (JDict (dict_update d [(lit "context_id", JStr second)]))))
      by (cbn [files]; apply lookup_insert_eq).
    unfold bind. rewrite (read_json_written _ _ _ _ _ (Hwf second)).
    unfold lift, py_get, dict_get, dict_update. cbn [fold_left fst snd].
    rewrite dict_lookup_set_eq. reflexivity.
Qed.

Lemma set_context_twice_witness :
  exists st1 st2,
    ContextLockFile.set_context (lit "a") (lock_state (lit "{}")) = (Ok tt, st1)
    /\ ContextLockFile.set_context (lit "b") st1 = (Ok tt, st2)
    /\ ContextLockFile.set_context (lit "b") (lock_state (lit "{}")) = (Ok tt, st2)
    /\ ContextLockFile.get_context st2 = (Ok (JStr (lit "b")), st2).
Proof.
  apply (set_context_twice (lit "a") (lit "b") (lock_state (lit "{}")) []).
  - vm_compute. reflexivity.
  - right. exists (lit "{}"). split; vm_compute; reflexivity.
Defined.

(** X13. [get_deployment_config] goes by the text after the last dot of
    the path: [json] gives the JSON reader, [yml] and [yaml] the YAML
    reader, any other extension raises with the extension in the message;
    a path without any dot is judged by its whole text. *)
Theorem get_deployment_config_by_extension (base : string) :
  get_deployment_config (base +:+ ".json") = Ok (JsonConfig (base +:+ ".json"))
  /\ get_deployment_config (base +:+ ".yml") = Ok (YamlConfig (base +:+ ".yml"))
  /\ get_deployment_config (base +:+ ".yaml") = Ok (YamlConfig (base +:+ ".yaml"))
  /\ (forall ext,
        "."%char ∉ list_ascii_of_string ext ->
        ext <> "json"%string -> ext <> "yml"%string -> ext <> "yaml"%string ->
        get_deployment_config (base +:+ "." +:+ ext)
        = Raise (Exception (lit "Undefined config file handler for extension: "
                            ++ list_ascii_of_string ext)))
  /\ (forall path, "."%char ∉ list_ascii_of_string path -> extension path = path).
Proof.
  assert (forall ext, "."%char ∉ list_ascii_of_string ext ->
            extension (base +:+ "." +:+ ext) = ext) as Hext
    by (intros ext; apply extension_of).
  split; [|split; [|split; [|split]]].
  - assert (extension (base +:+ ".json") = "json"%string) as E
      by (apply (Hext "json"%string); vm_compute; no_such_char).
    unfold get_deployment_config. rewrite E. reflexivity.
  - assert (extension (base +:+ ".yml") = "yml"%string) as E
      by (apply (Hext "yml"%string); vm_compute; no_such_char).
    unfold get_deployment_config. rewrite E. reflexivity.
  - assert (extension (base +:+ ".yaml") = "yaml"%string) as E
      by (apply (Hext "yaml"%string); vm_compute; no_such_char).
    unfold get_deployment_config. rewrite E. reflexivity.
  - intros ext Hdot Hj Hy Hya. unfold get_deployment_config. rewrite (Hext ext Hdot).
    apply String.eqb_neq in Hj, Hy, Hya. rewrite Hj, Hy, Hya. reflexivity.
  - apply extension_no_dot.
Qed.

Lemma get_deployment_config_by_extension_witness :
  get_deployment_config "deploy.toml"
  = Raise (Exception (lit "Undefined config file handler for extension: toml"))
  /\ extension "json" = "json"%string.
Proof.
  split.
  - apply (proj1 (proj2 (proj2 (proj2 (get_deployment_config_by_extension "deploy"))))
             "toml"%string); try discriminate.
    vm_compute. no_such_char.
  - apply (proj2 (proj2 (proj2 (proj2 (get_deployment_config_by_extension "deploy"))))).
    vm_compute. no_such_char.
Defined.

(** X14. The JSON interpolation leaves a document without dollar signs
    as it is: serializing, substituting and parsing again returns the
    document. *)
Theorem json_resolve_env_vars_without_tokens (env : environ) (doc : json) :
  well_formed doc = true -> dollar_free doc = true ->
  JsonDeploymentConfig.resolve_env_vars env doc = Ok doc.
Proof. apply resolve_env_vars_token_free. Qed.

Lemma json_resolve_env_vars_without_tokens_witness :
  JsonDeploymentConfig.resolve_env_vars no_env
    (JDict [(lit "default", JDict [(lit "retries", JInt 3); (lit "tags", JList [JNull])])])
  = Ok (JDict [(lit "default", JDict [(lit "retries", JInt 3); (lit "tags", JList [JNull])])]).
Proof.
  apply (json_resolve_env_vars_without_tokens no_env); vm_compute; reflexivity.
Defined.

(** X15. In the JSON reader a token in a setting is replaced by the value
    of its variable when that is set and not empty, whatever characters the
    value has (the escaping done for the substitution is undone by the
    parse); else by the default, when it is made of characters JSON leaves
    unescaped; else by the empty string. *)
Theorem json_setting_resolved (env : environ) (environment key name : str) :
  forallb (fun c => negb (Ascii.eqb c "$")) environment = true ->
  forallb (fun c => negb (Ascii.eqb c "$")) key = true ->
  name <> [] -> forallb name_char name = true -> plain name ->
  (forall c value dflt,
      env name = Some (c :: value) -> default_group dflt -> plain dflt ->
      JsonDeploymentConfig.resolve_env_vars env
        (one_setting environment key (token_text name dflt))
      = Ok (one_setting environment key (c :: value)))
  /\ (forall d,
        (env name = None \/ env name = Some []) ->
        d <> [] -> forallb default_char d = true -> plain d ->
        JsonDeploymentConfig.resolve_env_vars env
          (one_setting environment key (token_text name (":"%char :: d)))
        = Ok (one_setting environment key d))
  /\ ((env name = None \/ env name = Some []) ->
      JsonDeploymentConfig.resolve_env_vars env
        (one_setting environment key (token_text name []))
      = Ok (one_setting environment key [])).
Proof.
  intros He Hk Hne Hname Hpn. split; [|split].
  - intros c value dflt Henv Hd Hpd.
    rewrite (resolve_env_vars_setting env environment key name dflt) by assumption.
    unfold environ_get. rewrite Henv. reflexivity.
  - intros d Henv Hdne Hd Hpd.
    rewrite (resolve_env_vars_setting env environment key name (":"%char :: d));
      try assumption.
    + unfold environ_get. destruct Henv as [-> | ->]; reflexivity.
    + right. exists d. auto.
    + unfold plain in *. change (":"%char :: d) with ([":"%char] ++ d).
      rewrite escape_app, Hpd. reflexivity.
  - intros Henv.
    rewrite (resolve_env_vars_setting env environment key name []); try assumption.
    + unfold environ_get. destruct Henv as [-> | ->]; reflexivity.
    + left. reflexivity.
    + reflexivity.
Qed.

Lemma json_setting_resolved_witness :
  JsonDeploymentConfig.resolve_env_vars
    (fun k => if decide (k = lit "WS_DIR") then Some (lit "C:\prod") else None)
    (one_setting (lit "default") (lit "workspace_dir") (lit "${WS_DIR:/tmp/ws}"))
  = Ok (one_setting (lit "default") (lit "workspace_dir") (lit "C:\prod"))
  /\ JsonDeploymentConfig.resolve_env_vars no_env
       (one_setting (lit "default") (lit "workspace_dir") (lit "${WS_DIR:/tmp/ws}"))
     = Ok (one_setting (lit "default") (lit "workspace_dir") (lit "/tmp/ws")).
Proof.
  split.
  - apply (proj1 (json_setting_resolved
                    (fun k => if decide (k = lit "WS_DIR") then Some (lit "C:\prod") else None)
                    (lit "default") (lit "workspace_dir") (lit "WS_DIR")
                    eq_refl eq_refl ltac:(discriminate) eq_refl eq_refl)
             "C"%char (lit ":\prod") (lit ":/tmp/ws")).
    + reflexivity.
    + right. exists (lit "/tmp/ws"). split; [reflexivity | split; [discriminate | reflexivity]].
    + reflexivity.
  - apply (proj1 (proj2 (json_setting_resolved no_env
                    (lit "default") (lit "workspace_dir") (lit "WS_DIR")
                    eq_refl eq_refl ltac:(discriminate) eq_refl eq_refl))
             (lit "/tmp/ws")).
    + left. reflexivity.
    + discriminate.
    + reflexivity.
    + reflexivity.
Defined.

(** X16. The JSON reader interpolates keys as well: for a file whose
    single top-level key is a token, [get_all_environment_names] returns
    the value the rule picks for that token, so the names depend on the
    process environment. *)
Theorem json_names_interpolated (env : environ) (p : string) (st : os_state)
    (text name dflt : str) (block : json) :
  files st !! p = Some text ->
  loads text = Some (JDict [(token_text name dflt, block)]) ->
  name <> [] -> forallb name_char name = true -> default_group dflt ->
  plain name -> plain dflt -> dollar_free block = true ->
  JsonDeploymentConfig.get_all_environment_names env p st
  = (Ok [pick_value (environ_get env name) dflt], st).
Proof.
  intros Hf Hl Hne Hname Hd Hpn Hpd Hfree.
  unfold JsonDeploymentConfig.get_all_environment_names, bind.
  rewrite (read_json_file p st text _ Hf Hl). unfold lift.
  pose proof (loads_well_formed _ _ Hl) as Hwf. cbn [well_formed forallb] in Hwf.
  apply andb_prop in Hwf. destruct Hwf as [_ Hwf]. apply andb_prop in Hwf.
  destruct Hwf as [Hwf _].
  rewrite (resolve_env_vars_key env name dflt block) by assumption. reflexivity.
Qed.

Lemma json_names_interpolated_witness :
  JsonDeploymentConfig.get_all_environment_names
    (fun k => if decide (k = lit "ENV") then Some (lit "prod") else None)
    DEFAULT_DEPLOYMENT_FILE_PATH
    (OsState ∅ {[ DEFAULT_DEPLOYMENT_FILE_PATH :=
                    dumps (JDict [(lit "${ENV:dev}", JDict [])]) ]} [])
  = (Ok [lit "prod"],
     OsState ∅ {[ DEFAULT_DEPLOYMENT_FILE_PATH :=
                    dumps (JDict [(lit "${ENV:dev}", JDict [])]) ]} []).
Proof.
  etransitivity.
  - apply (json_names_interpolated
             (fun k => if decide (k = lit "ENV") then Some (lit "prod") else None)
             DEFAULT_DEPLOYMENT_FILE_PATH _
             (dumps (JDict [(lit "${ENV:dev}", JDict [])])) (lit "ENV") (lit ":dev")
             (JDict []));
      try (vm_compute; reflexivity); try discriminate.
    right. exists (lit "dev"). split; [reflexivity | split; [discriminate | reflexivity]].
  - vm_compute. reflexivity.
Defined.

(** X17. A setting of a JSON document that opens a token and does not
    close it makes the reader raise the decoding error although the file is
    valid JSON: the token runs over the closing quote of the value. *)
Theorem json_unclosed_token_raises (env : environ) (p : string) (st : os_state)
    (text environment key name : str) :
  files st !! p = Some text ->
  loads text = Some (one_setting environment key (lit "${" ++ name)) ->
  forallb (fun c => negb (Ascii.eqb c "$")) environment = true ->
  forallb (fun c => negb (Ascii.eqb c "$")) key = true ->
  name <> [] -> forallb name_char name = true -> plain name ->
  JsonDeploymentConfig.get_environment env p environment st = (Raise JSONDecodeError, st).
Proof.
  intros Hf Hl He Hk Hne Hname Hpn.
  unfold JsonDeploymentConfig.get_environment, bind.
  rewrite (read_json_file p st text _ Hf Hl). unfold lift.
  rewrite (resolve_env_vars_unclosed env environment key name) by assumption. reflexivity.
Qed.

Lemma json_unclosed_token_raises_witness :
  JsonDeploymentConfig.get_environment no_env DEFAULT_DEPLOYMENT_FILE_PATH (lit "default")
    (OsState ∅ {[ DEFAULT_DEPLOYMENT_FILE_PATH :=
                    dumps (one_setting (lit "default") (lit "dir") (lit "${HOME")) ]} [])
  = (Raise JSONDecodeError,
     OsState ∅ {[ DEFAULT_DEPLOYMENT_FILE_PATH :=
                    dumps (one_setting (lit "default") (lit "dir") (lit "${HOME")) ]} []).
Proof.
  apply (json_unclosed_token_raises no_env DEFAULT_DEPLOYMENT_FILE_PATH _
           (dumps (one_setting (lit "default") (lit "dir") (lit "${HOME")))
           (lit "default") (lit "dir") (lit "HOME"));
    try (vm_compute; reflexivity); discriminate.
Defined.

(** X18. The YAML constructor, on a scalar with one token and no other
    dollar sign, replaces the token by the value of its variable when that
    is set and not empty, else by the default without its colon, else by
    nothing; a scalar without a dollar sign is returned as it is. *)
Theorem yaml_scalar_resolved (env : environ) (pre name post : str) :
  no_dollar pre -> no_dollar post ->
  name <> [] -> forallb name_char name = true ->
  (forall c value dflt,
      env name = Some (c :: value) -> default_group dflt ->
      YamlDeploymentConfig.resolve_env_vars env (pre ++ token_text name dflt ++ post)
      = pre ++ (c :: value) ++ post)
  /\ (forall d,
        (env name = None \/ env name = Some []) ->
        d <> [] -> forallb default_char d = true ->
        YamlDeploymentConfig.resolve_env_vars env
          (pre ++ token_text name (":"%char :: d) ++ post)
        = pre ++ d ++ post)
  /\ ((env name = None \/ env name = Some []) ->
      YamlDeploymentConfig.resolve_env_vars env (pre ++ token_text name [] ++ post)
      = pre ++ post)
  /\ YamlDeploymentConfig.resolve_env_vars env pre = pre.
Proof.
  intros Hpre Hpost Hne Hname. split; [|split; [|split]].
  - intros c value dflt Henv Hd.
    rewrite (yaml_resolve_one_token env pre name dflt post) by assumption.
    unfold environ_get. rewrite Henv. reflexivity.
  - intros d Henv Hdne Hd.
    rewrite (yaml_resolve_one_token env pre name (":"%char :: d) post); try assumption.
    + unfold environ_get. destruct Henv as [-> | ->]; reflexivity.
    + right. exists d. auto.
  - intros Henv.
    rewrite (yaml_resolve_one_token env pre name [] post); try assumption.
    + unfold environ_get. destruct Henv as [-> | ->]; reflexivity.
    + left. reflexivity.
  - unfold YamlDeploymentConfig.resolve_env_vars. rewrite findall2_same.
    unfold JsonDeploymentConfig.PATTERN.
    assert (Re.findall2 TOKEN pre = []) as ->; [|reflexivity].
    clear -Hpre. induction Hpre as [|a pre Ha Hpre IH]; [reflexivity|].
    rewrite findall2_TOKEN, (token_at_other a pre Ha). exact IH.
Qed.

Lemma yaml_scalar_resolved_witness :
  YamlDeploymentConfig.resolve_env_vars no_env (lit "dbfs:/${ROOT:shared}/artifacts")
  = lit "dbfs:/shared/artifacts".
Proof.
  apply (proj1 (proj2 (yaml_scalar_resolved no_env (lit "dbfs:/") (lit "ROOT")
                         (lit "/artifacts")
                         ltac:(repeat constructor; discriminate)
                         ltac:(repeat constructor; discriminate)
                         ltac:(discriminate) eq_refl))
           (lit "shared")).
  - left. reflexivity.
  - discriminate.
  - reflexivity.
Defined.

(** X19. The pattern of the YAML reader, with its lazy [.*?] before and
    after, finds in every text the same tokens, with the same groups, as
    the pattern of the JSON reader. *)
Theorem patterns_find_same_tokens (s : str) :
  Re.findall2 YamlDeploymentConfig.PATTERN s = Re.findall2 JsonDeploymentConfig.PATTERN s.
Proof. apply findall2_same. Qed.

(** X20. [parse_multiple] on arguments of the form [key=value], where
    neither part has an equals sign, returns a dict in which every key has
    the value of the LAST argument with that key, and no other key. *)
Theorem parse_multiple_last_wins (pairs : list (str * str)) :
  Forall (fun kv => ("="%char ∉ fst kv) /\ ("="%char ∉ snd kv)) pairs ->
  exists d,
    parse_multiple (map tag_argument pairs) = Returns d
    /\ forall k, tag_lookup k d = tag_lookup k (rev pairs).
Proof.
  intros H. destruct (tags_dict_pairs pairs H []) as (d & Hd & Hl).
  exists d. split; [exact Hd|]. intros k. rewrite Hl.
  destruct (tag_lookup k (rev pairs)); reflexivity.
Qed.

Lemma parse_multiple_last_wins_witness :
  exists d,
    parse_multiple [lit "team=data"; lit "env=dev"; lit "team=ml"] = Returns d
    /\ forall k, tag_lookup k d
                 = tag_lookup k [(lit "team", lit "ml"); (lit "env", lit "dev");
                                 (lit "team", lit "data")].
Proof.
  apply (parse_multiple_last_wins
           [(lit "team", lit "data"); (lit "env", lit "dev"); (lit "team", lit "ml")]).
  repeat constructor; cbn [fst snd]; vm_compute; no_such_char.
Defined.

(** X21. One argument without an equals sign makes [parse_multiple] raise
    [IndexError], whatever the other arguments are. *)
Theorem parse_multiple_without_equals (before after : list str) (arg : str) :
  "="%char ∉ arg ->
  parse_multiple (before ++ arg :: after) = Raises IndexError.
Proof.
  intros H. unfold parse_multiple. apply (tags_dict_index_error _ arg); [|exact H].
  apply in_or_app. right. left. reflexivity.
Qed.

Lemma parse_multiple_without_equals_witness :
  parse_multiple [lit "team=data"; lit "verbose"; lit "env=dev"] = Raises IndexError.
Proof.
  apply (parse_multiple_without_equals [lit "team=data"] [lit "env=dev"] (lit "verbose")).
  vm_compute. no_such_char.
Defined.

(** X22. Of an argument with more than one equals sign [parse_multiple]
    keeps the text between the first and the second: what follows the
    second equals sign is dropped. *)
Theorem parse_multiple_second_equals (key value rest : str) :
  "="%char ∉ key -> "="%char ∉ value ->
  parse_multiple [key ++ "="%char :: value ++ "="%char :: rest] = Returns [(key, value)].
Proof.
  intros Hk Hv. unfold parse_multiple. cbn [map].
  rewrite (split_char_app "=" key _ Hk), (split_char_app "=" value rest Hv). reflexivity.
Qed.

Lemma parse_multiple_second_equals_witness :
  parse_multiple [lit "filter=a=b"] = Returns [(lit "filter", lit "a")].
Proof.
  apply (parse_multiple_second_equals (lit "filter") (lit "a") (lit "b"));
    vm_compute; no_such_char.
Defined.

(** X23. [get_environment_data], on a project file that holds a dict:
    returns the entry of the environment under [environments] when it is
    there and not empty; raises the exception that names the environment
    when the entry is missing or an empty dict; raises [AttributeError]
    when the file has no key [environments] at all. *)
Theorem get_environment_data_outcome (environment text : str) (st : os_state)
    (d : list (str * json)) :
  files st !! INFO_FILE_PATH = Some text -> loads text = Some (JDict d) ->
  (forall envs data,
      dict_lookup (lit "environments") d = Some (JDict envs) ->
      dict_lookup environment envs = Some data -> truthy data = true ->
      get_environment_data environment st = (Ok data, st))
  /\ (forall envs,
        dict_lookup (lit "environments") d = Some (JDict envs) ->
        (dict_lookup environment envs = None
         \/ dict_lookup environment envs = Some (JDict [])) ->
        get_environment_data environment st
        = (Raise (Exception (lit "No environment " ++ environment
                             ++ lit " provided in the project file")), st))
  /\ (dict_lookup (lit "environments") d = None ->
      get_environment_data environment st = (Raise AttributeError, st)).
Proof.
  intros Hf Hl.
  assert (InfoFile.get (lit "environments") st
          = (Ok (dict_get (lit "environments") d), st)) as Hget.
  { unfold InfoFile.get. rewrite (path_exists_file _ _ text Hf). cbn [negb].
    unfold bind. rewrite (read_json_file _ _ text _ Hf Hl). reflexivity. }
  unfold get_environment_data, bind. rewrite Hget. unfold dict_get.
  split; [|split].
  - intros envs data He Hd Ht. rewrite He. cbn [default from_option id].
    unfold lift, py_get, dict_get. rewrite Hd. cbn [default from_option id].
    rewrite Ht. reflexivity.
  - intros envs He Hd. rewrite He. cbn [default from_option id].
    unfold lift, py_get, dict_get. destruct Hd as [-> | ->]; reflexivity.
  - intros He. rewrite He. reflexivity.
Qed.

Lemma get_environment_data_outcome_witness :
  get_environment_data (lit "staging") initialized_project
  = (Raise (Exception (lit "No environment staging provided in the project file")),
     initialized_project).
Proof.
  assert (files initialized_project !! INFO_FILE_PATH
          = Some (dumps_indent 4 (JDict [(lit "environments", JDict [])]))) as Hf
    by (vm_compute; reflexivity).
  assert (loads (dumps_indent 4 (JDict [(lit "environments", JDict [])]))
          = Some (JDict [(lit "environments", JDict [])])) as Hl
    by (vm_compute; reflexivity).
  apply (proj1 (proj2 (get_environment_data_outcome (lit "staging") _ _ _ Hf Hl)) []);
    [reflexivity | left; reflexivity].
Defined.

(** X24. [get_current_branch_name] prefers the variable [GITHUB_REF] to
    the repository: when it is set the result is its text after the last
    slash (the whole text when it has none, so the empty name when it is
    empty), whatever the repository says; only when it is unset does the
    branch of the repository count. *)
Theorem get_current_branch_name_github_ref (env : environ) (repo : git_repo) :
  (forall pre name,
      env (lit "GITHUB_REF") = Some (pre ++ "/"%char :: name) -> "/"%char ∉ name ->
      get_current_branch_name env repo = Some name)
  /\ (forall name,
        env (lit "GITHUB_REF") = Some name -> "/"%char ∉ name ->
        get_current_branch_name env repo = Some name)
  /\ (env (lit "GITHUB_REF") = None ->
      get_current_branch_name env repo
      = match repo with ActiveBranch name => Some name | _ => None end).
Proof.
  split; [|split].
  - intros pre name. apply get_current_branch_name_ref.
  - unfold get_current_branch_name. intros name -> Hname. rewrite (split_char_none "/" name Hname). reflexivity.
  - unfold get_current_branch_name. intros ->. destruct repo; reflexivity.
Qed.

Lemma get_current_branch_name_github_ref_witness :
  get_current_branch_name
    (fun k => if decide (k = lit "GITHUB_REF") then Some (lit "refs/heads/main") else None)
    (ActiveBranch (lit "feature"))
  = Some (lit "main").
Proof.
  apply (proj1 (get_current_branch_name_github_ref
                  (fun k => if decide (k = lit "GITHUB_REF")
                            then Some (lit "refs/heads/main") else None)
                  (ActiveBranch (lit "feature")))
           (lit "refs/heads") (lit "main")).
  - vm_compute. reflexivity.
  - vm_compute. no_such_char.
Defined.

(** X25. A cluster name that starts with [job-] is never found by
    [_preprocess_cluster_args], even when the workspace has a cluster of
    that name: the job clusters are filtered out before the names are
    compared, and the error lists the other clusters. *)
Theorem job_cluster_name_not_found (service : cluster_service) (rest : str)
    (id : option str) :
  exists available,
    _preprocess_cluster_args service (Some (lit "job-" ++ rest)) id
    = Raises (NoClusterNamed (lit "job-" ++ rest) available)
    /\ Forall (fun n => starts_with (lit "job-") n = false) available.
Proof.
  eexists. split.
  - unfold _preprocess_cluster_args. cbn [lit list_ascii_of_string app is_set negb andb].
    rewrite filter_filter_nil; [reflexivity|].
    intros cl Hcl. apply bool_decide_eq_false_2. intros E.
    rewrite E in Hcl. cbn in Hcl. discriminate.
  - apply Forall_forall. intros n Hn. apply list_elem_of_In, in_map_iff in Hn.
    destruct Hn as (cl & <- & Hcl). apply filter_In in Hcl.
    destruct Hcl as [_ Hcl]. apply negb_true_iff in Hcl. exact Hcl.
Qed.

(** X26. When the names of the clusters of the workspace are pairwise
    different, [_preprocess_cluster_args] called with the name of one of
    them (not empty, not starting with [job-]) returns the id of that
    cluster; the [cluster_id] argument is not looked at. *)
Theorem cluster_found_by_name (service : cluster_service) (cl : cluster)
    (id : option str) :
  List.NoDup (map cluster_name (list_clusters service)) ->
  In cl (list_clusters service) ->
  cluster_name cl <> [] -> starts_with (lit "job-") (cluster_name cl) = false ->
  _preprocess_cluster_args service (Some (cluster_name cl)) id = Returns (cluster_id cl).
Proof.
  intros Hnd Hin Hne Hjob. unfold _preprocess_cluster_args.
  destruct (cluster_name cl) as [|c n] eqn:E; [congruence|].
  cbn [is_set negb andb]. rewrite <- E in Hjob |- *.
  rewrite (filter_unique cluster_name _ (list_clusters service) cl Hnd Hin)
    by (rewrite Hjob; reflexivity).
  reflexivity.
Qed.

Lemma cluster_found_by_name_witness :
  _preprocess_cluster_args
    (ClusterService [Cluster (lit "job-17") (lit "0001"); Cluster (lit "shared") (lit "0002")]
                    (fun _ => JNull))
    (Some (lit "shared")) (Some (lit "0001"))
  = Returns (lit "0002").
Proof.
  apply (cluster_found_by_name
           (ClusterService [Cluster (lit "job-17") (lit "0001");
                            Cluster (lit "shared") (lit "0002")] (fun _ => JNull))
           (Cluster (lit "shared") (lit "0002")) (Some (lit "0001"))).
  - cbn. repeat constructor; cbn; intros H.
    + destruct H as [H | []]. discriminate.
    + destruct H.
  - right. left. reflexivity.
  - discriminate.
  - reflexivity.
Defined.

(** X27. When two clusters that are not job clusters have the name asked
    for, [_preprocess_cluster_args] raises the error that lists them, in
    the order of the workspace; job clusters in between do not count. *)
Theorem cluster_name_ambiguous (service : cluster_service) (name : str)
    (id : option str) (matching : list cluster) :
  name <> [] ->
  List.filter (fun cl => bool_decide (cluster_name cl = name)
                         && negb (starts_with (lit "job-") (cluster_name cl)))
              (list_clusters service) = matching ->
  2 <= length matching ->
  _preprocess_cluster_args service (Some name) id
  = Raises (SeveralClustersNamed name matching).
Proof.
  intros Hne Hm Hlen. unfold _preprocess_cluster_args.
  destruct name as [|c n]; [congruence|]. cbn [is_set negb andb].
  assert (forall l,
            List.filter (fun cl => bool_decide (cluster_name cl = c :: n))
              (List.filter (fun cl => negb (starts_with (lit "job-") (cluster_name cl))) l)
            = List.filter (fun cl => bool_decide (cluster_name cl = c :: n)
                                     && negb (starts_with (lit "job-") (cluster_name cl))) l)
    as Hff.
  { induction l as [|a l IH]; [reflexivity|]. cbn [List.filter].
    destruct (negb (starts_with (lit "job-") (cluster_name a))); cbn [List.filter].
    - rewrite andb_true_r. destruct (bool_decide (cluster_name a = c :: n)); rewrite IH;
        reflexivity.
    - rewrite andb_false_r. exact IH. }
  rewrite Hff, Hm. destruct matching as [|m1 [|m2 ms]]; cbn [length] in Hlen; try lia.
  reflexivity.
Qed.

Lemma cluster_name_ambiguous_witness :
  _preprocess_cluster_args
    (ClusterService [Cluster (lit "etl") (lit "0001"); Cluster (lit "job-3") (lit "0002");
                     Cluster (lit "etl") (lit "0003")] (fun _ => JNull))
    (Some (lit "etl")) None
  = Raises (SeveralClustersNamed (lit "etl")
              [Cluster (lit "etl") (lit "0001"); Cluster (lit "etl") (lit "0003")]).
Proof.
  apply (cluster_name_ambiguous
           (ClusterService [Cluster (lit "etl") (lit "0001"); Cluster (lit "job-3") (lit "0002");
                            Cluster (lit "etl") (lit "0003")] (fun _ => JNull))
           (lit "etl") None).
  - discriminate.
  - vm_compute. reflexivity.
  - cbn. lia.
Defined.

(** X28. [generate_filter_string] always starts with the three filters on
    the environment, the status and the action type; the filter on the
    branch is added only for a branch name that is not empty. With
    [GITHUB_REF] set to a text that ends in a slash the branch name is
    empty, so there is no branch filter even inside a repository with an
    active branch. *)
Theorem generate_filter_string_branch (env : str) (os_environ : environ)
    (repo : git_repo) :
  (forall pre c name,
      os_environ (lit "GITHUB_REF") = Some (pre ++ "/"%char :: c :: name) ->
      "/"%char ∉ c :: name ->
      generate_filter_string env os_environ repo
      = lit "tags.dbx_environment = '" ++ env
        ++ lit "' and tags.dbx_status = 'SUCCESS' and tags.dbx_action_type = 'deploy'"
        ++ lit " and tags.dbx_branch_name = '" ++ (c :: name) ++ lit "'")
  /\ (forall pre,
        os_environ (lit "GITHUB_REF") = Some (pre ++ [("/"%char)]) ->
        generate_filter_string env os_environ repo
        = lit "tags.dbx_environment = '" ++ env
          ++ lit "' and tags.dbx_status = 'SUCCESS' and tags.dbx_action_type = 'deploy'").
Proof.
  split.
  - intros pre c name Href Hname. unfold generate_filter_string.
    rewrite (get_current_branch_name_ref os_environ repo pre (c :: name) Href Hname).
    cbn [is_set default from_option id app Json.join]. rewrite <- !app_assoc. reflexivity.
  - intros pre Href. unfold generate_filter_string.
    rewrite (get_current_branch_name_ref os_environ repo pre [] Href)
      by apply not_elem_of_nil.
    cbn [is_set default app Json.join]. rewrite <- !app_assoc. reflexivity.
Qed.

Lemma generate_filter_string_branch_witness :
  generate_filter_string (lit "default")
    (fun k => if decide (k = lit "GITHUB_REF") then Some (lit "refs/heads/") else None)
    (ActiveBranch (lit "main"))
  = lit "tags.dbx_environment = 'default' and tags.dbx_status = 'SUCCESS' and tags.dbx_action_type = 'deploy'".
Proof.
  apply (proj2 (generate_filter_string_branch (lit "default")
                  (fun k => if decide (k = lit "GITHUB_REF")
                            then Some (lit "refs/heads/") else None)
                  (ActiveBranch (lit "main")))
           (lit "refs/heads")).
  vm_compute. reflexivity.
Defined.

(** X29. [get_package_file] returns nothing when the glob yields no
    file; otherwise it returns one of the files the glob yields, and no
    file of the glob was modified later than it. In both cases it echoes
    two messages and touches nothing else. *)
Theorem get_package_file_latest (glob : list str) (getmtime : str -> Z) (st : os_state) :
  (glob = [] ->
   get_package_file glob getmtime st
   = (Ok None,
      OsState (dirs st) (files st)
        (stdout st ++ [lit "[dbx] Locating package file";
                       lit "[dbx] Package file was not found"])))
  /\ (glob <> [] ->
      exists file_path,
        In file_path glob
        /\ (forall other, In other glob -> (getmtime other <= getmtime file_path)%Z)
        /\ get_package_file glob getmtime st
           = (Ok (Some file_path),
              OsState (dirs st) (files st)
                (stdout st ++ [lit "[dbx] Locating package file";
                               lit "[dbx] Package file located in: " ++ file_path]))).
Proof.
  split.
  - intros ->. unfold get_package_file, bind, dbx_echo, ret. cbn [sorted foldr dirs files stdout].
    rewrite <- app_assoc. reflexivity.
  - intros Hne. destruct (sorted_last_max getmtime [] glob Hne) as [Hin Hmax].
    exists (List.last (sorted getmtime glob) []). split; [exact Hin|]. split; [exact Hmax|].
    unfold get_package_file, bind, dbx_echo, ret.
    destruct (sorted getmtime glob) as [|a s] eqn:E.
    + apply sorted_nil in E. congruence.
    + cbn [dirs files stdout]. rewrite <- app_assoc. reflexivity.
Qed.

Lemma get_package_file_latest_witness :
  exists file_path,
    In file_path [lit "dist/a-0.2.whl"; lit "dist/a-0.1.whl"]
    /\ (forall other, In other [lit "dist/a-0.2.whl"; lit "dist/a-0.1.whl"] ->
          ((fun p => if decide (p = lit "dist/a-0.2.whl") then 20 else 10) other
           <= (fun p => if decide (p = lit "dist/a-0.2.whl") then 20 else 10) file_path)%Z)
    /\ get_package_file [lit "dist/a-0.2.whl"; lit "dist/a-0.1.whl"]
         (fun p => if decide (p = lit "dist/a-0.2.whl") then 20%Z else 10%Z) empty_project
       = (Ok (Some file_path),
          OsState (dirs empty_project) (files empty_project)
            (stdout empty_project
             ++ [lit "[dbx] Locating package file";
                 lit "[dbx] Package file located in: " ++ file_path])).
Proof.
  apply (proj2 (get_package_file_latest [lit "dist/a-0.2.whl"; lit "dist/a-0.1.whl"]
                  (fun p => if decide (p = lit "dist/a-0.2.whl") then 20%Z else 10%Z)
                  empty_project)).
  discriminate.
Defined.
